(** * Tartube media registry: a shallow embedding of [tartube/media.py]

    The Python classes [Video], [Channel], [Playlist] and [Folder] are
    objects with identity that point at each other ([parent_obj],
    [child_list]) and are mutated in place.  They are modelled by an object
    store: a finite map from references to object records, threaded through
    every method.  A Python exception is a value of the error monad
    [result]. *)

From stdpp Require Import gmap strings list fin_maps sorting.
From Stdlib Require Import ZArith Lia Ascii.

Set Warnings "-register-all".
Local Open Scope Z_scope.

(** ** Exceptions and the error monad *)

(** [KeyError], [TypeError] and [AttributeError] are the Python exceptions
    the modelled methods can raise.  [NoObject] (a reference that is not in
    the store) and [OutOfFuel] (a traversal that ran longer than the bound
    it was given) cannot happen in Python; they keep the model total. *)
Inductive exn := KeyError | TypeError | AttributeError | NoObject | OutOfFuel.

Inductive result (A : Type) :=
| Ok (a : A)
| Raise (e : exn).
Arguments Ok {A} a.
Arguments Raise {A} e.

#[global] Instance result_ret : MRet result := @Ok.
#[global] Instance result_bind : MBind result :=
  λ A B f m, match m with Ok a => f a | Raise e => Raise e end.

#[global] Instance exn_eq_dec : EqDecision exn.
Proof. solve_decision. Defined.

(** ** Data model *)

(** Object identity (what Python's [is] and the default [==] compare). *)
Abbreviation ref := positive.

Inductive media_class := Video | Channel | Playlist | Folder.

#[global] Instance media_class_eq_dec : EqDecision media_class.
Proof. solve_decision. Defined.

(** One record for the instance variables of all four classes, as the
    classes share most of them through [GenericMedia] and
    [GenericContainer].  An attribute that a class does not have
    ([child_list] of a [Video], [priv_flag] of a [Channel], ...) holds a
    default here; the methods read it only behind the same [isinstance]
    tests as the source, or through [video_attr] where the source reads it
    unguarded.  Instance variables that no modelled method reads
    ([options_obj], [file_name], [descrip], [error_list], ...) are left
    out.  Strings are sequences of code points below 256. *)
Record media := Media {
  cls : media_class;
  parent_obj : option ref;
  dbid : Z;
  name : string;
  nickname : string;
  source : option string;
  (* media.Video *)
  bookmark_flag : bool;
  dl_flag : bool;
  fav_flag : bool;
  new_flag : bool;
  waiting_flag : bool;
  upload_time : option Z;
  receive_time : option Z;
  index : option Z;
  (* media.Channel, media.Playlist, media.Folder *)
  child_list : list ref;
  master_dbid : Z;
  slave_dbid_list : list Z;
  vid_count : Z;
  bookmark_count : Z;
  dl_count : Z;
  fav_count : Z;
  new_count : Z;
  waiting_count : Z;
  (* media.Folder *)
  fixed_flag : bool;
  priv_flag : bool;
}.

Abbreviation heap := (gmap ref media).

(** The part of [mainapp.TartubeApp] that media.py reads. *)
Record app := App {
  media_reg_dict : gmap Z ref;
  downloads_dir : string;
  match_method : string;
  match_first_chars : Z;
  match_ignore_chars : Z;
}.

Definition isinstance (o : media) (c : media_class) : bool :=
  bool_decide (cls o = c).

(** [isinstance(o, GenericRemoteContainer)] *)
Definition is_remote (o : media) : bool :=
  isinstance o Channel || isinstance o Playlist.

Definition deref (h : heap) (r : ref) : result media :=
  match h !! r with
  | Some o => Ok o
  | None => Raise NoObject
  end.

(** Reading an attribute that only [media.Video] objects have. *)
Definition video_attr {A} (f : media → A) (o : media) : result A :=
  if isinstance o Video then Ok (f o) else Raise AttributeError.

(** *** Assignments to single instance variables *)

Definition with_child_list (l : list ref) (o : media) : media :=
  Media (cls o) (parent_obj o) (dbid o) (name o) (nickname o) (source o)
    (bookmark_flag o) (dl_flag o) (fav_flag o) (new_flag o) (waiting_flag o)
    (upload_time o) (receive_time o) (index o)
    l (master_dbid o) (slave_dbid_list o)
    (vid_count o) (bookmark_count o) (dl_count o) (fav_count o)
    (new_count o) (waiting_count o) (fixed_flag o) (priv_flag o).

Definition with_counts (vc bc dc fc nc wc : Z) (o : media) : media :=
  Media (cls o) (parent_obj o) (dbid o) (name o) (nickname o) (source o)
    (bookmark_flag o) (dl_flag o) (fav_flag o) (new_flag o) (waiting_flag o)
    (upload_time o) (receive_time o) (index o)
    (child_list o) (master_dbid o) (slave_dbid_list o)
    vc bc dc fc nc wc (fixed_flag o) (priv_flag o).

Definition with_vid_count (vc : Z) (o : media) : media :=
  with_counts vc (bookmark_count o) (dl_count o) (fav_count o)
    (new_count o) (waiting_count o) o.

Definition with_master_dbid (m : Z) (o : media) : media :=
  Media (cls o) (parent_obj o) (dbid o) (name o) (nickname o) (source o)
    (bookmark_flag o) (dl_flag o) (fav_flag o) (new_flag o) (waiting_flag o)
    (upload_time o) (receive_time o) (index o)
    (child_list o) m (slave_dbid_list o)
    (vid_count o) (bookmark_count o) (dl_count o) (fav_count o)
    (new_count o) (waiting_count o) (fixed_flag o) (priv_flag o).

Definition with_slave_dbid_list (l : list Z) (o : media) : media :=
  Media (cls o) (parent_obj o) (dbid o) (name o) (nickname o) (source o)
    (bookmark_flag o) (dl_flag o) (fav_flag o) (new_flag o) (waiting_flag o)
    (upload_time o) (receive_time o) (index o)
    (child_list o) (master_dbid o) l
    (vid_count o) (bookmark_count o) (dl_count o) (fav_count o)
    (new_count o) (waiting_count o) (fixed_flag o) (priv_flag o).

Definition with_name (s : string) (o : media) : media :=
  Media (cls o) (parent_obj o) (dbid o) s (nickname o) (source o)
    (bookmark_flag o) (dl_flag o) (fav_flag o) (new_flag o) (waiting_flag o)
    (upload_time o) (receive_time o) (index o)
    (child_list o) (master_dbid o) (slave_dbid_list o)
    (vid_count o) (bookmark_count o) (dl_count o) (fav_count o)
    (new_count o) (waiting_count o) (fixed_flag o) (priv_flag o).

Definition with_nickname (s : string) (o : media) : media :=
  Media (cls o) (parent_obj o) (dbid o) (name o) s (source o)
    (bookmark_flag o) (dl_flag o) (fav_flag o) (new_flag o) (waiting_flag o)
    (upload_time o) (receive_time o) (index o)
    (child_list o) (master_dbid o) (slave_dbid_list o)
    (vid_count o) (bookmark_count o) (dl_count o) (fav_count o)
    (new_count o) (waiting_count o) (fixed_flag o) (priv_flag o).

(** ** Python library functions used by media.py *)

(** [list.remove(x)]: drops the first item equal to [x].  It is only called
    after an [in] test, so the [ValueError] case is not modelled. *)
Fixpoint list_remove (x : ref) (l : list ref) : list ref :=
  match l with
  | [] => []
  | y :: l' => if bool_decide (y = x) then l' else y :: list_remove x l'
  end.

(** [functools.cmp_to_key(mycmp)]: [list.sort] only ever asks [a < b] of two
    keys, which is [mycmp(a, b) < 0]; with [None] on the left Python 3
    raises [TypeError]. *)
Definition cmp_to_key_lt {A} (mycmp : A → A → result (option Z))
    (a b : A) : result bool :=
  r ← mycmp a b;
  match r with
  | Some z => Ok (z <? 0)
  | None => Raise TypeError
  end.

(** [list.sort(key=...)], as a stable insertion sort: the items are taken
    left to right and each one moves leftwards over the items it is smaller
    than, asking only [later < earlier]; [rp] is the sorted prefix in
    reverse.  Where [<] is a strict weak order on the items every stable
    sort returns the same list, so this is the list that [list.sort]
    returns.  Where it is not (a comparison that is not transitive, or that
    raises on some pairs) CPython's sort, which looks for runs and inserts
    by bisection, asks [<] of other pairs: it can leave the items in
    another order, and can raise where this function returns.  For such
    comparisons the statements below use of the sort only what holds of
    CPython's sort as well: that a result is a permutation of the list,
    that items which the comparison ranks consistently come out in the
    order of their ranks, and the outcome on single lists where the first
    comparison asked is the same and raises. *)
Fixpoint sort_insert {A} (lt : A → A → result bool) (x : A) (rp : list A)
    : result (list A) :=
  match rp with
  | [] => Ok [x]
  | p :: rp' =>
      b ← lt x p;
      if b : bool then r ← sort_insert lt x rp'; Ok (p :: r)
      else Ok (x :: p :: rp')
  end.

Fixpoint sort_run {A} (lt : A → A → result bool) (l : list A) (rp : list A)
    : result (list A) :=
  match l with
  | [] => Ok (reverse rp)
  | x :: l' => rp' ← sort_insert lt x rp; sort_run lt l' rp'
  end.

Definition list_sort {A} (mycmp : A → A → result (option Z)) (l : list A)
    : result (list A) :=
  sort_run (cmp_to_key_lt mycmp) l [].

(** *** Strings *)

(** [str.lower()] on code points below 256: the ASCII capitals and the
    Latin-1 capitals U+00C0..U+00DE other than the multiplication sign. *)
Definition chr_lower (c : ascii) : ascii :=
  let n := N_of_ascii c in
  if ((65 <=? n) && (n <=? 90))%N
     || ((192 <=? n) && (n <=? 222) && negb (n =? 215))%N
  then ascii_of_N (n + 32) else c.

Fixpoint str_lower (s : string) : string :=
  match s with
  | EmptyString => EmptyString
  | String c s' => String (chr_lower c) (str_lower s')
  end.

(** [a < b] on [str]: lexicographic on code points. *)
Definition str_lt (a b : string) : bool := String.ltb a b.

(** [\s] for a [str] pattern, on code points below 256. *)
Definition is_space (c : ascii) : bool :=
  let n := N_of_ascii c in
  (((9 <=? n) && (n <=? 13)) || ((28 <=? n) && (n <=? 32))
   || (n =? 133) || (n =? 160))%N.

(** [\w] under [re.UNICODE], on code points below 256: alphanumeric
    ([str.isalnum]) or the underscore. *)
Definition is_word (c : ascii) : bool :=
  let n := N_of_ascii c in
  (((48 <=? n) && (n <=? 57)) || ((65 <=? n) && (n <=? 90))
   || ((97 <=? n) && (n <=? 122)) || (n =? 95)
   || (n =? 170) || (n =? 178) || (n =? 179) || (n =? 181)
   || (n =? 185) || (n =? 186) || ((188 <=? n) && (n <=? 190))
   || ((192 <=? n) && (n <=? 214)) || ((216 <=? n) && (n <=? 246))
   || (248 <=? n))%N.

(** [\W] *)
Definition is_nonword (c : ascii) : bool := negb (is_word c).

(** [[\_\s]] *)
Definition is_underline_or_space (c : ascii) : bool :=
  (N_of_ascii c =? 95)%N || is_space c.

Fixpoint str_all (p : ascii → bool) (s : string) : bool :=
  match s with
  | EmptyString => true
  | String c s' => p c && str_all p s'
  end.

Fixpoint str_drop_while (p : ascii → bool) (s : string) : string :=
  match s with
  | EmptyString => EmptyString
  | String c s' => if p c then str_drop_while p s' else s
  end.

(** [re.sub(r'[p]+', repl, s)]: every maximal run of characters of the class
    [p] is replaced by [repl]; [in_run] says that the previous character
    belonged to a run that has been replaced already. *)
Fixpoint sub_runs (p : ascii → bool) (repl : string) (in_run : bool)
    (s : string) : string :=
  match s with
  | EmptyString => EmptyString
  | String c s' =>
      if p c then
        if in_run then sub_runs p repl true s'
        else repl +:+ sub_runs p repl true s'
      else String c (sub_runs p repl false s')
  end.

Definition re_sub_plus (p : ascii → bool) (repl s : string) : string :=
  sub_runs p repl false s.

(** [re.sub(r'^[p]+', repl, s)]: only a run at the very start matches. *)
Definition re_sub_bol_plus (p : ascii → bool) (repl s : string) : string :=
  match s with
  | EmptyString => EmptyString
  | String c s' => if p c then repl +:+ str_drop_while p s' else s
  end.

(** [re.sub(r'[p]+$', repl, s)]: the leftmost position from which the class
    [p] runs to the end of the string matches.  (Without [re.MULTILINE],
    [$] also matches before a final newline, but a run of whitespace that
    stops there goes on over the newline, which is whitespace.) *)
Fixpoint re_sub_plus_eol (p : ascii → bool) (repl s : string) : string :=
  match s with
  | EmptyString => EmptyString
  | String c s' =>
      if p c && str_all p s' then repl
      else String c (re_sub_plus_eol p repl s')
  end.

Fixpoint str_take (n : nat) (s : string) : string :=
  match n, s with
  | S n', String c s' => String c (str_take n' s')
  | _, _ => EmptyString
  end.

(** The slice [s[:n]]; a negative [n] counts from the end. *)
Definition slice_to (n : Z) (s : string) : string :=
  if 0 <=? n then str_take (Z.to_nat n) s
  else str_take (Z.to_nat (Z.of_nat (String.length s) + n)) s.

(** [os.path]: the platform's [join] (first component, then the others)
    and [abspath]. *)
Class OsPath := {
  os_path_join : string → list string → string;
  os_path_abspath : string → string;
}.

(** What a caller can pass in the positions of [app_obj] and [new_name]. *)
Inductive pyarg :=
| ArgNone
| ArgStr (s : string)
| ArgApp (a : app).

(** ** class GenericContainer *)

(** [del_child(self, child_obj)] *)
Definition GenericContainer_del_child (h : heap) (self child_obj : ref)
    : result (bool * heap) :=
  s ← deref h self;
  if negb (bool_decide (child_obj ∈ child_list s)) then Ok (false, h)
  else
    let s1 := with_child_list (list_remove child_obj (child_list s)) s in
    let h1 := <[self := s1]> h in
    c ← deref h1 child_obj;
    if isinstance c Video then
      let s2 :=
        with_counts
          (vid_count s1 - 1)
          (if bookmark_flag c then bookmark_count s1 - 1 else bookmark_count s1)
          (if dl_flag c then dl_count s1 - 1 else dl_count s1)
          (if fav_flag c then fav_count s1 - 1 else fav_count s1)
          (if new_flag c then new_count s1 - 1 else new_count s1)
          (if waiting_flag c then waiting_count s1 - 1 else waiting_count s1)
          s1 in
      Ok (true, <[self := s2]> h1)
    else Ok (true, h1).

(** [add_slave_dbid(self, dbid)] *)
Definition GenericContainer_add_slave_dbid (h : heap) (self : ref) (d : Z)
    : result heap :=
  s ← deref h self;
  let match_flag := existsb (λ slave_dbid, bool_decide (slave_dbid = d))
                      (slave_dbid_list s) in
  if negb match_flag
  then Ok (<[self := with_slave_dbid_list (slave_dbid_list s ++ [d]) s]> h)
  else Ok h.

(** [del_slave_dbid(self, dbid)] *)
Definition GenericContainer_del_slave_dbid (h : heap) (self : ref) (d : Z)
    : result heap :=
  s ← deref h self;
  let new_list := filter (λ slave_dbid, slave_dbid ≠ d) (slave_dbid_list s) in
  Ok (<[self := with_slave_dbid_list new_list s]> h).

(** [obj.add_slave_dbid(dbid)] and [obj.del_slave_dbid(dbid)]: only the
    container classes have these methods. *)
Definition call_add_slave_dbid (h : heap) (obj : ref) (d : Z) : result heap :=
  o ← deref h obj;
  if isinstance o Video then Raise AttributeError
  else GenericContainer_add_slave_dbid h obj d.

Definition call_del_slave_dbid (h : heap) (obj : ref) (d : Z) : result heap :=
  o ← deref h obj;
  if isinstance o Video then Raise AttributeError
  else GenericContainer_del_slave_dbid h obj d.

(** [set_master_dbid(self, app_obj, dbid)].  [self] is read again after the
    old destination has been updated, as the registry may map the old
    master id to [self] itself. *)
Definition GenericContainer_set_master_dbid (h : heap) (app_obj : app)
    (self : ref) (d : Z) : result heap :=
  s ← deref h self;
  if bool_decide (d = master_dbid s) then Ok h
  else
    h1 ← (if bool_decide (master_dbid s ≠ dbid s) then
            match media_reg_dict app_obj !! master_dbid s with
            | Some old_dest_obj => call_del_slave_dbid h old_dest_obj (dbid s)
            | None => Ok h
            end
          else Ok h);
    s1 ← deref h1 self;
    let h2 := <[self := with_master_dbid d s1]> h1 in
    if bool_decide (d ≠ dbid s1) then
      match media_reg_dict app_obj !! d with
      | Some new_dest_obj => call_add_slave_dbid h2 new_dest_obj (dbid s1)
      | None => Raise KeyError
      end
    else Ok h2.

(** [GenericContainer.set_name(self, name)] *)
Definition GenericContainer_set_name (h : heap) (self : ref) (n : string)
    : result heap :=
  s ← deref h self;
  let s1 := if bool_decide (nickname s = name s) then with_nickname n s
            else s in
  Ok (<[self := with_name n s1]> h).

(** [Video.set_name(self, name)] *)
Definition Video_set_name (h : heap) (self : ref) (n : string)
    : result heap :=
  s ← deref h self;
  Ok (<[self := with_name n s]> h).

(** [obj.set_name(name)]: [Video] overrides the method it would otherwise
    not have; the containers inherit [GenericContainer]'s. *)
Definition set_name (h : heap) (obj : ref) (n : string) : result heap :=
  o ← deref h obj;
  if isinstance o Video then Video_set_name h obj n
  else GenericContainer_set_name h obj n.

(** The loop [while obj.parent_obj: obj = obj.parent_obj;
    dir_list.insert(0, obj.name)] of [get_default_dir] and
    [get_relative_default_dir]. *)
Fixpoint parent_names (fuel : nat) (h : heap) (obj : media)
    (dir_list : list string) : result (list string) :=
  match fuel with
  | O => Raise OutOfFuel
  | S fuel' =>
      match parent_obj obj with
      | None => Ok dir_list
      | Some p => o ← deref h p; parent_names fuel' h o (name o :: dir_list)
      end
  end.

Section Paths.
Context `{OsPath}.




(** [os.path.join] applied to [dir_list], with the components in a list. *)
Definition join_list (dir_list : list string) : result string :=
  match dir_list with
  | d :: ds => Ok (os_path_join d ds)
  | [] => Raise TypeError
  end.

(** [get_relative_default_dir(self, new_name=None)].  The parameter takes
    whatever the caller passes; [os.path.join] rejects a component that is
    not a string. *)
Definition GenericContainer_get_relative_default_dir (fuel : nat) (h : heap)
    (self : ref) (new_name : pyarg) : result string :=
  s ← deref h self;
  match new_name with
  | ArgNone => dir_list ← parent_names fuel h s [name s]; join_list dir_list
  | ArgStr n => dir_list ← parent_names fuel h s [n]; join_list dir_list
  | ArgApp _ => _ ← parent_names fuel h s []; Raise TypeError
  end.

(** [obj.get_relative_default_dir(...)]: the method takes at most one
    argument after [self]; binding more raises [TypeError] before the body
    runs. *)
Definition call_get_relative_default_dir (fuel : nat) (h : heap) (obj : ref)
    (args : list pyarg) : result string :=
  o ← deref h obj;
  if isinstance o Video then Raise AttributeError
  else match args with
       | [] => GenericContainer_get_relative_default_dir fuel h obj ArgNone
       | [new_name] =>
           GenericContainer_get_relative_default_dir fuel h obj new_name
       | _ => Raise TypeError
       end.

(** [get_relative_actual_dir(self, app_obj, new_name=None)] *)
Definition GenericContainer_get_relative_actual_dir (fuel : nat) (h : heap)
    (self : ref) (app_obj : app) (new_name : pyarg) : result string :=
  s ← deref h self;
  if bool_decide (master_dbid s ≠ dbid s) then
    match media_reg_dict app_obj !! master_dbid s with
    | Some master_obj =>
        call_get_relative_default_dir fuel h master_obj
          [ArgApp app_obj; new_name]
    | None => Raise KeyError
    end
  else call_get_relative_default_dir fuel h self [ArgApp app_obj; new_name].

End Paths.

(** ** class GenericRemoteContainer *)

(** [obj1.f is not None and obj2.f is not None] for a [Video] attribute [f],
    evaluated left to right; the two values when the test holds. *)
Definition both_set (f : media → option Z) (obj1 obj2 : media)
    : result (option (Z * Z)) :=
  a1 ← video_attr f obj1;
  match a1 with
  | None => Ok None
  | Some x1 =>
      a2 ← video_attr f obj2;
      match a2 with
      | None => Ok None
      | Some x2 => Ok (Some (x1, x2))
      end
  end.

(** [GenericRemoteContainer.do_sort(self, obj1, obj2)].  [Ok None] is
    Python's [None], returned when the function falls off its end. *)
Definition GenericRemoteContainer_do_sort (self obj1 obj2 : media)
    : result (option Z) :=
  by_index ← (if isinstance self Playlist then both_set index obj1 obj2
              else Ok None);
  match by_index with
  | Some (i1, i2) => if i1 <? i2 then Ok (Some (-1)) else Ok (Some 1)
  | None =>
      by_upload ← both_set upload_time obj1 obj2;
      match by_upload with
      | Some (u1, u2) =>
          if u1 >? u2 then Ok (Some (-1))
          else if u1 <? u2 then Ok (Some 1)
          else
            by_receive ← both_set receive_time obj1 obj2;
            match by_receive with
            | Some (r1, r2) =>
                if r1 <? r2 then Ok (Some (-1))
                else if r1 >? r2 then Ok (Some 1)
                else Ok (Some 0)
            | None => Ok None
            end
      | None => Ok (Some 0)
      end
  end.

(** A comparison of two objects, applied to two references. *)
Definition on_refs (h : heap) (mycmp : media → media → result (option Z))
    (r1 r2 : ref) : result (option Z) :=
  o1 ← deref h r1;
  o2 ← deref h r2;
  mycmp o1 o2.

(** [GenericRemoteContainer.sort_children(self)].  Nothing else runs while
    the copy is sorted, so the copy is as long as the list and the [while]
    loop ends in its first round; the list is then sorted once more in
    place. *)
Definition GenericRemoteContainer_sort_children (h : heap) (self : ref)
    : result heap :=
  s ← deref h self;
  copy_list ← list_sort (on_refs h (GenericRemoteContainer_do_sort s))
                 (child_list s);
  child_list' ← list_sort (on_refs h (GenericRemoteContainer_do_sort s))
                  copy_list;
  Ok (<[self := with_child_list child_list' s]> h).

(** [GenericRemoteContainer.add_child(self, child_obj, no_sort_flag=False)] *)
Definition GenericRemoteContainer_add_child (h : heap) (self child_obj : ref)
    (no_sort_flag : bool) : result heap :=
  s ← deref h self;
  c ← deref h child_obj;
  if isinstance c Video || bool_decide (child_obj ∈ child_list s) then
    let h1 := <[self := with_child_list (child_list s ++ [child_obj]) s]> h in
    h2 ← (if negb no_sort_flag then GenericRemoteContainer_sort_children h1 self
          else Ok h1);
    c2 ← deref h2 child_obj;
    if isinstance c2 Video then
      s2 ← deref h2 self;
      Ok (<[self := with_vid_count (vid_count s2 + 1) s2]> h2)
    else Ok h2
  else Ok h.

(** ** class Folder *)

(** [Folder.do_sort(self, obj1, obj2)]; every path returns an integer. *)
Definition Folder_do_sort (self obj1 obj2 : media) : Z :=
  if bool_decide (cls obj1 = cls obj2) || (is_remote obj1 && is_remote obj2)
  then
    if isinstance obj1 Video then
      match upload_time obj1, upload_time obj2 with
      | Some u1, Some u2 =>
          if u1 >? u2 then -1
          else if u1 <? u2 then 1
          else
            match receive_time obj1, receive_time obj2 with
            | Some r1, Some r2 =>
                if priv_flag self then
                  if r1 >? r2 then -1 else if r1 <? r2 then 1 else 0
                else
                  if r1 <? r2 then -1 else if r1 >? r2 then 1 else 0
            | _, _ => 0
            end
      | _, _ => 0
      end
    else
      if str_lt (str_lower (name obj1)) (str_lower (name obj2)) then -1
      else if str_lt (str_lower (name obj2)) (str_lower (name obj1)) then 1
      else 0
  else
    if isinstance obj1 Folder then -1
    else if isinstance obj2 Folder then 1
    else if isinstance obj1 Channel || isinstance obj1 Playlist then -1
    else if isinstance obj2 Channel || isinstance obj2 Playlist then 1
    else 0.

(** [Folder.sort_children(self)]; as for the remote containers the [while]
    loop ends in its first round. *)
Definition Folder_sort_children (h : heap) (self : ref) : result heap :=
  s ← deref h self;
  copy_list ← list_sort
                 (on_refs h (λ o1 o2, Ok (Some (Folder_do_sort s o1 o2))))
                 (child_list s);
  Ok (<[self := with_child_list copy_list s]> h).

(** [Folder.add_child(self, child_obj, no_sort_flag=False)] *)
Definition Folder_add_child (h : heap) (self child_obj : ref)
    (no_sort_flag : bool) : result heap :=
  s ← deref h self;
  if negb (bool_decide (child_obj ∈ child_list s)) then
    let h1 := <[self := with_child_list (child_list s ++ [child_obj]) s]> h in
    h2 ← (if negb no_sort_flag then Folder_sort_children h1 self else Ok h1);
    c ← deref h2 child_obj;
    if isinstance c Video then
      s2 ← deref h2 self;
      Ok (<[self := with_vid_count (vid_count s2 + 1) s2]> h2)
    else Ok h2
  else Ok h.

(** ** Method calls that depend on the receiver's class *)

(** [obj.add_child(child_obj, no_sort_flag)] *)
Definition add_child (h : heap) (obj child_obj : ref) (no_sort_flag : bool)
    : result heap :=
  o ← deref h obj;
  match cls o with
  | Video => Raise AttributeError
  | Channel | Playlist =>
      GenericRemoteContainer_add_child h obj child_obj no_sort_flag
  | Folder => Folder_add_child h obj child_obj no_sort_flag
  end.

(** [obj.del_child(child_obj)] *)
Definition del_child (h : heap) (obj child_obj : ref) : result (bool * heap) :=
  o ← deref h obj;
  if isinstance o Video then Raise AttributeError
  else GenericContainer_del_child h obj child_obj.

(** ** Constructors *)

(** The instance variables as [Video.__init__] sets them. *)
Definition new_video (d : Z) (n : string) (parent : ref) : media :=
  Media Video (Some parent) d n n None
    false false false false false None None None
    [] d [] 0 0 0 0 0 0 false false.

(** [Video(dbid, name, parent_obj, options_obj, no_sort_flag)]: a new
    object, which the constructor hands to its parent's [add_child]. *)
Definition Video_init (h : heap) (d : Z) (n : string) (parent : ref)
    (no_sort_flag : bool) : result (ref * heap) :=
  let self := fresh (dom h) in
  let h1 := <[self := new_video d n parent]> h in
  h2 ← add_child h1 parent self no_sort_flag;
  Ok (self, h2).

(** The instance variables as the constructors of [Channel], [Playlist] and
    [Folder] set them ([fixed_flag] and [priv_flag] are arguments of
    [Folder] only). *)
Definition new_container (c : media_class) (d : Z) (n : string)
    (parent : option ref) (fixed priv : bool) : media :=
  Media c parent d n n None
    false false false false false None None None
    [] d [] 0 0 0 0 0 0 fixed priv.

Definition container_init (c : media_class) (h : heap) (d : Z) (n : string)
    (parent : option ref) (fixed priv : bool) : result (ref * heap) :=
  let self := fresh (dom h) in
  let h1 := <[self := new_container c d n parent fixed priv]> h in
  match parent with
  | Some p => h2 ← add_child h1 p self false; Ok (self, h2)
  | None => Ok (self, h1)
  end.

(** [Channel(app_obj, dbid, name, parent_obj, options_obj)] *)
Definition Channel_init (h : heap) (d : Z) (n : string) (parent : option ref)
    : result (ref * heap) :=
  container_init Channel h d n parent false false.

(** [Playlist(app_obj, dbid, name, parent_obj, options_obj)] *)
Definition Playlist_init (h : heap) (d : Z) (n : string)
    (parent : option ref) : result (ref * heap) :=
  container_init Playlist h d n parent false false.

(** [Folder(app_obj, dbid, name, parent_obj, options_obj, fixed_flag,
    priv_flag, restrict_flag, temp_flag)] *)
Definition Folder_init (h : heap) (d : Z) (n : string) (parent : option ref)
    (fixed priv : bool) : result (ref * heap) :=
  container_init Folder h d n parent fixed priv.

(** ** GenericContainer.find_matching_video *)

(** The four [re.sub] calls that the method applies to [name] and, in the
    loop, to each child's name. *)
Definition tidy_name (s : string) : string :=
  let s := re_sub_plus is_nonword " " s in
  let s := re_sub_plus is_underline_or_space " " s in
  let s := re_sub_bol_plus is_space "" s in
  re_sub_plus_eol is_space "" s.

(** The condition of the [if] in the loop. *)
Definition name_matches (method : string) (first ignore : Z)
    (child_name test_name : string) : bool :=
  (String.eqb method "exact_match" && String.eqb child_name test_name)
  || (String.eqb method "match_first"
      && String.eqb (slice_to first child_name) (slice_to first test_name))
  || (String.eqb method "ignore_last"
      && String.eqb (slice_to ignore child_name) (slice_to ignore test_name)).

Fixpoint find_matching_loop (h : heap) (method : string) (first ignore : Z)
    (test_name : string) (l : list ref) : result (option ref) :=
  match l with
  | [] => Ok None
  | child_obj :: l' =>
      c ← deref h child_obj;
      if isinstance c Video
         && name_matches method first ignore (tidy_name (name c)) test_name
      then Ok (Some child_obj)
      else find_matching_loop h method first ignore test_name l'
  end.

(** [find_matching_video(self, app_obj, name)] *)
Definition GenericContainer_find_matching_video (h : heap) (self : ref)
    (app_obj : app) (n : string) : result (option ref) :=
  s ← deref h self;
  let method := match_method app_obj in
  let first := match_first_chars app_obj in
  let ignore := match_ignore_chars app_obj * -1 in
  let test_name := tidy_name n in
  find_matching_loop h method first ignore test_name (child_list s).

(** ** GenericContainer.prepare_flat_export *)

(** The dictionaries written to the JSON file: the values under the keys
    ['type'], ['dbid'], ['name'], ['nickname'], ['source'] and
    ['db_dict']. *)
Inductive doc :=
| Doc (type : string) (d : Z) (n : string) (nick : option string)
      (src : option string) (db_dict : gmap Z doc).

Definition doc_type (x : doc) : string :=
  match x with Doc t _ _ _ _ _ => t end.
Definition doc_dbid (x : doc) : Z :=
  match x with Doc _ d _ _ _ _ => d end.
Definition doc_db_dict (x : doc) : gmap Z doc :=
  match x with Doc _ _ _ _ _ m => m end.

(** [child_mini_dict] for a video. *)
Definition video_mini_dict (c : media) : doc :=
  Doc "video" (dbid c) (name c) None (source c) ∅.

(** The loop over the children of a channel or playlist; [rec] is the
    recursive call. *)
Fixpoint flat_remote_loop (rec : ref → gmap Z doc → result (gmap Z doc))
    (h : heap) (include_video_flag : bool) (l : list ref)
    (child_dict db_dict : gmap Z doc) : result (gmap Z doc * gmap Z doc) :=
  match l with
  | [] => Ok (child_dict, db_dict)
  | child_obj :: l' =>
      c ← deref h child_obj;
      if isinstance c Video then
        if include_video_flag && bool_decide (source c ≠ None) then
          flat_remote_loop rec h include_video_flag l'
            (<[dbid c := video_mini_dict c]> child_dict) db_dict
        else flat_remote_loop rec h include_video_flag l' child_dict db_dict
      else
        db_dict' ← rec child_obj db_dict;
        flat_remote_loop rec h include_video_flag l' child_dict db_dict'
  end.

(** The loop over the children of a folder. *)
Fixpoint flat_folder_loop (rec : ref → gmap Z doc → result (gmap Z doc))
    (h : heap) (l : list ref) (db_dict : gmap Z doc)
    : result (gmap Z doc) :=
  match l with
  | [] => Ok db_dict
  | child_obj :: l' =>
      c ← deref h child_obj;
      if negb (isinstance c Video) then
        db_dict' ← rec child_obj db_dict;
        flat_folder_loop rec h l' db_dict'
      else flat_folder_loop rec h l' db_dict
  end.

(** [mini_dict] for a channel or playlist. *)
Definition container_mini_dict (media_type : string) (s : media)
    (child_dict : gmap Z doc) : doc :=
  Doc media_type (dbid s) (name s) (Some (nickname s)) (source s) child_dict.

(** [prepare_flat_export(self, db_dict, include_video_flag,
    include_channel_flag, include_playlist_flag)]; [fuel] bounds the depth
    of the recursion. *)
Fixpoint GenericContainer_prepare_flat_export (fuel : nat) (h : heap)
    (self : ref) (db_dict : gmap Z doc)
    (include_video_flag include_channel_flag include_playlist_flag : bool)
    : result (gmap Z doc) :=
  match fuel with
  | O => Raise OutOfFuel
  | S fuel' =>
      s ← deref h self;
      let rec := λ child_obj db_dict,
        GenericContainer_prepare_flat_export fuel' h child_obj db_dict
          include_video_flag include_channel_flag include_playlist_flag in
      let remote := λ media_type : string,
        r ← flat_remote_loop rec h include_video_flag (child_list s) ∅ db_dict;
        Ok (<[dbid s := container_mini_dict media_type s r.1]> r.2) in
      match cls s with
      | Video => Ok db_dict
      | Channel =>
          if negb include_channel_flag then Ok db_dict else remote "channel"
      | Playlist =>
          if negb include_playlist_flag then Ok db_dict else remote "playlist"
      | Folder =>
          if fixed_flag s then Ok db_dict
          else flat_folder_loop rec h (child_list s) db_dict
      end
  end.

(** ** Notions used in the statements *)

(** *** Directories *)

(** [ancestors h o names]: following [parent_obj] from [o] reaches an object
    without parent, and [names] are the names of the objects passed, the
    outermost first. *)
Inductive ancestors (h : heap) : media → list string → Prop :=
| ancestors_root o :
    parent_obj o = None → ancestors h o []
| ancestors_step o p po names :
    parent_obj o = Some p → h !! p = Some po → ancestors h po names →
    ancestors h o (names ++ [name po]).

(** *** The strata of a folder's children *)

(** The three strata of a folder's children: folders, then channels and
    playlists, then videos. *)
Definition stratum (o : media) : nat :=
  match cls o with
  | Folder => 0
  | Channel | Playlist => 1
  | Video => 2
  end.

(** The stratum of the object at a reference. *)
Definition stratum_at (h : heap) (r : ref) : nat :=
  match h !! r with
  | Some o => stratum o
  | None => 0
  end.

(** *** The aggregate counters *)

(** Whether the object at [r] is a [Video] that satisfies [p]. *)
Definition is_video_with (h : heap) (p : media → bool) (r : ref) : bool :=
  match h !! r with
  | Some o => isinstance o Video && p o
  | None => false
  end.

(** The number of direct [Video] children in [l] that satisfy [p]. *)
Fixpoint count_videos (h : heap) (p : media → bool) (l : list ref) : Z :=
  match l with
  | [] => 0
  | r :: l' => (if is_video_with h p r then 1 else 0) + count_videos h p l'
  end.

(** Each of the six counters of [s] is the number of its direct [Video]
    children with the flag the counter is for. *)
Definition counters_ok (h : heap) (s : media) : Prop :=
  vid_count s = count_videos h (λ _, true) (child_list s)
  ∧ bookmark_count s = count_videos h bookmark_flag (child_list s)
  ∧ dl_count s = count_videos h dl_flag (child_list s)
  ∧ fav_count s = count_videos h fav_flag (child_list s)
  ∧ new_count s = count_videos h new_flag (child_list s)
  ∧ waiting_count s = count_videos h waiting_flag (child_list s).

(** The operations of claim C1 on the container [self]: constructing a new
    [Video] with [self] as its parent, and [self.del_child(child_obj)]. *)
Inductive op :=
| AddVideo (d : Z) (n : string) (no_sort_flag : bool)
| DelChild (child_obj : ref).

Definition step (h : heap) (self : ref) (o : op) : result heap :=
  match o with
  | AddVideo d n no_sort_flag =>
      r ← Video_init h d n self no_sort_flag; Ok r.2
  | DelChild child_obj =>
      r ← del_child h self child_obj; Ok r.2
  end.

Fixpoint run (h : heap) (self : ref) (ops : list op) : result heap :=
  match ops with
  | [] => Ok h
  | o :: ops' => h' ← step h self o; run h' self ops'
  end.

(** The object at [r] is a [Video] without upload time, as a video is
    after its construction. *)
Definition untimed_video (h : heap) (r : ref) : Prop :=
  ∃ v, h !! r = Some v ∧ cls v = Video ∧ upload_time v = None.

(** The children of [s] are objects in the store and, for a channel or
    playlist, videos without upload time: no comparison made when the
    child list is sorted can fail. *)
Definition sortable (h : heap) (s : media) : Prop :=
  Forall (λ r, is_Some (h !! r)) (child_list s)
  ∧ (cls s ≠ Folder → Forall (untimed_video h) (child_list s)).

(** *** Name normalisation, as the specification words it *)

(** Every run of characters of the class [p] becomes a single space: a
    character of the class is dropped when the run goes on after it, and is
    replaced by a space when it ends the run. *)
Fixpoint collapse_runs (p : ascii → bool) (s : string) : string :=
  match s with
  | EmptyString => EmptyString
  | String c s' =>
      if p c then
        match s' with
        | String c' _ =>
            if p c' then collapse_runs p s'
            else String " " (collapse_runs p s')
        | EmptyString => " "
        end
      else String c (collapse_runs p s')
  end.

(** Characters of the class [p] at the end of the string are removed. *)
Fixpoint strip_right (p : ascii → bool) (s : string) : string :=
  match s with
  | EmptyString => EmptyString
  | String c s' =>
      match strip_right p s' with
      | EmptyString => if p c then EmptyString else String c EmptyString
      | t => String c t
      end
  end.

(** Runs of non-word characters become a single space, runs of underscores
    and whitespace collapse to a single space, whitespace at the start and
    at the end is trimmed. *)
Definition normalise_name (s : string) : string :=
  strip_right is_space
    (str_drop_while is_space
       (collapse_runs is_underline_or_space (collapse_runs is_nonword s))).

(** [r] is the first direct child of [s], in the order of the child list,
    that is a [Video] whose normalised name is [wanted]. *)
Definition first_matching_child (h : heap) (s : media) (wanted : string)
    (r : ref) : Prop :=
  ∃ i v,
    child_list s !! i = Some r
    ∧ h !! r = Some v
    ∧ cls v = Video
    ∧ normalise_name (name v) = wanted
    ∧ ∀ j r' v',
        (j < i)%nat → child_list s !! j = Some r' → h !! r' = Some v' →
        ¬ (cls v' = Video ∧ normalise_name (name v') = wanted).

(** No direct child of [s] is a [Video] whose normalised name is
    [wanted]. *)
Definition no_matching_child (h : heap) (s : media) (wanted : string) : Prop :=
  ∀ r v,
    r ∈ child_list s → h !! r = Some v →
    ¬ (cls v = Video ∧ normalise_name (name v) = wanted).

(** *** Flat export *)

(** The object passes the test at the head of [prepare_flat_export]: a
    channel or playlist whose kind is included, or a folder that is not
    fixed. *)
Definition passes_filter (include_channel_flag include_playlist_flag : bool)
    (o : media) : bool :=
  match cls o with
  | Video => false
  | Channel => include_channel_flag
  | Playlist => include_playlist_flag
  | Folder => negb (fixed_flag o)
  end.

(** The object is a channel or playlist whose kind is included. *)
Definition exported (include_channel_flag include_playlist_flag : bool)
    (o : media) : bool :=
  match cls o with
  | Channel => include_channel_flag
  | Playlist => include_playlist_flag
  | _ => false
  end.

(** [reached h ic ip r c]: [c] is [r], or a child that is no video of an
    object that is reached from [r] and passes the filter; these are the
    objects on which the export of [r] calls itself. *)
Inductive reached (h : heap) (ic ip : bool) : ref → ref → Prop :=
| reached_here r : reached h ic ip r r
| reached_below r o d od c :
    h !! r = Some o → passes_filter ic ip o = true →
    d ∈ child_list o → h !! d = Some od → cls od ≠ Video →
    reached h ic ip d c →
    reached h ic ip r c.

(** The documents of the videos among the children [l], added to
    [child_dict]: those with a known source, when videos are included. *)
Definition video_dict (h : heap) (include_video_flag : bool) (l : list ref)
    (child_dict : gmap Z doc) : gmap Z doc :=
  fold_left
    (λ cd r,
       match h !! r with
       | Some c =>
           if isinstance c Video && include_video_flag
              && bool_decide (source c ≠ None)
           then <[dbid c := video_mini_dict c]> cd
           else cd
       | None => cd
       end)
    l child_dict.

(** The document of a channel or playlist: its own fields, and the
    documents of its videos. *)
Definition flat_doc (h : heap) (include_video_flag : bool) (o : media) : doc :=
  container_mini_dict
    (if isinstance o Channel then "channel" else "playlist") o
    (video_dict h include_video_flag (child_list o) ∅).

(** Every object below [r] is in the store, and no path of children from
    [r] is [n] or more steps long. *)
Fixpoint bounded (n : nat) (h : heap) (r : ref) : bool :=
  match n with
  | O => false
  | S n' =>
      match h !! r with
      | Some o => forallb (bounded n' h) (child_list o)
      | None => false
      end
  end.

(** No two objects of the store have the same id. *)
Definition unique_dbid (h : heap) : Prop :=
  NoDup ((λ ro : ref * media, dbid ro.2) <$> map_to_list h).

(** [written h iv ic ip W db db']: going from [db] to [db'], the entries
    that changed are the documents of exported channels and playlists among
    the objects [W], each under its id, and every exported channel or
    playlist among [W] has its document in [db']. *)
Definition written (h : heap) (iv ic ip : bool) (W : ref → Prop)
    (db db' : gmap Z doc) : Prop :=
  (∀ k, db' !! k = db !! k
        ∨ ∃ c o, W c ∧ h !! c = Some o ∧ exported ic ip o = true
                 ∧ k = dbid o ∧ db' !! k = Some (flat_doc h iv o))
  ∧ (∀ c o, W c → h !! c = Some o → exported ic ip o = true →
            db' !! dbid o = Some (flat_doc h iv o)).

(** ** Example objects *)

(** A POSIX [os.path.join], with [abspath] on paths that are absolute and
    normal already. *)
Definition posix_join (a : string) (p : list string) : string :=
  fold_left
    (λ path b,
       if String.prefix "/" b then b
       else if String.eqb path "" || String.eqb (slice_to (-1) path +:+ "/") path
            then path +:+ b
            else path +:+ "/" +:+ b)
    p a.

Definition posix_path : OsPath :=
  {| os_path_join := posix_join; os_path_abspath := λ p, p |}.

(** A video as its constructor leaves it, with times, index, source and
    flags set afterwards. *)
Definition a_video (d : Z) (n : string) (parent : ref)
    (up recv idx : option Z) (src : option string) : media :=
  Media Video (Some parent) d n n src
    false false false false false up recv idx
    [] d [] 0 0 0 0 0 0 false false.

(** A container as its constructor leaves it, with children added. *)
Definition a_container (c : media_class) (d : Z) (n : string)
    (parent : option ref) (children : list ref) (vc : Z) : media :=
  with_vid_count vc
    (with_child_list children (new_container c d n parent false false)).

(** A channel at reference 1 whose only child is the video at 2. *)
Definition readd_heap : heap :=
  <[2%positive := new_video 11 "a" 1%positive]>
    (<[1%positive := a_container Channel 10 "chan" None [2%positive] 1]> ∅).

(** The same with a folder in the place of the channel. *)
Definition readd_folder_heap : heap :=
  <[2%positive := new_video 11 "a" 1%positive]>
    (<[1%positive := a_container Folder 10 "dir" None [2%positive] 1]> ∅).

(** A channel at 1 with two videos uploaded at the same time, the first of
    which has no receive time. *)
Definition same_upload_heap : heap :=
  <[3%positive := a_video 12 "b" 1%positive (Some 100) (Some 7) None None]>
    (<[2%positive := a_video 11 "a" 1%positive (Some 100) None None None]>
       (<[1%positive :=
            a_container Channel 10 "chan" None [2%positive; 3%positive] 2]>
          ∅)).

(** A folder at 1 whose children are, in this order, a video (2), a channel
    (3), a folder (4) and a playlist (5). *)
Definition strata_heap : heap :=
  <[5%positive := new_container Playlist 15 "a list" (Some 1%positive)
                    false false]>
  (<[4%positive := new_container Folder 14 "zoo" (Some 1%positive)
                     false false]>
  (<[3%positive := new_container Channel 13 "Box" (Some 1%positive)
                     false false]>
  (<[2%positive := a_video 12 "Aardvark" 1%positive (Some 100) (Some 7) None
                     None]>
  (<[1%positive := a_container Folder 11 "top" None
                     [2%positive; 3%positive; 4%positive; 5%positive] 1]>
     ∅)))).

(** A folder at 1 that holds a bookmarked and downloaded video (2) and a
    channel (3), with the counters that go with them. *)
Definition counted_folder : media :=
  with_counts 1 1 1 0 0 0
    (with_child_list [2%positive; 3%positive]
       (new_container Folder 10 "top" None false false)).

Definition counted_heap : heap :=
  <[3%positive := new_container Channel 13 "chan" (Some 1%positive)
                    false false]>
  (<[2%positive := Media Video (Some 1%positive) 12 "seen" "seen" None
                     true true false false false None None None
                     [] 12 [] 0 0 0 0 0 0 false false]>
  (<[1%positive := counted_folder]> ∅)).

(** A channel at 1 with one video at 2, named "old". *)
Definition rename_heap : heap :=
  <[2%positive := new_video 11 "old" 1%positive]>
    (<[1%positive := a_container Channel 10 "chan" None [2%positive] 1]> ∅).

(** A channel with id 10 at 1, not aliased, and a registry that knows id 10
    only. *)
Definition alias_heap : heap :=
  <[1%positive := new_container Channel 10 "chan" None false false]> ∅.

Definition alias_app : app :=
  App {[ 10 := 1%positive ]} "/downloads" "exact_match" 0 0.

(** A channel with id 10 at 1 that is aliased to the unregistered id 55,
    and a folder with id 20 at 2. *)
Definition aliased_channel : media :=
  with_master_dbid 55 (new_container Channel 10 "chan" None false false).

Definition aliased_heap : heap :=
  <[2%positive := new_container Folder 20 "dir" None false false]>
    (<[1%positive := aliased_channel]> ∅).

Definition aliased_app : app :=
  App (<[20 := 2%positive]> {[ 10 := 1%positive ]})
    "/downloads" "exact_match" 0 0.

(** A folder "Music" (id 1) holding the channels "A" (id 2) and "B" (id 3),
    and a channel "C" (id 4) outside it.  "A" is aliased to "B", and "B" is
    itself aliased to "C".  Every object is stored at the reference that is
    its id. *)
Definition dirs_heap : heap :=
  <[4%positive := new_container Channel 4 "C" None false false]>
  (<[3%positive := with_master_dbid 4
                     (new_container Channel 3 "B" (Some 1%positive)
                        false false)]>
  (<[2%positive := with_master_dbid 3
                     (new_container Channel 2 "A" (Some 1%positive)
                        false false)]>
  (<[1%positive := a_container Folder 1 "Music" None
                     [2%positive; 3%positive] 0]> ∅))).

Definition dirs_app : app :=
  App (<[4 := 4%positive]> (<[3 := 3%positive]>
        (<[2 := 2%positive]> {[ 1 := 1%positive ]})))
    "/downloads" "exact_match" 0 0.

(** A channel at 1 with the videos "FooBar" (2), "Foo Bar Baz" (3),
    "Foo Bar" (4) and "foo bar" (5), in this order. *)
Definition names_heap : heap :=
  <[5%positive := new_video 15 "foo bar" 1%positive]>
  (<[4%positive := new_video 14 "Foo Bar" 1%positive]>
  (<[3%positive := new_video 13 "Foo Bar Baz" 1%positive]>
  (<[2%positive := new_video 12 "FooBar" 1%positive]>
  (<[1%positive := a_container Channel 11 "chan" None
                     [2%positive; 3%positive; 4%positive; 5%positive] 4]>
     ∅)))).

Definition exact_app : app := App ∅ "/downloads" "exact_match" 10 5.

(** A folder "Root" (id 1) at 1 that holds a video with a known source
    (id 2) and a channel "C1" (id 3); the channel holds a video with a
    known source (id 4) and one without (id 5). *)
Definition export_heap : heap :=
  <[5%positive := a_video 5 "e" 3%positive None None None None]>
  (<[4%positive := a_video 4 "d" 3%positive (Some 200) None None
                     (Some "http://tube/d")]>
  (<[3%positive := a_container Channel 3 "C1" (Some 1%positive)
                     [4%positive; 5%positive] 2]>
  (<[2%positive := a_video 2 "b" 1%positive (Some 100) None None
                     (Some "http://tube/b")]>
  (<[1%positive := a_container Folder 1 "Root" None
                     [2%positive; 3%positive] 1]> ∅)))).


(** ** Further methods of media.py *)

(** *** class GenericMedia *)

(** [get_type(self)] *)
Definition GenericMedia_get_type (o : media) : string :=
  if isinstance o Channel then "channel"
  else if isinstance o Playlist then "playlist"
  else if isinstance o Folder then "folder"
  else "video".

(** [set_nickname(self, nickname)] *)
Definition GenericMedia_set_nickname (h : heap) (self : ref)
    (nick : option string) : result heap :=
  s ← deref h self;
  match nick with
  | None => Ok (<[self := with_nickname (name s) s]> h)
  | Some n =>
      if String.eqb n "" then Ok (<[self := with_nickname (name s) s]> h)
      else Ok (<[self := with_nickname n s]> h)
  end.

(** *** class GenericContainer: counters *)

(** The body of the loop of [recalculate_counts] for the children [l]. *)
Fixpoint recalculate_loop (h : heap) (self : ref) (l : list ref)
    : result heap :=
  match l with
  | [] => Ok h
  | child_obj :: l' =>
      c ← deref h child_obj;
      if isinstance c Video then
        s ← deref h self;
        let s' :=
          with_counts
            (vid_count s + 1)
            (if bookmark_flag c then bookmark_count s + 1 else bookmark_count s)
            (if dl_flag c then dl_count s + 1 else dl_count s)
            (if fav_flag c then fav_count s + 1 else fav_count s)
            (if new_flag c then new_count s + 1 else new_count s)
            (if waiting_flag c then waiting_count s + 1 else waiting_count s)
            s in
        recalculate_loop (<[self := s']> h) self l'
      else recalculate_loop h self l'
  end.

(** [recalculate_counts(self)] *)
Definition GenericContainer_recalculate_counts (h : heap) (self : ref)
    : result heap :=
  s ← deref h self;
  recalculate_loop (<[self := with_counts 0 0 0 0 0 0 s]> h) self
    (child_list s).

(** *** class GenericContainer: the tree *)

(** [get_depth(self)]: the loop [while parent_obj is not None], then the
    method. *)
Fixpoint depth_loop (fuel : nat) (h : heap) (parent : option ref) (level : Z)
    : result Z :=
  match fuel with
  | O => Raise OutOfFuel
  | S fuel' =>
      match parent with
      | None => Ok level
      | Some p => o ← deref h p; depth_loop fuel' h (parent_obj o) (level + 1)
      end
  end.

Definition GenericContainer_get_depth (fuel : nat) (h : heap) (self : ref)
    : result Z :=
  s ← deref h self;
  match parent_obj s with
  | None => Ok 1
  | Some _ => depth_loop fuel h (parent_obj s) 1
  end.

(** The loop of [compile_all_videos] over the children; [rec] is the
    recursive call. *)
Fixpoint videos_loop (rec : ref → list ref → result (list ref)) (h : heap)
    (l : list ref) (video_list : list ref) : result (list ref) :=
  match l with
  | [] => Ok video_list
  | child_obj :: l' =>
      c ← deref h child_obj;
      if isinstance c Video then videos_loop rec h l' (video_list ++ [child_obj])
      else video_list' ← rec child_obj video_list;
           videos_loop rec h l' video_list'
  end.

(** [compile_all_videos(self, video_list)] *)
Fixpoint GenericContainer_compile_all_videos (fuel : nat) (h : heap)
    (self : ref) (video_list : list ref) : result (list ref) :=
  match fuel with
  | O => Raise OutOfFuel
  | S fuel' =>
      s ← deref h self;
      videos_loop (GenericContainer_compile_all_videos fuel' h) h
        (child_list s) video_list
  end.

(** The loop of [compile_all_containers]. *)
Fixpoint containers_loop (rec : ref → list ref → result (list ref))
    (h : heap) (l : list ref) (container_list : list ref)
    : result (list ref) :=
  match l with
  | [] => Ok container_list
  | child_obj :: l' =>
      c ← deref h child_obj;
      if negb (isinstance c Video) then
        container_list' ← rec child_obj container_list;
        containers_loop rec h l' container_list'
      else containers_loop rec h l' container_list
  end.

(** [compile_all_containers(self, container_list)] *)
Fixpoint GenericContainer_compile_all_containers (fuel : nat) (h : heap)
    (self : ref) (container_list : list ref) : result (list ref) :=
  match fuel with
  | O => Raise OutOfFuel
  | S fuel' =>
      s ← deref h self;
      containers_loop (GenericContainer_compile_all_containers fuel' h) h
        (child_list s) (container_list ++ [self])
  end.

(** The five items of [count_list]: the numbers of objects, videos,
    channels, playlists and folders counted so far. *)
Record census := Census {
  total_count : Z;
  video_count : Z;
  channel_count : Z;
  playlist_count : Z;
  folder_count : Z;
}.

(** The loop of [count_descendants]. *)
Fixpoint count_loop (rec : ref → census → result census) (h : heap)
    (l : list ref) (count_list : census) : result census :=
  match l with
  | [] => Ok count_list
  | child_obj :: l' =>
      c ← deref h child_obj;
      let n := count_list in
      let n := Census (total_count n + 1) (video_count n) (channel_count n)
                 (playlist_count n) (folder_count n) in
      if isinstance c Video then
        count_loop rec h l'
          (Census (total_count n) (video_count n + 1) (channel_count n)
             (playlist_count n) (folder_count n))
      else
        n ← rec child_obj n;
        count_loop rec h l'
          (if isinstance c Channel then
             Census (total_count n) (video_count n) (channel_count n + 1)
               (playlist_count n) (folder_count n)
           else if isinstance c Playlist then
             Census (total_count n) (video_count n) (channel_count n)
               (playlist_count n + 1) (folder_count n)
           else
             Census (total_count n) (video_count n) (channel_count n)
               (playlist_count n) (folder_count n + 1))
  end.

(** [count_descendants(self, count_list)] *)
Fixpoint GenericContainer_count_descendants (fuel : nat) (h : heap)
    (self : ref) (count_list : census) : result census :=
  match fuel with
  | O => Raise OutOfFuel
  | S fuel' =>
      s ← deref h self;
      count_loop (GenericContainer_count_descendants fuel' h) h
        (child_list s) count_list
  end.

(** *** GenericContainer.prepare_export *)

(** The loop over the children; [rec] is the recursive call, which returns
    a dictionary or [None]. *)
Fixpoint export_loop (rec : ref → result (option doc)) (h : heap)
    (include_video_flag : bool) (l : list ref) (db_dict : gmap Z doc)
    : result (gmap Z doc) :=
  match l with
  | [] => Ok db_dict
  | child_obj :: l' =>
      c ← deref h child_obj;
      if isinstance c Video then
        if include_video_flag && bool_decide (source c ≠ None) then
          export_loop rec h include_video_flag l'
            (<[dbid c := video_mini_dict c]> db_dict)
        else export_loop rec h include_video_flag l' db_dict
      else
        mini_dict ← rec child_obj;
        match mini_dict with
        | Some d =>
            export_loop rec h include_video_flag l' (<[dbid c := d]> db_dict)
        | None => export_loop rec h include_video_flag l' db_dict
        end
  end.

(** [prepare_export(self, include_video_flag, include_channel_flag,
    include_playlist_flag)]; [Ok None] is Python's [None]. *)
Fixpoint GenericContainer_prepare_export (fuel : nat) (h : heap)
    (self : ref)
    (include_video_flag include_channel_flag include_playlist_flag : bool)
    : result (option doc) :=
  match fuel with
  | O => Raise OutOfFuel
  | S fuel' =>
      s ← deref h self;
      let rec := λ child_obj,
        GenericContainer_prepare_export fuel' h child_obj
          include_video_flag include_channel_flag include_playlist_flag in
      let body := λ (media_type : string) (src : option string),
        db_dict ← export_loop rec h include_video_flag (child_list s) ∅;
        Ok (Some (Doc media_type (dbid s) (name s) (Some (nickname s)) src
                    db_dict)) in
      match cls s with
      | Video => Ok None
      | Channel =>
          if negb include_channel_flag then Ok None
          else body "channel" (source s)
      | Playlist =>
          if negb include_playlist_flag then Ok None
          else body "playlist" (source s)
      | Folder =>
          if fixed_flag s then Ok None else body "folder" None
      end
  end.

(** *** class Video *)

(** [ancestor_is_favourite(self)]: the loop [while parent_obj], then the
    method. *)
Fixpoint favourite_loop (fuel : nat) (h : heap) (parent : option ref)
    : result bool :=
  match fuel with
  | O => Raise OutOfFuel
  | S fuel' =>
      match parent with
      | None => Ok false
      | Some p =>
          o ← deref h p;
          if fav_flag o then Ok true
          else favourite_loop fuel' h (parent_obj o)
      end
  end.

Definition Video_ancestor_is_favourite (fuel : nat) (h : heap) (self : ref)
    : result bool :=
  s ← deref h self;
  favourite_loop fuel h (parent_obj s).

(** *** class Folder *)

Fixpoint duplicate_loop (h : heap) (src : string) (l : list ref)
    : result bool :=
  match l with
  | [] => Ok false
  | child_obj :: l' =>
      c ← deref h child_obj;
      if isinstance c Video && bool_decide (source c ≠ None)
         && bool_decide (source c = Some src)
      then Ok true
      else duplicate_loop h src l'
  end.

(** [check_duplicate_video(self, source)] *)
Definition Folder_check_duplicate_video (h : heap) (self : ref)
    (src : string) : result bool :=
  s ← deref h self;
  duplicate_loop h src (child_list s).


(** ** Notions used in the statements about the further methods *)

(** [lineage h o l]: following [parent_obj] from [o] reaches an object
    without parent, and [l] are the objects passed, the nearest first. *)
Inductive lineage (h : heap) : media → list media → Prop :=
| lineage_root o :
    parent_obj o = None → lineage h o []
| lineage_step o p po l :
    parent_obj o = Some p → h !! p = Some po → lineage h po l →
    lineage h o (po :: l).

(** Whether the object at [r] is of class [c]. *)
Definition is_class (h : heap) (c : media_class) (r : ref) : bool :=
  match h !! r with
  | Some o => isinstance o c
  | None => false
  end.

(** The number of objects of class [c] in [l]. *)
Fixpoint count_class (h : heap) (c : media_class) (l : list ref) : Z :=
  match l with
  | [] => 0
  | r :: l' => (if is_class h c r then 1 else 0) + count_class h c l'
  end.

(** [descendant h r c]: [c] is a child of [r], or of a container below
    [r]. *)
Inductive descendant (h : heap) : ref → ref → Prop :=
| descendant_child r o c :
    h !! r = Some o → c ∈ child_list o → descendant h r c
| descendant_below r o d od c :
    h !! r = Some o → d ∈ child_list o → h !! d = Some od →
    cls od ≠ Video → descendant h d c →
    descendant h r c.

(** A family tree of three levels: the folder "Top" (1, a favourite) holds
    the folder "Mid" (2), which holds the channel "Chan" (3) and the
    playlist "List" (4); the channel holds the videos 5 and 6, the playlist
    the video 7. *)
Definition tree_heap : heap :=
  <[7%positive := a_video 7 "g" 4%positive None None (Some 1) None]>
  (<[6%positive := a_video 6 "f" 3%positive None None None None]>
  (<[5%positive := a_video 5 "e" 3%positive None None None None]>
  (<[4%positive := a_container Playlist 4 "List" (Some 2%positive)
                     [7%positive] 1]>
  (<[3%positive := a_container Channel 3 "Chan" (Some 2%positive)
                     [5%positive; 6%positive] 2]>
  (<[2%positive := a_container Folder 2 "Mid" (Some 1%positive)
                     [3%positive; 4%positive] 0]>
  (<[1%positive := Media Folder None 1 "Top" "Top" None
                     false false true false false None None None
                     [2%positive] 1 [] 0 0 0 0 0 0 false false]> ∅)))))).


(** The object at [r] is a [Video]; it is a container. *)
Definition is_video (h : heap) (r : ref) : Prop :=
  ∃ o, h !! r = Some o ∧ cls o = Video.

Definition is_container (h : heap) (r : ref) : Prop :=
  ∃ o, h !! r = Some o ∧ cls o ≠ Video.

(** [below h l c]: [c] is one of [l], or a descendant of a container among
    [l]. *)
Definition below (h : heap) (l : list ref) (c : ref) : Prop :=
  ∃ d, d ∈ l ∧ (c = d ∨ (is_container h d ∧ descendant h d c)).

(** The census [n] after the videos [vs] and the containers [cs] have been
    counted. *)
Definition census_plus (h : heap) (n : census) (vs cs : list ref) : census :=
  Census (total_count n + Z.of_nat (length vs) + Z.of_nat (length cs))
    (video_count n + Z.of_nat (length vs))
    (channel_count n + count_class h Channel cs)
    (playlist_count n + count_class h Playlist cs)
    (folder_count n + count_class h Folder cs).

(** The number of videos that the objects [l] hold as direct children, and
    the sum of their [vid_count]s. *)
Fixpoint videos_held (h : heap) (l : list ref) : Z :=
  match l with
  | [] => 0
  | c :: l' =>
      match h !! c with
      | Some o => count_videos h (λ _, true) (child_list o)
      | None => 0
      end + videos_held h l'
  end.

Fixpoint vid_count_sum (h : heap) (l : list ref) : Z :=
  match l with
  | [] => 0
  | c :: l' =>
      match h !! c with
      | Some o => vid_count o
      | None => 0
      end + vid_count_sum h l'
  end.

(** What the three traversals do below [d], given the videos [vs] and the
    containers [cs] below it in the order of the traversal. *)
Definition traversal_spec (h : heap)
    (recv recc : ref → list ref → result (list ref))
    (recn : ref → census → result census)
    (d : ref) (vs cs : list ref) : Prop :=
  (∀ vl0, recv d vl0 = Ok (vl0 ++ vs))
  ∧ (∀ cl0, recc d cl0 = Ok (cl0 ++ d :: cs))
  ∧ (∀ n0, recn d n0 = Ok (census_plus h n0 vs cs))
  ∧ (∀ v, v ∈ vs ↔ descendant h d v ∧ is_video h v)
  ∧ (∀ c, c ∈ cs ↔ descendant h d c ∧ is_container h c)
  ∧ Z.of_nat (length vs) = videos_held h (d :: cs).


(** A channel with id 10 at 1 and a folder with id 20 at 2, neither of them
    aliased; [aliased_app] registers both. *)
Definition pair_heap : heap :=
  <[2%positive := new_container Folder 20 "dir" None false false]>
    (<[1%positive := new_container Channel 10 "chan" None false false]> ∅).


(** [settled lt rp]: in the reversed list [rp] no item is smaller than the
    item before it, so that a pass of the sort leaves the list alone. *)
Fixpoint settled {A} (lt : A → A → result bool) (rp : list A) : Prop :=
  match rp with
  | [] => True
  | x :: rp' =>
      match rp' with
      | [] => True
      | p :: _ => lt x p = Ok false
      end ∧ settled lt rp'
  end.


(** A playlist at 1 whose videos 2, 3 and 4 have the indices 3, 1 and 2. *)
Definition playlist_heap : heap :=
  <[4%positive := a_video 14 "c" 1%positive None None (Some 2) None]>
  (<[3%positive := a_video 13 "b" 1%positive None None (Some 1) None]>
  (<[2%positive := a_video 12 "a" 1%positive None None (Some 3) None]>
  (<[1%positive := a_container Playlist 11 "list" None
                     [2%positive; 3%positive; 4%positive] 3]> ∅))).

(** A channel at 1 whose videos 2, 3 and 4 were uploaded at the times 100,
    200 and 100 and received at the times 5, 1 and 2. *)
Definition channel_heap : heap :=
  <[4%positive := a_video 14 "c" 1%positive (Some 100) (Some 2) None None]>
  (<[3%positive := a_video 13 "b" 1%positive (Some 200) (Some 1) None None]>
  (<[2%positive := a_video 12 "a" 1%positive (Some 100) (Some 5) None None]>
  (<[1%positive := a_container Channel 11 "chan" None
                     [2%positive; 3%positive; 4%positive] 3]> ∅))).


(** In a document of the nested export, every entry of every [db_dict] is
    stored under the id of the document that it holds. *)
Inductive well_keyed : doc → Prop :=
| well_keyed_doc t d n nick src (db_dict : gmap Z doc) :
    (∀ k x, db_dict !! k = Some x → doc_dbid x = k ∧ well_keyed x) →
    well_keyed (Doc t d n nick src db_dict).


(** Neither the document nor any document below it is that of a video. *)
Inductive video_free : doc → Prop :=
| video_free_doc t d n nick src (db_dict : gmap Z doc) :
    t ≠ "video" →
    (∀ k x, db_dict !! k = Some x → video_free x) →
    video_free (Doc t d n nick src db_dict).


(** [r] is the first direct child of [s], in the order of the child list,
    that is a [Video] with the property [P]; no direct child of [s] is
    one. *)
Definition first_video_with (h : heap) (s : media) (P : media → Prop)
    (r : ref) : Prop :=
  ∃ i v,
    child_list s !! i = Some r
    ∧ h !! r = Some v
    ∧ cls v = Video
    ∧ P v
    ∧ ∀ j r' v',
        (j < i)%nat → child_list s !! j = Some r' → h !! r' = Some v' →
        ¬ (cls v' = Video ∧ P v').

Definition no_video_with (h : heap) (s : media) (P : media → Prop) : Prop :=
  ∀ r v, r ∈ child_list s → h !! r = Some v → ¬ (cls v = Video ∧ P v).

(** The strings [a] and [b] have the same characters at the first [n]
    positions, where a string that ends earlier has none. *)
Definition same_start (n : nat) (a b : string) : Prop :=
  ∀ i, (i < n)%nat → String.get i a = String.get i b.

(** The strings [a] and [b] are the same once the last [k] characters of
    each are taken off, or all its characters if it has fewer. *)
Definition same_stem (k : nat) (a b : string) : Prop :=
  ∃ p x y,
    a = p +:+ x ∧ b = p +:+ y
    ∧ String.length x = Nat.min k (String.length a)
    ∧ String.length y = Nat.min k (String.length b).

(** The policies "match_first" with 7 characters and "ignore_last" with 4
    and with no characters. *)
Definition first_app : app := App ∅ "/downloads" "match_first" 7 5.
Definition ignore_app : app := App ∅ "/downloads" "ignore_last" 10 4.
Definition ignore_none_app : app := App ∅ "/downloads" "ignore_last" 10 0.


(** ** The store that a failing call leaves *)

(** A call ends by returning or by raising an exception, and either way it
    leaves a store behind.  [result] forgets the store of a call that
    raises; [outcome] keeps it, for the statements about what a call has
    done already when it fails. *)
Inductive outcome :=
| Returned (h : heap)
| Raised (e : exn) (h : heap).

Definition forget (o : outcome) : result heap :=
  match o with
  | Returned h => Ok h
  | Raised e _ => Raise e
  end.

(** A step that only reads the store [h]: when it raises, the store is as
    it was. *)
Definition reading {A} (h : heap) (r : result A) (k : A → outcome)
    : outcome :=
  match r with
  | Ok a => k a
  | Raise e => Raised e h
  end.

(** A call, then what follows it. *)
Definition after (o : outcome) (k : heap → outcome) : outcome :=
  match o with
  | Returned h => k h
  | Raised e h => Raised e h
  end.

(** [GenericRemoteContainer.sort_children(self)].  The method sorts a copy
    of the child list first, so a comparison that fails there leaves the
    child list as it was.  A comparison that fails in the last, in-place
    sort leaves the items in an order that Python does not specify; here
    it is the order of the copy. *)
Definition GenericRemoteContainer_sort_children_outcome (h : heap)
    (self : ref) : outcome :=
  reading h (deref h self) (λ s,
  reading h (list_sort (on_refs h (GenericRemoteContainer_do_sort s))
               (child_list s)) (λ copy_list,
  reading (<[self := with_child_list copy_list s]> h)
    (list_sort (on_refs h (GenericRemoteContainer_do_sort s)) copy_list)
    (λ child_list',
  Returned (<[self := with_child_list child_list' s]> h)))).

(** [GenericRemoteContainer.add_child(self, child_obj, no_sort_flag)]: the
    child is appended before the list is sorted, and counted after. *)
Definition GenericRemoteContainer_add_child_outcome (h : heap)
    (self child_obj : ref) (no_sort_flag : bool) : outcome :=
  reading h (deref h self) (λ s,
  reading h (deref h child_obj) (λ c,
  if isinstance c Video || bool_decide (child_obj ∈ child_list s) then
    let h1 := <[self := with_child_list (child_list s ++ [child_obj]) s]> h in
    after (if negb no_sort_flag
           then GenericRemoteContainer_sort_children_outcome h1 self
           else Returned h1) (λ h2,
    reading h2 (deref h2 child_obj) (λ c2,
    if isinstance c2 Video then
      reading h2 (deref h2 self) (λ s2,
      Returned (<[self := with_vid_count (vid_count s2 + 1) s2]> h2))
    else Returned h2))
  else Returned h)).

(** [Folder.sort_children(self)] and [Folder.add_child(self, child_obj,
    no_sort_flag)]. *)
Definition Folder_sort_children_outcome (h : heap) (self : ref) : outcome :=
  reading h (deref h self) (λ s,
  reading h (list_sort
               (on_refs h (λ o1 o2, Ok (Some (Folder_do_sort s o1 o2))))
               (child_list s)) (λ copy_list,
  Returned (<[self := with_child_list copy_list s]> h))).

Definition Folder_add_child_outcome (h : heap) (self child_obj : ref)
    (no_sort_flag : bool) : outcome :=
  reading h (deref h self) (λ s,
  if negb (bool_decide (child_obj ∈ child_list s)) then
    let h1 := <[self := with_child_list (child_list s ++ [child_obj]) s]> h in
    after (if negb no_sort_flag then Folder_sort_children_outcome h1 self
           else Returned h1) (λ h2,
    reading h2 (deref h2 child_obj) (λ c,
    if isinstance c Video then
      reading h2 (deref h2 self) (λ s2,
      Returned (<[self := with_vid_count (vid_count s2 + 1) s2]> h2))
    else Returned h2))
  else Returned h).

(** [obj.add_child(child_obj, no_sort_flag)] *)
Definition add_child_outcome (h : heap) (obj child_obj : ref)
    (no_sort_flag : bool) : outcome :=
  reading h (deref h obj) (λ o,
  match cls o with
  | Video => Raised AttributeError h
  | Channel | Playlist =>
      GenericRemoteContainer_add_child_outcome h obj child_obj no_sort_flag
  | Folder => Folder_add_child_outcome h obj child_obj no_sort_flag
  end).

(** [Video(dbid, name, parent_obj, options_obj, no_sort_flag)]: when the
    parent's [add_child] raises, the constructor raises, and the caller
    gets no object; the object made is in the store all the same, as the
    parent may list it already. *)
Definition Video_init_outcome (h : heap) (d : Z) (n : string) (parent : ref)
    (no_sort_flag : bool) : outcome :=
  let self := fresh (dom h) in
  let h1 := <[self := new_video d n parent]> h in
  add_child_outcome h1 parent self no_sort_flag.


(** A channel with id 10 at 1 whose master id 30 is registered to the
    video at 3. *)
Definition video_master_heap : heap :=
  <[3%positive := new_video 30 "v" 1%positive]>
    (<[1%positive :=
         with_master_dbid 30
           (new_container Channel 10 "chan" None false false)]> ∅).

Definition video_master_app : app :=
  App (<[30 := 3%positive]> {[ 10 := 1%positive ]})
    "/downloads" "exact_match" 0 0.


(** A channel with id 10 at 1 whose slave list is [5; 7]. *)
Definition listed_heap : heap :=
  <[1%positive :=
      with_slave_dbid_list [5; 7]
        (new_container Channel 10 "chan" None false false)]> ∅.


(** An object whose times [Folder.do_sort] can compare with those of any
    other: a video with an upload and a receive time, or a container. *)
Definition timed (o : media) : Prop :=
  cls o = Video → is_Some (upload_time o) ∧ is_Some (receive_time o).

(** * Verification *)

(** ** The object store *)

Lemma deref_Some (h : heap) r o : h !! r = Some o → deref h r = Ok o.
Proof. unfold deref. by intros ->. Qed.

Lemma deref_Ok (h : heap) r o : deref h r = Ok o → h !! r = Some o.
Proof. unfold deref. destruct (h !! r); naive_solver. Qed.

Lemma deref_insert_eq (h : heap) r o : deref (<[r := o]> h) r = Ok o.
Proof. unfold deref. by rewrite lookup_insert_eq. Qed.

Lemma deref_insert_ne (h : heap) r r' o :
  r ≠ r' → deref (<[r := o]> h) r' = deref h r'.
Proof. intros. unfold deref. by rewrite lookup_insert_ne. Qed.

Lemma isinstance_true o c : cls o = c → isinstance o c = true.
Proof. intros. unfold isinstance. by apply bool_decide_eq_true_2. Qed.

Lemma isinstance_false o c : cls o ≠ c → isinstance o c = false.
Proof. intros. unfold isinstance. by apply bool_decide_eq_false_2. Qed.

Lemma bind_Ok {A B} (m : result A) (f : A → result B) b :
  m ≫= f = Ok b → ∃ a, m = Ok a ∧ f a = Ok b.
Proof. destruct m; cbn; [eauto | discriminate]. Qed.

(** ** Re-adding a child to a channel or playlist (claim C2) *)

(** Without the sort: whenever the object handed to [add_child] is a
    [Video], it is appended and counted, whether or not it is a child
    already. *)
Lemma remote_add_child_video_no_sort h self child_obj s c :
  h !! self = Some s →
  h !! child_obj = Some c →
  self ≠ child_obj →
  cls c = Video →
  GenericRemoteContainer_add_child h self child_obj true =
    Ok (<[self := with_vid_count (vid_count s + 1)
                    (with_child_list (child_list s ++ [child_obj]) s)]> h).
Proof.
  intros Hs Hc Hne Hv.
  unfold GenericRemoteContainer_add_child.
  rewrite (deref_Some _ _ _ Hs), (deref_Some _ _ _ Hc). cbn.
  rewrite (isinstance_true _ _ Hv). cbn.
  rewrite (deref_insert_ne _ self child_obj) by done.
  rewrite (deref_Some _ _ _ Hc). cbn.
  rewrite (isinstance_true _ _ Hv), deref_insert_eq. cbn.
  by rewrite insert_insert_eq.
Qed.

(** C2, at the failing input: [add_child] on a channel, given the video that
    is already its only child, appends it a second time and counts it a
    second time, where the claim has the child list and [vid_count]
    unchanged; [Folder.add_child] on the same input changes nothing. *)
Theorem remote_add_child_readds_existing_child :
  (∃ h' s',
     GenericRemoteContainer_add_child readd_heap 1%positive 2%positive false
       = Ok h'
     ∧ h' !! 1%positive = Some s'
     ∧ child_list s' = [2%positive; 2%positive]
     ∧ vid_count s' = 2)
  ∧ Folder_add_child readd_folder_heap 1%positive 2%positive false
    = Ok readd_folder_heap.
Proof.
  split; [|vm_compute; reflexivity].
  eexists _, _. split; [vm_compute; reflexivity|].
  split; [vm_compute; reflexivity|]. split; reflexivity.
Qed.

(** ** The ordering function of channels and playlists (claim C3) *)

Lemma both_set_video f o1 o2 :
  cls o1 = Video → cls o2 = Video →
  both_set f o1 o2 =
    Ok (match f o1, f o2 with
        | Some x1, Some x2 => Some (x1, x2)
        | _, _ => None
        end).
Proof.
  intros H1 H2. unfold both_set, video_attr.
  rewrite (isinstance_true _ _ H1), (isinstance_true _ _ H2). cbn.
  by destruct (f o1), (f o2).
Qed.

(** On two videos with equal upload times of which one lacks a receive
    time, [do_sort] falls off its end, unless it is a playlist comparing
    indices. *)
Lemma remote_do_sort_None self o1 o2 u :
  cls o1 = Video → cls o2 = Video →
  (cls self = Playlist → index o1 = None ∨ index o2 = None) →
  upload_time o1 = Some u → upload_time o2 = Some u →
  receive_time o1 = None ∨ receive_time o2 = None →
  GenericRemoteContainer_do_sort self o1 o2 = Ok None.
Proof.
  intros H1 H2 Hi Hu1 Hu2 Hr.
  unfold GenericRemoteContainer_do_sort.
  rewrite !both_set_video by done. rewrite Hu1, Hu2.
  assert (Hgt : (u >? u) = false) by lia.
  assert (Hlt : (u <? u) = false) by lia.
  assert (Hrecv :
    match receive_time o1, receive_time o2 with
    | Some x1, Some x2 => Some (x1, x2)
    | _, _ => None
    end = None).
  { destruct Hr as [-> | ->]; [done|]. by destruct (receive_time o1). }
  assert (Hidx : (if isinstance self Playlist
                  then Ok match index o1, index o2 with
                          | Some x1, Some x2 => Some (x1, x2)
                          | _, _ => None
                          end
                  else Ok None) = @Ok (option (Z * Z)) None).
  { unfold isinstance. case_bool_decide as Hp; [|done].
    destruct (Hi Hp) as [-> | ->]; [done|]. by destruct (index o1). }
  rewrite Hidx. cbn. rewrite Hgt, Hlt. cbn. by rewrite Hrecv.
Qed.

(** C3, at the failing input: for two videos of a channel with the same
    upload time, one of them without a receive time, [do_sort] returns
    [None] in either order, and sorting the channel's children raises
    [TypeError]; the claim has [do_sort] return -1, 0 or 1 and the sort
    never fail.  [Folder.do_sort] returns 0 on the same pair. *)
Theorem remote_do_sort_not_total :
  ∃ chan v1 v2,
    same_upload_heap !! 1%positive = Some chan
    ∧ same_upload_heap !! 2%positive = Some v1
    ∧ same_upload_heap !! 3%positive = Some v2
    ∧ GenericRemoteContainer_do_sort chan v1 v2 = Ok None
    ∧ GenericRemoteContainer_do_sort chan v2 v1 = Ok None
    ∧ GenericRemoteContainer_sort_children same_upload_heap 1%positive
      = Raise TypeError
    ∧ Folder_do_sort (new_container Folder 9 "dir" None false false) v1 v2 = 0.
Proof.
  eexists _, _, _.
  repeat split; vm_compute; reflexivity.
Qed.

(** ** Renaming (claim C8) *)

(** C8 as stated fails for [Video]: renaming a video whose nickname equals
    its name leaves the nickname at the old name. *)
Lemma video_set_name_keeps_nickname :
  ∃ v h' v',
    rename_heap !! 2%positive = Some v
    ∧ cls v = Video
    ∧ nickname v = name v
    ∧ set_name rename_heap 2%positive "new" = Ok h'
    ∧ h' !! 2%positive = Some v'
    ∧ name v' = "new"
    ∧ nickname v' = "old".
Proof.
  eexists _, _, _. repeat split; vm_compute; reflexivity.
Qed.

(** C8, amended: [set_name] on a channel, playlist or folder sets the
    nickname to the new name exactly when the nickname equalled the old
    name, and leaves it unchanged otherwise; on a video it sets the name
    only and never changes the nickname. *)
Theorem set_name_nickname (h : heap) obj o n :
  h !! obj = Some o →
  ∃ o',
    set_name h obj n = Ok (<[obj := o']> h)
    ∧ name o' = n
    ∧ nickname o' =
        (if isinstance o Video then nickname o
         else if bool_decide (nickname o = name o) then n
         else nickname o).
Proof.
  intros Ho. unfold set_name. rewrite (deref_Some _ _ _ Ho). cbn.
  destruct (isinstance o Video).
  - unfold Video_set_name. rewrite (deref_Some _ _ _ Ho). cbn.
    by eexists.
  - unfold GenericContainer_set_name. rewrite (deref_Some _ _ _ Ho). cbn.
    eexists. split; [done|]. by case_bool_decide.
Qed.

Lemma set_name_nickname_witness :
  ∃ o',
    set_name rename_heap 1%positive "tube"
      = Ok (<[1%positive := o']> rename_heap)
    ∧ name o' = "tube" ∧ nickname o' = "tube".
Proof.
  destruct (set_name_nickname rename_heap 1%positive
              (a_container Channel 10 "chan" None [2%positive] 1) "tube")
    as (o' & H1 & H2 & H3); [reflexivity|].
  exists o'. split; [exact H1|]. split; [exact H2|exact H3].
Defined.

(** ** Slave lists *)

Lemma call_del_slave_dbid_Ok (h : heap) obj d o :
  h !! obj = Some o → cls o ≠ Video →
  ∃ h', call_del_slave_dbid h obj d = Ok h'.
Proof.
  intros Ho Hc. unfold call_del_slave_dbid, GenericContainer_del_slave_dbid.
  rewrite (deref_Some _ _ _ Ho). cbn.
  rewrite (isinstance_false _ _ Hc). cbn. eauto.
Qed.

(** Updating a slave list leaves every object in place, with its id. *)
Lemma call_del_slave_dbid_keeps (h h' : heap) obj d r o :
  call_del_slave_dbid h obj d = Ok h' →
  h !! r = Some o →
  ∃ o', h' !! r = Some o' ∧ dbid o' = dbid o.
Proof.
  unfold call_del_slave_dbid, GenericContainer_del_slave_dbid.
  intros Hcall Hr.
  apply bind_Ok in Hcall as (oo & Hoo & Hcall). apply deref_Ok in Hoo.
  destruct (isinstance oo Video); [discriminate|].
  rewrite (deref_Some _ _ _ Hoo) in Hcall. cbn in Hcall.
  injection Hcall as <-.
  destruct (decide (obj = r)) as [->|Hne].
  - rewrite lookup_insert_eq. eexists. split; [done|]. cbn. congruence.
  - rewrite lookup_insert_ne by done. eauto.
Qed.

(** ** Changing the download destination (claim C6) *)

(** C6 as stated fails: when the new master id is not registered,
    [set_master_dbid] raises [KeyError]. *)
Lemma set_master_dbid_unregistered_raises :
  media_reg_dict alias_app !! 99 = None
  ∧ GenericContainer_set_master_dbid alias_heap alias_app 1%positive 99
    = Raise KeyError.
Proof. split; vm_compute; reflexivity. Qed.

(** C6, amended: for a new master id that differs from the current one, if
    the node was aliased and its old master id is not registered, no old
    target is updated: the node's [master_dbid] is set and nothing else is
    done when the new id is the node's own, and otherwise the node's id is
    added to the slave list of the object registered under the new id.  A
    new master id that is neither the node's own id nor registered makes
    the call end in an exception, and it never returns: [KeyError] at the
    lookup of the new id when the node was not aliased, or its old master
    id is not registered, or is registered to a channel, playlist or
    folder; [AttributeError] before that lookup when the old master id is
    registered to a [Video], which has no [del_slave_dbid]. *)
Theorem set_master_dbid_lookup_miss (h : heap) app_obj self s d :
  h !! self = Some s →
  d ≠ master_dbid s →
  (master_dbid s ≠ dbid s →
   media_reg_dict app_obj !! master_dbid s = None →
     (d = dbid s →
      GenericContainer_set_master_dbid h app_obj self d
        = Ok (<[self := with_master_dbid d s]> h))
     ∧ (d ≠ dbid s → ∀ new_dest_obj,
        media_reg_dict app_obj !! d = Some new_dest_obj →
        GenericContainer_set_master_dbid h app_obj self d
          = call_add_slave_dbid (<[self := with_master_dbid d s]> h)
              new_dest_obj (dbid s)))
  ∧ (d ≠ dbid s →
     media_reg_dict app_obj !! d = None →
       (∀ h', GenericContainer_set_master_dbid h app_obj self d ≠ Ok h')
       ∧ (master_dbid s = dbid s
          ∨ media_reg_dict app_obj !! master_dbid s = None
          ∨ (∃ old_dest_obj o,
               media_reg_dict app_obj !! master_dbid s = Some old_dest_obj
               ∧ h !! old_dest_obj = Some o ∧ cls o ≠ Video) →
          GenericContainer_set_master_dbid h app_obj self d
            = Raise KeyError)
       ∧ (master_dbid s ≠ dbid s →
          ∀ old_dest_obj o,
            media_reg_dict app_obj !! master_dbid s = Some old_dest_obj →
            h !! old_dest_obj = Some o → cls o = Video →
            GenericContainer_set_master_dbid h app_obj self d
              = Raise AttributeError)).
Proof.
  intros Hs Hd. split.
  - intros Hal Hold. unfold GenericContainer_set_master_dbid.
    rewrite (deref_Some _ _ _ Hs). cbn.
    rewrite bool_decide_eq_false_2 by done.
    rewrite bool_decide_eq_true_2 by done. rewrite Hold. cbn.
    rewrite (deref_Some _ _ _ Hs). cbn. split.
    + intros ->. by rewrite bool_decide_eq_false_2 by naive_solver.
    + intros Hne new_dest_obj Hnew.
      rewrite bool_decide_eq_true_2 by done. by rewrite Hnew.
  - intros Hne Hnew.
    unfold GenericContainer_set_master_dbid.
    rewrite (deref_Some _ _ _ Hs). cbn.
    rewrite bool_decide_eq_false_2 by done.
    set (r := if bool_decide (master_dbid s ≠ dbid s) then _ else _).
    assert (Hr : ∀ h1, r = Ok h1 →
              ∃ s1, h1 !! self = Some s1 ∧ dbid s1 = dbid s).
    { intros h1. unfold r. case_bool_decide; [|naive_solver].
      destruct (media_reg_dict app_obj !! master_dbid s) as [old|];
        [|naive_solver].
      intros Hold. by apply (call_del_slave_dbid_keeps _ _ _ _ _ _ Hold). }
    match goal with |- context [mbind ?k r] => set (K := k) end.
    assert (Hstep : ∀ h1, r = Ok h1 → r ≫= K = Raise KeyError).
    { intros h1 Hok. rewrite Hok. unfold K. cbn.
      destruct (Hr _ Hok) as (s1 & Hs1 & Hid).
      rewrite (deref_Some _ _ _ Hs1). cbn.
      rewrite bool_decide_eq_true_2 by congruence. by rewrite Hnew. }
    split; [|split].
    + intros h' Hok. destruct r as [h1|e] eqn:Er; [|discriminate].
      by rewrite (Hstep h1) in Hok.
    + intros Hcase. unfold r in *. clear r.
      destruct Hcase as [Hun | [Hold | (old & o & Hold & Ho & Hc)]].
      * rewrite bool_decide_eq_false_2 in * by naive_solver. eauto.
      * case_bool_decide; rewrite ?Hold in *; eauto.
      * case_bool_decide; [|eauto]. rewrite Hold in *.
        destruct (call_del_slave_dbid_Ok h old (dbid s) o Ho Hc) as [h1 Hh1].
        rewrite Hh1 in *. eauto.
    + intros Hal old o Hold Ho Hv. unfold r.
      rewrite (bool_decide_eq_true_2 (master_dbid s ≠ dbid s)) by done.
      rewrite Hold. unfold call_del_slave_dbid.
      rewrite (deref_Some _ _ _ Ho). cbn [mbind result_bind].
      by rewrite (isinstance_true _ _ Hv).
Qed.

Lemma set_master_dbid_lookup_miss_witness :
  GenericContainer_set_master_dbid aliased_heap aliased_app 1%positive 10
    = Ok (<[1%positive := with_master_dbid 10 aliased_channel]> aliased_heap)
  ∧ GenericContainer_set_master_dbid aliased_heap aliased_app 1%positive 99
    = Raise KeyError
  ∧ GenericContainer_set_master_dbid video_master_heap video_master_app
      1%positive 99
    = Raise AttributeError.
Proof.
  split; [|split].
  - apply (proj1 (set_master_dbid_lookup_miss aliased_heap aliased_app
                    1%positive aliased_channel 10 eq_refl ltac:(done)));
      [done | reflexivity | reflexivity].
  - apply (proj2 (set_master_dbid_lookup_miss aliased_heap aliased_app
                    1%positive aliased_channel 99 eq_refl ltac:(done)));
      [done | reflexivity | right; left; reflexivity].
  - apply (proj2 (proj2 (proj2 (set_master_dbid_lookup_miss
                    video_master_heap video_master_app 1%positive
                    (with_master_dbid 30
                       (new_container Channel 10 "chan" None false false))
                    99 eq_refl ltac:(done)) ltac:(done) eq_refl)))
      with (old_dest_obj := 3%positive) (o := new_video 30 "v" 1%positive);
      [done | reflexivity | reflexivity | reflexivity].
Defined.

(** ** Download directories (claims C5 and C10) *)


Section Dirs.
Context `{OsPath}.



(** C10, amended: [get_relative_actual_dir] never returns a path.  It
    raises [TypeError] (two arguments passed to a method that takes one)
    when the container is not aliased and when its master id is registered
    to a container; when the container is aliased and its master id is not
    registered, it raises [KeyError] at the lookup. *)
Theorem get_relative_actual_dir_never_returns fuel (h : heap) self s app_obj
    new_name :
  h !! self = Some s →
  cls s ≠ Video →
  (∀ path, GenericContainer_get_relative_actual_dir fuel h self app_obj new_name
           ≠ Ok path)
  ∧ (master_dbid s = dbid s →
     GenericContainer_get_relative_actual_dir fuel h self app_obj new_name
       = Raise TypeError)
  ∧ (master_dbid s ≠ dbid s →
     ∀ master_obj m,
       media_reg_dict app_obj !! master_dbid s = Some master_obj →
       h !! master_obj = Some m →
       cls m ≠ Video →
       GenericContainer_get_relative_actual_dir fuel h self app_obj new_name
         = Raise TypeError)
  ∧ (master_dbid s ≠ dbid s →
     media_reg_dict app_obj !! master_dbid s = None →
     GenericContainer_get_relative_actual_dir fuel h self app_obj new_name
       = Raise KeyError).
Proof.
  intros Hs Hc.
  assert (Hcall : ∀ obj path,
    call_get_relative_default_dir fuel h obj [ArgApp app_obj; new_name]
      ≠ Ok path).
  { intros obj path. unfold call_get_relative_default_dir.
    destruct (deref h obj) as [o|]; cbn; [|done].
    by destruct (isinstance o Video). }
  unfold GenericContainer_get_relative_actual_dir.
  rewrite (deref_Some _ _ _ Hs). cbn.
  repeat split.
  - intros path. case_bool_decide; [|apply Hcall].
    destruct (media_reg_dict app_obj !! master_dbid s); [apply Hcall|done].
  - intros Hun. rewrite bool_decide_eq_false_2 by naive_solver.
    unfold call_get_relative_default_dir. rewrite (deref_Some _ _ _ Hs). cbn.
    by rewrite (isinstance_false _ _ Hc).
  - intros Hal master_obj m Hreg Hm Hcm.
    rewrite bool_decide_eq_true_2 by done. rewrite Hreg.
    unfold call_get_relative_default_dir. rewrite (deref_Some _ _ _ Hm). cbn.
    by rewrite (isinstance_false _ _ Hcm).
  - intros Hal Hreg. rewrite bool_decide_eq_true_2 by done. by rewrite Hreg.
Qed.

End Dirs.


(** C10 as stated fails: for the channel that is aliased to an unregistered
    id, [get_relative_actual_dir] raises [KeyError] at the registry lookup,
    not the [TypeError] of a call with too many arguments. *)
Lemma get_relative_actual_dir_unregistered_master :
  ∃ s,
    aliased_heap !! 1%positive = Some s
    ∧ master_dbid s ≠ dbid s
    ∧ @GenericContainer_get_relative_actual_dir posix_path 4 aliased_heap
        1%positive aliased_app ArgNone = Raise KeyError
    ∧ @GenericContainer_get_relative_actual_dir posix_path 4 aliased_heap
        1%positive aliased_app ArgNone ≠ Raise TypeError.
Proof.
  eexists. split; [reflexivity|]. split; [discriminate|].
  split; [vm_compute; reflexivity | vm_compute; discriminate].
Qed.

Lemma get_relative_actual_dir_never_returns_witness :
  @GenericContainer_get_relative_actual_dir posix_path 4 dirs_heap
     4%positive dirs_app ArgNone = Raise TypeError
  ∧ @GenericContainer_get_relative_actual_dir posix_path 4 dirs_heap
      2%positive dirs_app (ArgStr "X") = Raise TypeError
  ∧ @GenericContainer_get_relative_actual_dir posix_path 4 aliased_heap
      1%positive aliased_app ArgNone = Raise KeyError.
Proof.
  split; [|split].
  - refine (proj1 (proj2 (@get_relative_actual_dir_never_returns posix_path 4
              dirs_heap 4%positive _ dirs_app ArgNone eq_refl _)) _).
    + discriminate.
    + reflexivity.
  - refine (proj1 (proj2 (proj2 (@get_relative_actual_dir_never_returns
              posix_path 4 dirs_heap 2%positive _ dirs_app (ArgStr "X")
              eq_refl _))) _ 3%positive _ eq_refl eq_refl _).
    + discriminate.
    + discriminate.
    + discriminate.
  - refine (proj2 (proj2 (proj2 (@get_relative_actual_dir_never_returns
              posix_path 4 aliased_heap 1%positive _ aliased_app ArgNone
              eq_refl _))) _ eq_refl).
    + discriminate.
    + discriminate.
Defined.

(** ** Sorting *)

Section Sorting.
Context {A : Type} (lt : A → A → result bool).

Lemma sort_insert_perm x rp rp' :
  sort_insert lt x rp = Ok rp' → rp' ≡ₚ x :: rp.
Proof.
  revert rp'. induction rp as [|p rp IH]; intros rp'; cbn.
  - by intros [= <-].
  - intros Hins. apply bind_Ok in Hins as (b & _ & Hins).
    destruct b.
    + apply bind_Ok in Hins as (r & Hr & [= <-]).
      rewrite (IH _ Hr). apply Permutation_swap.
    + by injection Hins as <-.
Qed.

Lemma sort_run_perm l rp l' :
  sort_run lt l rp = Ok l' → l' ≡ₚ reverse rp ++ l.
Proof.
  revert rp. induction l as [|x l IH]; intros rp; cbn.
  - intros [= <-]. by rewrite app_nil_r.
  - intros Hrun. apply bind_Ok in Hrun as (rp' & Hins & Hrun).
    rewrite (IH _ Hrun). apply sort_insert_perm in Hins.
    rewrite !reverse_Permutation, Hins. apply Permutation_middle.
Qed.

(** The comparison is defined on the items that satisfy [D] and agrees with
    a rank: items of a lower rank are smaller, items of a higher rank are
    not. *)
Context (D : A → Prop) (rank : A → nat).
Hypothesis lt_total : ∀ x y, D x → D y → ∃ b, lt x y = Ok b.
Hypothesis lt_lower : ∀ x y, D x → D y → (rank x < rank y)%nat → lt x y = Ok true.
Hypothesis lt_higher : ∀ x y, D x → D y → (rank y < rank x)%nat → lt x y = Ok false.

Lemma sort_insert_ranked x rp :
  D x → Forall D rp →
  StronglySorted (λ a b, (rank b ≤ rank a)%nat) rp →
  ∃ rp', sort_insert lt x rp = Ok rp'
         ∧ Forall D rp'
         ∧ StronglySorted (λ a b, (rank b ≤ rank a)%nat) rp'.
Proof.
  intros Dx. induction rp as [|p rp IH]; intros HD Hs; cbn.
  - eexists. split; [done|]. split; repeat constructor; done.
  - apply Forall_cons in HD as [Dp HD].
    apply StronglySorted_cons in Hs as [Hp Hs].
    destruct (lt_total x p Dx Dp) as [b Hb]. rewrite Hb. cbn.
    destruct b.
    + destruct (IH HD Hs) as (r & Hr & HDr & Hsr). rewrite Hr. cbn.
      eexists. split; [done|]. split; [by constructor|].
      apply StronglySorted_cons. split; [|done].
      assert (Hxp : (rank x ≤ rank p)%nat).
      { destruct (decide (rank p < rank x)%nat) as [Hlt|]; [|lia].
        rewrite (lt_higher _ _ Dx Dp Hlt) in Hb. discriminate. }
      apply sort_insert_perm in Hr. rewrite Hr. by constructor.
    + eexists. split; [done|]. split; [by repeat constructor|].
      assert (Hpx : (rank p ≤ rank x)%nat).
      { destruct (decide (rank x < rank p)%nat) as [Hlt|]; [|lia].
        rewrite (lt_lower _ _ Dx Dp Hlt) in Hb. discriminate. }
      apply StronglySorted_cons. split.
      * constructor; [done|]. eapply Forall_impl; [exact Hp|]. cbn. lia.
      * by apply StronglySorted_cons.
Qed.

Lemma StronglySorted_reverse (R : relation A) l :
  StronglySorted (flip R) l → StronglySorted R (reverse l).
Proof.
  induction 1 as [|x l _ IH Hx]; [constructor|].
  rewrite reverse_cons. apply StronglySorted_app. split_and!.
  - intros x1 x2 Hx1 ->%list_elem_of_singleton.
    rewrite Forall_forall in Hx. apply Hx. by apply elem_of_reverse.
  - done.
  - repeat constructor.
Qed.

Lemma sort_run_ranked l rp :
  Forall D l → Forall D rp →
  StronglySorted (λ a b, (rank b ≤ rank a)%nat) rp →
  ∃ l', sort_run lt l rp = Ok l'
        ∧ l' ≡ₚ reverse rp ++ l
        ∧ StronglySorted (λ a b, (rank a ≤ rank b)%nat) l'.
Proof.
  revert rp. induction l as [|x l IH]; intros rp Hl Hrp Hs; cbn.
  - eexists. split; [done|]. split; [by rewrite app_nil_r|].
    by apply StronglySorted_reverse.
  - apply Forall_cons in Hl as [Dx Hl].
    destruct (sort_insert_ranked x rp Dx Hrp Hs) as (rp' & Hins & HD' & Hs').
    rewrite Hins. cbn.
    destruct (IH rp' Hl HD' Hs') as (l' & Hrun & Hperm & Hsorted).
    exists l'. split; [done|]. split; [|done].
    rewrite Hperm. apply sort_insert_perm in Hins.
    rewrite !reverse_Permutation, Hins. apply Permutation_middle.
Qed.

End Sorting.

Lemma StronglySorted_lookup {A} (R : relation A) l i j a b :
  StronglySorted R l →
  l !! i = Some a → l !! j = Some b → (i < j)%nat → R a b.
Proof.
  intros Hs Hi Hj Hlt.
  rewrite <- (take_drop j l) in Hs.
  eapply StronglySorted_app_1_elem_of; [exact Hs| |].
  - apply list_elem_of_lookup. exists i. by rewrite lookup_take_lt.
  - apply list_elem_of_lookup. exists 0%nat.
    by rewrite lookup_drop, Nat.add_0_r.
Qed.

(** ** Sorting the children of a folder (claim C4) *)

(** Between objects of different strata [Folder.do_sort] looks at the
    classes only. *)
Lemma Folder_do_sort_strata self o1 o2 :
  ((stratum o1 < stratum o2)%nat → Folder_do_sort self o1 o2 = -1)
  ∧ ((stratum o2 < stratum o1)%nat → Folder_do_sort self o1 o2 = 1).
Proof.
  unfold stratum, Folder_do_sort, is_remote, isinstance.
  destruct (cls o1), (cls o2); cbn; split; intros; (reflexivity || lia).
Qed.

(** What [Folder.sort_children] does to the child list: a permutation that
    is ordered by stratum. *)
Lemma Folder_sort_children_sorted (h : heap) self s :
  h !! self = Some s →
  Forall (λ r, is_Some (h !! r)) (child_list s) →
  ∃ l',
    Folder_sort_children h self = Ok (<[self := with_child_list l' s]> h)
    ∧ l' ≡ₚ child_list s
    ∧ StronglySorted (λ r1 r2, (stratum_at h r1 ≤ stratum_at h r2)%nat) l'.
Proof.
  intros Hs Hch.
  set (mycmp := on_refs h (λ o1 o2, Ok (Some (Folder_do_sort s o1 o2)))).
  assert (Hlt : ∀ r1 r2 o1 o2, h !! r1 = Some o1 → h !! r2 = Some o2 →
            cmp_to_key_lt mycmp r1 r2 = Ok (Folder_do_sort s o1 o2 <? 0)).
  { intros r1 r2 o1 o2 H1 H2. unfold cmp_to_key_lt, mycmp, on_refs.
    by rewrite (deref_Some _ _ _ H1), (deref_Some _ _ _ H2). }
  destruct (sort_run_ranked (cmp_to_key_lt mycmp) (λ r, is_Some (h !! r))
              (stratum_at h)) with (l := child_list s) (rp := @nil ref)
    as (l' & Hrun & Hperm & Hsorted).
  - intros r1 r2 [o1 H1] [o2 H2]. rewrite (Hlt _ _ _ _ H1 H2). eauto.
  - intros r1 r2 [o1 H1] [o2 H2]. unfold stratum_at. rewrite H1, H2.
    intros Hr. rewrite (Hlt _ _ _ _ H1 H2).
    by rewrite (proj1 (Folder_do_sort_strata s o1 o2) Hr).
  - intros r1 r2 [o1 H1] [o2 H2]. unfold stratum_at. rewrite H1, H2.
    intros Hr. rewrite (Hlt _ _ _ _ H1 H2).
    by rewrite (proj2 (Folder_do_sort_strata s o1 o2) Hr).
  - done.
  - constructor.
  - constructor.
  - exists l'. split; [|done].
    unfold Folder_sort_children. rewrite (deref_Some _ _ _ Hs). cbn.
    unfold list_sort. fold mycmp. by rewrite Hrun.
Qed.

(** C4: sorting the children of a folder succeeds, keeps the children, and
    leaves every child of a lower stratum before every child of a higher
    one: folders before channels and playlists, and these before videos,
    whatever the names and times. *)
Theorem Folder_sort_children_strata (h : heap) self s :
  h !! self = Some s →
  cls s = Folder →
  Forall (λ r, is_Some (h !! r)) (child_list s) →
  ∃ h' s',
    Folder_sort_children h self = Ok h'
    ∧ h' !! self = Some s'
    ∧ child_list s' ≡ₚ child_list s
    ∧ ∀ i j r1 r2 o1 o2,
        child_list s' !! i = Some r1 → child_list s' !! j = Some r2 →
        h' !! r1 = Some o1 → h' !! r2 = Some o2 →
        (stratum o1 < stratum o2)%nat → (i < j)%nat.
Proof.
  intros Hs Hcls Hch.
  destruct (Folder_sort_children_sorted h self s Hs Hch)
    as (l' & Hsort & Hperm & Hsorted).
  exists (<[self := with_child_list l' s]> h), (with_child_list l' s).
  split; [done|]. split; [by rewrite lookup_insert_eq|]. split; [done|].
  intros i j r1 r2 o1 o2 Hi Hj H1 H2 Hstr. cbn in Hi, Hj.
  assert (Hat : ∀ r o, <[self := with_child_list l' s]> h !! r = Some o →
            stratum_at h r = stratum o).
  { intros r o. unfold stratum_at.
    destruct (decide (self = r)) as [<-|Hne].
    - rewrite lookup_insert_eq, Hs. by intros [= <-].
    - rewrite lookup_insert_ne by done. by intros ->. }
  destruct (decide (i < j)%nat) as [|Hge]; [done|]. exfalso.
  destruct (decide (i = j)) as [->|Hne].
  - rewrite Hi in Hj. injection Hj as <-. rewrite H1 in H2.
    injection H2 as <-. lia.
  - assert (Hji : (j < i)%nat) by lia.
    pose proof (StronglySorted_lookup _ _ _ _ _ _ Hsorted Hj Hi Hji) as Hle.
    cbn in Hle. rewrite (Hat _ _ H1), (Hat _ _ H2) in Hle. lia.
Qed.

Lemma Folder_sort_children_strata_witness :
  ∃ h' s',
    Folder_sort_children strata_heap 1%positive = Ok h'
    ∧ h' !! 1%positive = Some s'
    ∧ child_list s' ≡ₚ [2%positive; 3%positive; 4%positive; 5%positive]
    ∧ ∀ i j r1 r2 o1 o2,
        child_list s' !! i = Some r1 → child_list s' !! j = Some r2 →
        h' !! r1 = Some o1 → h' !! r2 = Some o2 →
        (stratum o1 < stratum o2)%nat → (i < j)%nat.
Proof.
  apply (Folder_sort_children_strata strata_heap 1%positive
           (a_container Folder 11 "top" None
              [2%positive; 3%positive; 4%positive; 5%positive] 1)).
  - reflexivity.
  - reflexivity.
  - apply (bool_decide_unpack _). vm_compute. exact I.
Defined.

(** On this folder the sort yields the folder, the playlist, the channel,
    the video. *)
Example Folder_sort_children_example :
  (h' ← Folder_sort_children strata_heap 1%positive;
   s' ← deref h' 1%positive;
   Ok (child_list s'))
  = Ok [4%positive; 5%positive; 3%positive; 2%positive].
Proof. vm_compute. reflexivity. Qed.

(** ** The aggregate counters (claim C1) *)

Lemma count_videos_ext (h h' : heap) p l :
  (∀ r, r ∈ l → is_video_with h p r = is_video_with h' p r) →
  count_videos h p l = count_videos h' p l.
Proof.
  induction l as [|r l IH]; intros Hext; cbn; [done|].
  rewrite Hext by left. rewrite IH; [done|].
  intros r' Hr'. apply Hext. by right.
Qed.

Lemma count_videos_app (h : heap) p l1 l2 :
  count_videos h p (l1 ++ l2) = count_videos h p l1 + count_videos h p l2.
Proof. induction l1 as [|r l1 IH]; cbn; [done|]. rewrite IH. lia. Qed.

Lemma count_videos_perm (h : heap) p l1 l2 :
  l1 ≡ₚ l2 → count_videos h p l1 = count_videos h p l2.
Proof. induction 1; cbn; lia. Qed.

Lemma count_videos_remove (h : heap) p c l :
  c ∈ l →
  count_videos h p (list_remove c l)
    = count_videos h p l - (if is_video_with h p c then 1 else 0).
Proof.
  induction l as [|r l IH]; [by intros ?%not_elem_of_nil|].
  intros Hc. cbn. case_bool_decide as Hr.
  - subst r. lia.
  - apply elem_of_cons in Hc as [->|Hc]; [done|]. cbn. rewrite IH by done.
    lia.
Qed.

Lemma list_remove_subseteq c (l : list ref) : list_remove c l ⊆ l.
Proof.
  induction l as [|r l IH]; cbn; [done|].
  case_bool_decide.
  - intros r' Hr'. by right.
  - intros r' [->|Hr']%elem_of_cons; [left|right; by apply IH].
Qed.

(** Storing at [self] an object that, like the one before, is no [Video]
    changes no count. *)
Lemma is_video_with_insert_container (h : heap) p self s s' r :
  h !! self = Some s → cls s ≠ Video → cls s' ≠ Video →
  is_video_with (<[self := s']> h) p r = is_video_with h p r.
Proof.
  intros Hs Hc Hc'. unfold is_video_with.
  destruct (decide (self = r)) as [<-|Hne].
  - rewrite lookup_insert_eq, Hs.
    by rewrite !isinstance_false by done.
  - by rewrite lookup_insert_ne by done.
Qed.

Lemma is_video_with_insert_other (h : heap) p x o r :
  x ≠ r → is_video_with (<[x := o]> h) p r = is_video_with h p r.
Proof. intros. unfold is_video_with. by rewrite lookup_insert_ne. Qed.

(** [del_child] always returns, changes the store at [self] only, and keeps
    the counters right. *)
Lemma del_child_counters (h : heap) self s child_obj :
  h !! self = Some s →
  cls s ≠ Video →
  Forall (λ r, is_Some (h !! r)) (child_list s) →
  counters_ok h s →
  ∃ b s',
    del_child h self child_obj = Ok (b, <[self := s']> h)
    ∧ cls s' = cls s
    ∧ child_list s' ⊆ child_list s
    ∧ counters_ok (<[self := s']> h) s'.
Proof.
  intros Hs Hc Hall Hok.
  unfold del_child, GenericContainer_del_child.
  rewrite (deref_Some _ _ _ Hs). cbn.
  rewrite (isinstance_false _ _ Hc).
  case_bool_decide as Hin; cbn.
  2:{ exists false, s. rewrite insert_id by done. done. }
  set (s1 := with_child_list (list_remove child_obj (child_list s)) s).
  (* the object that [child_obj] refers to *)
  assert (Hco : ∃ co, deref (<[self := s1]> h) child_obj = Ok co
            ∧ ∀ p, is_video_with h p child_obj = isinstance co Video && p co).
  { destruct (decide (self = child_obj)) as [<-|Hne].
    - exists s1. rewrite deref_insert_eq. split; [done|]. intros p.
      unfold is_video_with. rewrite Hs.
      by rewrite !isinstance_false by done.
    - rewrite Forall_forall in Hall. destruct (Hall _ Hin) as [co Hco].
      exists co. rewrite deref_insert_ne by done.
      rewrite (deref_Some _ _ _ Hco). split; [done|]. intros p.
      unfold is_video_with. by rewrite Hco. }
  destruct Hco as (co & -> & Hvid). cbn.
  assert (Hcount : ∀ p s',
    cls s' ≠ Video →
    count_videos (<[self := s']> h) p (list_remove child_obj (child_list s))
      = count_videos h p (child_list s)
        - (if isinstance co Video && p co then 1 else 0)).
  { intros p s' Hc'. rewrite <- Hvid, <- count_videos_remove by done.
    apply count_videos_ext. intros r _.
    by apply is_video_with_insert_container with (s := s). }
  destruct Hok as (H1 & H2 & H3 & H4 & H5 & H6).
  destruct (isinstance co Video) eqn:Hv; cbn in Hcount.
  - eexists true, _. rewrite insert_insert_eq. split; [done|].
    split; [done|]. split; [apply list_remove_subseteq|].
    unfold counters_ok. cbn. rewrite !Hcount by done.
    rewrite H1, H2, H3, H4, H5, H6.
    repeat split;
      first [ lia
            | destruct (bookmark_flag co); lia
            | destruct (dl_flag co); lia
            | destruct (fav_flag co); lia
            | destruct (new_flag co); lia
            | destruct (waiting_flag co); lia ].
  - exists true, s1. split; [done|].
    split; [done|]. split; [apply list_remove_subseteq|].
    unfold counters_ok. cbn. rewrite !Hcount by done.
    rewrite H1, H2, H3, H4, H5, H6. repeat split; lia.
Qed.

Lemma untimed_video_insert_container (h : heap) self s s' r :
  h !! self = Some s → cls s ≠ Video →
  untimed_video h r → untimed_video (<[self := s']> h) r.
Proof.
  intros Hs Hc (v & Hv & Hcv & Hu). exists v.
  rewrite lookup_insert_ne; [done|]. intros <-. congruence.
Qed.

(** On two videos without upload time the ordering function of the remote
    containers returns an integer. *)
Lemma remote_do_sort_untimed self o1 o2 :
  cls o1 = Video → cls o2 = Video →
  upload_time o1 = None → upload_time o2 = None →
  ∃ z, GenericRemoteContainer_do_sort self o1 o2 = Ok (Some z).
Proof.
  intros H1 H2 Hu1 Hu2. unfold GenericRemoteContainer_do_sort.
  rewrite !both_set_video by done. rewrite Hu1.
  destruct (isinstance self Playlist); cbn; [|eauto].
  destruct (index o1) as [i1|], (index o2) as [i2|]; cbn; eauto.
  destruct (i1 <? i2); eauto.
Qed.

Lemma list_sort_untimed (h : heap) s l :
  Forall (untimed_video h) l →
  ∃ l', list_sort (on_refs h (GenericRemoteContainer_do_sort s)) l = Ok l'
        ∧ l' ≡ₚ l.
Proof.
  intros Hl.
  destruct (sort_run_ranked
              (cmp_to_key_lt (on_refs h (GenericRemoteContainer_do_sort s)))
              (untimed_video h) (λ _, 0%nat))
    with (l := l) (rp := @nil ref) as (l' & Hrun & Hperm & _).
  - intros r1 r2 (o1 & H1 & Hc1 & Hu1) (o2 & H2 & Hc2 & Hu2).
    unfold cmp_to_key_lt, on_refs.
    rewrite (deref_Some _ _ _ H1), (deref_Some _ _ _ H2). cbn.
    destruct (remote_do_sort_untimed s o1 o2 Hc1 Hc2 Hu1 Hu2) as [z ->].
    cbn. eauto.
  - intros; lia.
  - intros; lia.
  - done.
  - constructor.
  - constructor.
  - exists l'. split; [done|]. by rewrite Hperm.
Qed.

(** Sorting the children of a channel or playlist succeeds when they are
    videos without upload time. *)
Lemma remote_sort_children_untimed (h : heap) self s :
  h !! self = Some s →
  Forall (untimed_video h) (child_list s) →
  ∃ l',
    GenericRemoteContainer_sort_children h self
      = Ok (<[self := with_child_list l' s]> h)
    ∧ l' ≡ₚ child_list s.
Proof.
  intros Hs Hl. unfold GenericRemoteContainer_sort_children.
  rewrite (deref_Some _ _ _ Hs). cbn.
  destruct (list_sort_untimed h s _ Hl) as (l1 & -> & Hp1). cbn.
  assert (Hl1 : Forall (untimed_video h) l1) by by rewrite Hp1.
  destruct (list_sort_untimed h s _ Hl1) as (l2 & -> & Hp2). cbn.
  exists l2. split; [done|]. by rewrite Hp2.
Qed.

(** Whenever the sorts return, the new child list is a permutation of the
    old one. *)
Lemma Folder_sort_children_perm (h h' : heap) self s :
  h !! self = Some s →
  Folder_sort_children h self = Ok h' →
  ∃ l', l' ≡ₚ child_list s ∧ h' = <[self := with_child_list l' s]> h.
Proof.
  intros Hs. unfold Folder_sort_children.
  rewrite (deref_Some _ _ _ Hs). cbn. intros Hsort.
  apply bind_Ok in Hsort as (l' & Hl' & [= <-]).
  exists l'. split; [|done].
  apply sort_run_perm in Hl'. by rewrite Hl'.
Qed.

Lemma remote_sort_children_perm (h h' : heap) self s :
  h !! self = Some s →
  GenericRemoteContainer_sort_children h self = Ok h' →
  ∃ l', l' ≡ₚ child_list s ∧ h' = <[self := with_child_list l' s]> h.
Proof.
  intros Hs. unfold GenericRemoteContainer_sort_children.
  rewrite (deref_Some _ _ _ Hs). cbn. intros Hsort.
  apply bind_Ok in Hsort as (l1 & Hl1 & Hsort).
  apply bind_Ok in Hsort as (l2 & Hl2 & [= <-]).
  exists l2. split; [|done].
  apply sort_run_perm in Hl1, Hl2. by rewrite Hl2, Hl1.
Qed.

(** Whenever [add_child] returns for a video that is not a child yet, the
    video has been added to the children and counted. *)
Lemma add_child_new_video (h h' : heap) self s x v no_sort_flag :
  h !! self = Some s → cls s ≠ Video →
  h !! x = Some v → cls v = Video →
  x ∉ child_list s →
  add_child h self x no_sort_flag = Ok h' →
  ∃ l',
    l' ≡ₚ child_list s ++ [x]
    ∧ h' = <[self := with_vid_count (vid_count s + 1)
                        (with_child_list l' s)]> h.
Proof.
  intros Hs Hc Hx Hv Hnin.
  assert (Hne : self ≠ x) by (intros ->; congruence).
  set (s1 := with_child_list (child_list s ++ [x]) s).
  assert (Hs1 : <[self := s1]> h !! self = Some s1)
    by apply lookup_insert_eq.
  assert (Hfinish : ∀ (h2 : heap) l',
    h2 = <[self := with_child_list l' s1]> (<[self := s1]> h) →
    (c ← deref h2 x;
     if isinstance c Video then
       s2 ← deref h2 self;
       Ok (<[self := with_vid_count (vid_count s2 + 1) s2]> h2)
     else Ok h2)
    = Ok (<[self := with_vid_count (vid_count s + 1)
                      (with_child_list l' s)]> h)).
  { intros h2 l' ->. rewrite insert_insert_eq.
    rewrite (deref_insert_ne _ self x) by done.
    rewrite (deref_Some _ _ _ Hx). cbn.
    rewrite (isinstance_true _ _ Hv), deref_insert_eq. cbn.
    by rewrite insert_insert_eq. }
  unfold add_child. rewrite (deref_Some _ _ _ Hs). cbn.
  destruct (cls s) eqn:Hcls; [done| | |].
  1,2: unfold GenericRemoteContainer_add_child;
    rewrite (deref_Some _ _ _ Hs), (deref_Some _ _ _ Hx); cbn;
    rewrite (isinstance_true _ _ Hv); cbn; fold s1;
    destruct no_sort_flag; cbn.
  5: unfold Folder_add_child; rewrite (deref_Some _ _ _ Hs); cbn;
    rewrite bool_decide_eq_false_2 by done; cbn; fold s1;
    destruct no_sort_flag; cbn.
  1,3,5: rewrite (Hfinish _ (child_list s ++ [x]));
    [ intros [= <-]; by eexists
    | by rewrite insert_insert_eq ].
  1,2: intros Hadd; apply bind_Ok in Hadd as (h2 & Hsort & Hadd);
    destruct (remote_sort_children_perm _ _ _ _ Hs1 Hsort) as (l' & Hp & ->);
    rewrite (Hfinish _ l' eq_refl) in Hadd; injection Hadd as <-;
    by exists l'.
  intros Hadd; apply bind_Ok in Hadd as (h2 & Hsort & Hadd).
  destruct (Folder_sort_children_perm _ _ _ _ Hs1 Hsort) as (l' & Hp & ->).
  rewrite (Hfinish _ l' eq_refl) in Hadd. injection Hadd as <-.
  by exists l'.
Qed.

(** [add_child] returns for a new video without upload time when the
    child list can be sorted. *)
Lemma add_child_sortable_Ok (h : heap) self s x no_sort_flag :
  h !! self = Some s → cls s ≠ Video →
  sortable h s →
  untimed_video h x →
  x ∉ child_list s →
  ∃ h', add_child h self x no_sort_flag = Ok h'.
Proof.
  intros Hs Hc [Hall Hl] (v & Hx & Hv & Hu) Hnin.
  assert (Hne : self ≠ x) by (intros ->; congruence).
  set (s1 := with_child_list (child_list s ++ [x]) s).
  assert (Hs1 : <[self := s1]> h !! self = Some s1)
    by apply lookup_insert_eq.
  assert (Hall1 : Forall (λ r, is_Some (<[self := s1]> h !! r))
                    (child_list s1)).
  { cbn. apply Forall_app. split.
    - eapply Forall_impl; [exact Hall|]. intros r Hr. cbn.
      rewrite lookup_insert_is_Some. destruct (decide (self = r)); eauto.
    - repeat constructor. rewrite lookup_insert_ne by done. eauto. }
  assert (Hl1 : cls s ≠ Folder →
            Forall (untimed_video (<[self := s1]> h)) (child_list s1)).
  { intros Hf. cbn. apply Forall_app. split.
    - eapply Forall_impl; [exact (Hl Hf)|]. intros r.
      by apply untimed_video_insert_container with (s := s).
    - repeat constructor.
      apply untimed_video_insert_container with (s := s); [done..|].
      by exists v. }
  assert (Hfinish : ∀ (h2 : heap) l',
    h2 = <[self := with_child_list l' s1]> (<[self := s1]> h) →
    ∃ h', (c ← deref h2 x;
           if isinstance c Video then
             s2 ← deref h2 self;
             Ok (<[self := with_vid_count (vid_count s2 + 1) s2]> h2)
           else Ok h2) = Ok h').
  { intros h2 l' ->. rewrite insert_insert_eq.
    rewrite (deref_insert_ne _ self x) by done.
    rewrite (deref_Some _ _ _ Hx). cbn.
    rewrite (isinstance_true _ _ Hv), deref_insert_eq. cbn. eauto. }
  unfold add_child. rewrite (deref_Some _ _ _ Hs). cbn.
  destruct (cls s) eqn:Hcls; [done| | |].
  1,2: unfold GenericRemoteContainer_add_child;
    rewrite (deref_Some _ _ _ Hs), (deref_Some _ _ _ Hx); cbn;
    rewrite (isinstance_true _ _ Hv); cbn; fold s1;
    destruct no_sort_flag; cbn.
  5: unfold Folder_add_child; rewrite (deref_Some _ _ _ Hs); cbn;
    rewrite bool_decide_eq_false_2 by done; cbn; fold s1;
    destruct no_sort_flag; cbn.
  1,3,5: apply (Hfinish _ (child_list s ++ [x])); by rewrite insert_insert_eq.
  1,2: destruct (remote_sort_children_untimed _ _ _ Hs1 (Hl1 ltac:(done)))
         as (l' & -> & _);
    cbn; by apply (Hfinish _ l').
  destruct (Folder_sort_children_sorted (<[self := s1]> h) self s1 Hs1 Hall1)
    as (l' & -> & _).
  cbn. by apply (Hfinish _ l').
Qed.

(** Constructing a video under [self] keeps the counters right, whenever
    the constructor returns. *)
Lemma Video_init_counters (h h' : heap) self s d n no_sort_flag x :
  h !! self = Some s →
  cls s ≠ Video →
  Forall (λ r, is_Some (h !! r)) (child_list s) →
  counters_ok h s →
  Video_init h d n self no_sort_flag = Ok (x, h') →
  ∃ s',
    (x ∉ dom h)
    ∧ h' = <[self := s']> (<[x := new_video d n self]> h)
    ∧ cls s' = cls s
    ∧ child_list s' ≡ₚ child_list s ++ [x]
    ∧ counters_ok h' s'.
Proof.
  intros Hs Hc Hall Hok. unfold Video_init.
  set (y := fresh (dom h)).
  assert (Hy : y ∉ dom h) by apply is_fresh.
  assert (Hne : self ≠ y).
  { intros ->. apply Hy. apply elem_of_dom. eauto. }
  assert (Hnin : y ∉ child_list s).
  { intros Hin. rewrite Forall_forall in Hall. apply Hy, elem_of_dom. eauto. }
  intros Hinit. apply bind_Ok in Hinit as (h2 & Hadd & [= <- <-]).
  set (h0 := <[y := new_video d n self]> h) in *.
  assert (Hs0 : h0 !! self = Some s)
    by (unfold h0; by rewrite lookup_insert_ne).
  assert (Hy0 : h0 !! y = Some (new_video d n self))
    by apply lookup_insert_eq.
  destruct (add_child_new_video _ _ _ _ _ _ _ Hs0 Hc Hy0 eq_refl Hnin Hadd)
    as (l' & Hp & ->).
  eexists. split; [done|]. split; [done|]. split; [done|]. split; [done|].
  assert (Hcount : ∀ p,
    count_videos
      (<[self := with_vid_count (vid_count s + 1) (with_child_list l' s)]> h0)
      p l'
    = count_videos h p (child_list s)
      + (if p (new_video d n self) then 1 else 0)).
  { intros p. rewrite (count_videos_perm _ _ _ _ Hp), count_videos_app. cbn.
    f_equal.
    - apply count_videos_ext. intros r Hr.
      rewrite (is_video_with_insert_container _ _ _ s) by done.
      apply is_video_with_insert_other. by intros ->.
    - rewrite (is_video_with_insert_container _ _ _ s) by done.
      unfold is_video_with. rewrite Hy0.
      rewrite (isinstance_true _ Video) by done. cbn.
      destruct (p (new_video d n self)); lia. }
  destruct Hok as (H1 & H2 & H3 & H4 & H5 & H6).
  unfold counters_ok. cbn. rewrite !Hcount. cbn. repeat split; lia.
Qed.

(** From a container whose child list can be sorted, each operation
    returns, and leaves such a container with the counters right. *)
Lemma step_counters (h : heap) self s o :
  h !! self = Some s →
  cls s ≠ Video →
  sortable h s →
  counters_ok h s →
  ∃ h' s',
    step h self o = Ok h'
    ∧ h' !! self = Some s'
    ∧ cls s' ≠ Video
    ∧ sortable h' s'
    ∧ counters_ok h' s'.
Proof.
  intros Hs Hc [Hall Hl] Hok.
  assert (Hkeep : ∀ (h0 : heap) s0 s' r,
    h0 !! self = Some s0 → is_Some (h0 !! r) →
    is_Some (<[self := s']> h0 !! r)).
  { intros h0 s0 s' r _ Hr. rewrite lookup_insert_is_Some.
    destruct (decide (self = r)); eauto. }
  destruct o as [d n no_sort_flag | child_obj]; cbn.
  - set (y := fresh (dom h)).
    assert (Hy : y ∉ dom h) by apply is_fresh.
    assert (Hne : self ≠ y).
    { intros ->. apply Hy. apply elem_of_dom. eauto. }
    set (h0 := <[y := new_video d n self]> h).
    assert (Hs0 : h0 !! self = Some s)
      by (unfold h0; by rewrite lookup_insert_ne).
    assert (Hall0 : Forall (λ r, is_Some (h0 !! r)) (child_list s)).
    { eapply Forall_impl; [exact Hall|]. intros r Hr. cbn. unfold h0.
      rewrite lookup_insert_is_Some. destruct (decide (y = r)); eauto. }
    assert (Hl0 : cls s ≠ Folder → Forall (untimed_video h0) (child_list s)).
    { intros Hf. specialize (Hl Hf). rewrite Forall_forall in Hl |- *.
      intros r Hr. destruct (Hl r Hr) as (v & Hv & Hcv & Hu). exists v.
      unfold h0. rewrite lookup_insert_ne; [done|].
      intros <-. apply Hy, elem_of_dom. eauto. }
    assert (Hy0 : untimed_video h0 y).
    { eexists. unfold h0. rewrite lookup_insert_eq. done. }
    assert (Hnin : y ∉ child_list s).
    { intros Hin. rewrite Forall_forall in Hall. apply Hy, elem_of_dom.
      eauto. }
    destruct (add_child_sortable_Ok h0 self s y no_sort_flag Hs0 Hc
                (conj Hall0 Hl0) Hy0 Hnin) as [h' Hadd].
    assert (Hinit : Video_init h d n self no_sort_flag = Ok (y, h')).
    { unfold Video_init. fold y. fold h0. by rewrite Hadd. }
    rewrite Hinit. cbn.
    destruct (Video_init_counters _ _ _ _ _ _ _ _ Hs Hc Hall Hok Hinit)
      as (s' & _ & -> & Hc' & Hp & Hok').
    exists (<[self := s']> h0), s'. split; [done|].
    split; [apply lookup_insert_eq|]. split; [congruence|]. split; [|done].
    split.
    + rewrite Hp. apply Forall_app. split.
      * eapply Forall_impl; [exact Hall0|]. intros r. by apply Hkeep with s.
      * repeat constructor. apply Hkeep with s; [done|].
        destruct Hy0 as (v & Hv & _). eauto.
    + intros Hf. rewrite Hc' in Hf. rewrite Hp. apply Forall_app. split.
      * eapply Forall_impl; [exact (Hl0 Hf)|]. intros r.
        by apply untimed_video_insert_container with (s := s).
      * repeat constructor.
        by apply untimed_video_insert_container with (s := s).
  - destruct (del_child_counters h self s child_obj Hs Hc Hall Hok)
      as (b & s' & -> & Hc' & Hsub & Hok').
    cbn. exists (<[self := s']> h), s'. split; [done|].
    split; [apply lookup_insert_eq|]. split; [congruence|]. split; [|done].
    split.
    + rewrite Forall_forall in Hall |- *. intros r Hr.
      apply Hkeep with s; [done|]. apply Hall, Hsub, Hr.
    + intros Hf. rewrite Hc' in Hf. specialize (Hl Hf).
      rewrite Forall_forall in Hl |- *. intros r Hr.
      apply untimed_video_insert_container with (s := s); [done..|].
      apply Hl, Hsub, Hr.
Qed.

(** Where the child list can be sorted the counters stay right: for a
    channel, playlist or folder whose counters are right, with children
    that are, in a channel or playlist, videos without upload time, every
    sequence of constructing new videos under it and of [del_child] calls
    runs to its end, and afterwards each of the six counters is the number
    of direct [Video] children with the counter's flag ([vid_count]: of all
    direct [Video] children). *)
Theorem counters_match_children (h : heap) self s ops :
  h !! self = Some s →
  cls s ≠ Video →
  sortable h s →
  counters_ok h s →
  ∃ h' s',
    run h self ops = Ok h'
    ∧ h' !! self = Some s'
    ∧ counters_ok h' s'.
Proof.
  intros Hs Hc Hsort Hok.
  revert h s Hs Hc Hsort Hok.
  induction ops as [|o ops IH]; intros h s Hs Hc Hsort Hok; cbn.
  - by exists h, s.
  - destruct (step_counters h self s o Hs Hc Hsort Hok)
      as (h1 & s1 & -> & Hs1 & Hc1 & Hsort1 & Hok1).
    cbn. by apply (IH h1 s1).
Qed.

(** A container as its constructor leaves it has its counters right and a
    child list that can be sorted. *)
Lemma new_container_counters (h : heap) c d n parent fixed priv :
  sortable h (new_container c d n parent fixed priv)
  ∧ counters_ok h (new_container c d n parent fixed priv).
Proof. split; [split; [constructor | intros _; constructor] | by repeat split]. Qed.

Lemma counters_match_children_witness :
  ∃ h' s',
    run counted_heap 1%positive
      [AddVideo 20 "new" false; DelChild 2%positive; AddVideo 21 "next" true;
       DelChild 9%positive]
      = Ok h'
    ∧ h' !! 1%positive = Some s'
    ∧ counters_ok h' s'.
Proof.
  apply (counters_match_children counted_heap 1%positive counted_folder).
  - reflexivity.
  - discriminate.
  - split.
    + apply (bool_decide_unpack _). vm_compute. exact I.
    + intros Hf. exfalso. apply Hf. reflexivity.
  - repeat split; vm_compute; reflexivity.
Defined.

(** On that run the folder ends with the channel and the two new videos,
    and counts two videos, none of them bookmarked or downloaded. *)
Example counters_run_example :
  (h' ← run counted_heap 1%positive
          [AddVideo 20 "new" false; DelChild 2%positive;
           AddVideo 21 "next" true; DelChild 9%positive];
   s' ← deref h' 1%positive;
   Ok (child_list s', vid_count s', bookmark_count s', dl_count s'))
  = Ok ([3%positive; 4%positive; 5%positive], 2, 0, 0).
Proof. vm_compute. reflexivity. Qed.

(** ** The counters after a sort that fails (claim C1) *)

(** Forgetting the store that a failing call leaves gives the methods as
    modelled above. *)
Lemma forget_reading {A} (h : heap) (r : result A) k :
  forget (reading h r k) = r ≫= λ a, forget (k a).
Proof. by destruct r. Qed.

Lemma forget_after o k :
  forget (after o k) = forget o ≫= λ h, forget (k h).
Proof. by destruct o. Qed.

Lemma forget_remote_sort_children (h : heap) self :
  forget (GenericRemoteContainer_sort_children_outcome h self)
  = GenericRemoteContainer_sort_children h self.
Proof.
  unfold GenericRemoteContainer_sort_children_outcome,
    GenericRemoteContainer_sort_children.
  rewrite forget_reading. destruct (deref h self) as [s|]; [|done].
  cbn [mbind result_bind]. rewrite forget_reading.
  destruct (list_sort _ (child_list s)) as [l|]; [|done].
  cbn [mbind result_bind]. rewrite forget_reading.
  by destruct (list_sort _ l).
Qed.

Lemma forget_count (h : heap) self child_obj :
  forget
    (reading h (deref h child_obj) (λ c,
     if isinstance c Video then
       reading h (deref h self) (λ s,
       Returned (<[self := with_vid_count (vid_count s + 1) s]> h))
     else Returned h))
  = (c ← deref h child_obj;
     if isinstance c Video then
       s ← deref h self;
       Ok (<[self := with_vid_count (vid_count s + 1) s]> h)
     else Ok h).
Proof.
  rewrite forget_reading. destruct (deref h child_obj) as [c|]; [|done].
  cbn [mbind result_bind]. destruct (isinstance c Video); [|done].
  rewrite forget_reading. by destruct (deref h self).
Qed.

Lemma forget_remote_add_child (h : heap) self child_obj no_sort_flag :
  forget (GenericRemoteContainer_add_child_outcome h self child_obj
            no_sort_flag)
  = GenericRemoteContainer_add_child h self child_obj no_sort_flag.
Proof.
  unfold GenericRemoteContainer_add_child_outcome,
    GenericRemoteContainer_add_child.
  rewrite forget_reading. destruct (deref h self) as [s|]; [|done].
  cbn [mbind result_bind]. rewrite forget_reading.
  destruct (deref h child_obj) as [c|]; [|done]. cbn [mbind result_bind].
  destruct (isinstance c Video || bool_decide (child_obj ∈ child_list s));
    [|done].
  rewrite forget_after. destruct no_sort_flag; cbn [negb].
  - cbn [forget mbind result_bind]. apply forget_count.
  - rewrite forget_remote_sort_children.
    destruct (GenericRemoteContainer_sort_children _ self) as [h2|]; [|done].
    cbn [mbind result_bind]. apply forget_count.
Qed.

Lemma forget_Folder_sort_children (h : heap) self :
  forget (Folder_sort_children_outcome h self) = Folder_sort_children h self.
Proof.
  unfold Folder_sort_children_outcome, Folder_sort_children.
  rewrite forget_reading. destruct (deref h self) as [s|]; [|done].
  cbn [mbind result_bind]. rewrite forget_reading.
  by destruct (list_sort _ (child_list s)).
Qed.

Lemma forget_Folder_add_child (h : heap) self child_obj no_sort_flag :
  forget (Folder_add_child_outcome h self child_obj no_sort_flag)
  = Folder_add_child h self child_obj no_sort_flag.
Proof.
  unfold Folder_add_child_outcome, Folder_add_child.
  rewrite forget_reading. destruct (deref h self) as [s|]; [|done].
  cbn [mbind result_bind].
  destruct (negb (bool_decide (child_obj ∈ child_list s))); [|done].
  rewrite forget_after. destruct no_sort_flag; cbn [negb].
  - cbn [forget mbind result_bind]. apply forget_count.
  - rewrite forget_Folder_sort_children.
    destruct (Folder_sort_children _ self) as [h2|]; [|done].
    cbn [mbind result_bind]. apply forget_count.
Qed.

Lemma forget_add_child (h : heap) obj child_obj no_sort_flag :
  forget (add_child_outcome h obj child_obj no_sort_flag)
  = add_child h obj child_obj no_sort_flag.
Proof.
  unfold add_child_outcome, add_child. rewrite forget_reading.
  destruct (deref h obj) as [o|]; [|done]. cbn [mbind result_bind].
  destruct (cls o);
    [done|apply forget_remote_add_child..|apply forget_Folder_add_child].
Qed.

Lemma forget_Video_init (h : heap) d n parent no_sort_flag :
  forget (Video_init_outcome h d n parent no_sort_flag)
  = (r ← Video_init h d n parent no_sort_flag; Ok r.2).
Proof.
  unfold Video_init_outcome, Video_init. rewrite forget_add_child.
  by destruct (add_child _ parent _ no_sort_flag).
Qed.

(** C1, at a failing input: the channel with two videos uploaded at the
    same time, one of them without receive time, has its counters right.
    Constructing a video under it raises [TypeError] out of the sort (the
    defect of claim C3), and the channel is left with the new video as its
    third child and a [vid_count] of 2: the video was appended before the
    sort and would have been counted after it.  The claim has the counters
    right after every such construction. *)
Theorem counters_broken_when_sort_fails :
  ∃ chan h' chan',
    same_upload_heap !! 1%positive = Some chan
    ∧ cls chan = Channel
    ∧ counters_ok same_upload_heap chan
    ∧ run same_upload_heap 1%positive [AddVideo 13 "c" false]
      = Raise TypeError
    ∧ Video_init_outcome same_upload_heap 13 "c" 1%positive false
      = Raised TypeError h'
    ∧ h' !! 1%positive = Some chan'
    ∧ child_list chan' = [2%positive; 3%positive; 4%positive]
    ∧ h' !! 4%positive = Some (new_video 13 "c" 1%positive)
    ∧ vid_count chan' = 2
    ∧ count_videos h' (λ _, true) (child_list chan') = 3
    ∧ ¬ counters_ok h' chan'.
Proof.
  eexists _, _, _.
  split; [reflexivity|]. split; [reflexivity|].
  split; [repeat split; vm_compute; reflexivity|].
  split; [vm_compute; reflexivity|].
  split; [vm_compute; reflexivity|].
  split; [reflexivity|]. split; [reflexivity|]. split; [reflexivity|].
  split; [reflexivity|]. split; [vm_compute; reflexivity|].
  intros [Hvid _]. vm_compute in Hvid. discriminate Hvid.
Qed.

(** ** Matching video names (claim C9) *)

(** The [re.sub] calls of [find_matching_video] do what the specification
    says. *)
Lemma sub_runs_collapse p s :
  sub_runs p " " false s = collapse_runs p s
  ∧ String " " (sub_runs p " " true s)
    = match s with
      | String c _ =>
          if p c then collapse_runs p s else String " " (collapse_runs p s)
      | EmptyString => " "
      end.
Proof.
  induction s as [|c s [IH1 IH2]]; [done|].
  cbn [sub_runs collapse_runs]. destruct (p c) eqn:Hc.
  - change (" " +:+ sub_runs p " " true s)
      with (String " " (sub_runs p " " true s)).
    rewrite IH2. by destruct s.
  - by rewrite IH1.
Qed.

Lemma re_sub_plus_collapse p s : re_sub_plus p " " s = collapse_runs p s.
Proof. apply sub_runs_collapse. Qed.

Lemma re_sub_bol_plus_drop p s : re_sub_bol_plus p "" s = str_drop_while p s.
Proof. by destruct s. Qed.

Lemma strip_right_empty p s :
  strip_right p s = EmptyString ↔ str_all p s = true.
Proof.
  induction s as [|c s IH]; cbn; [done|].
  destruct (strip_right p s) eqn:Hs.
  - destruct (p c); cbn; [tauto|]. split; [done|]. intros. discriminate.
  - split; [done|]. intros [_ Hall]%andb_true_iff.
    apply IH in Hall. discriminate.
Qed.

Lemma re_sub_plus_eol_strip p s : re_sub_plus_eol p "" s = strip_right p s.
Proof.
  induction s as [|c s IH]; cbn; [done|].
  destruct (str_all p s) eqn:Hall.
  - apply strip_right_empty in Hall. rewrite Hall.
    destruct (p c); cbn; [done|]. by rewrite IH, Hall.
  - rewrite andb_false_r, IH.
    destruct (strip_right p s) eqn:Hs; [|done].
    apply strip_right_empty in Hs. congruence.
Qed.

Lemma tidy_name_normalise s : tidy_name s = normalise_name s.
Proof.
  unfold tidy_name, normalise_name.
  by rewrite re_sub_plus_eol_strip, re_sub_bol_plus_drop,
    !re_sub_plus_collapse.
Qed.

(** Under the exact-match policy the test of the loop is equality of the
    two tidied names. *)
Lemma name_matches_exact first ignore child_name test_name :
  name_matches "exact_match" first ignore child_name test_name
    = bool_decide (child_name = test_name).
Proof.
  unfold name_matches. cbn. rewrite !orb_false_r.
  destruct (String.eqb_spec child_name test_name).
  - by rewrite bool_decide_eq_true_2.
  - by rewrite bool_decide_eq_false_2.
Qed.

Lemma find_matching_loop_exact (h : heap) first ignore test_name l :
  Forall (λ r, is_Some (h !! r)) l →
  ∃ res,
    find_matching_loop h "exact_match" first ignore test_name l = Ok res
    ∧ match res with
      | Some r =>
          ∃ i v,
            l !! i = Some r ∧ h !! r = Some v ∧ cls v = Video
            ∧ tidy_name (name v) = test_name
            ∧ ∀ j r' v',
                (j < i)%nat → l !! j = Some r' → h !! r' = Some v' →
                ¬ (cls v' = Video ∧ tidy_name (name v') = test_name)
      | None =>
          ∀ r v, r ∈ l → h !! r = Some v →
                 ¬ (cls v = Video ∧ tidy_name (name v) = test_name)
      end.
Proof.
  induction l as [|r l IH]; intros Hall; cbn.
  - exists None. split; [done|]. by intros r v ?%not_elem_of_nil.
  - apply Forall_cons in Hall as [[c Hc] Hall].
    rewrite (deref_Some _ _ _ Hc). cbn. rewrite name_matches_exact.
    destruct (isinstance c Video && bool_decide (tidy_name (name c) = test_name))
      eqn:Htest.
    + apply andb_true_iff in Htest as [Hv Hn].
      apply bool_decide_eq_true_1 in Hv, Hn.
      exists (Some r). split; [done|]. exists 0%nat, c.
      repeat split; [done..|]. intros; lia.
    + assert (Hno : ¬ (cls c = Video ∧ tidy_name (name c) = test_name)).
      { intros [Hv Hn]. unfold isinstance in Htest.
        by rewrite !bool_decide_eq_true_2 in Htest by done. }
      destruct (IH Hall) as (res & -> & Hres). exists res. split; [done|].
      destruct res as [r1|].
      * destruct Hres as (i & v & Hi & Hv & Hcv & Hn & Hbefore).
        exists (S i), v. repeat split; [done..|].
        intros [|j] r' v' Hj Hr' Hv'.
        -- cbn in Hr'. injection Hr' as <-. rewrite Hc in Hv'.
           by injection Hv' as <-.
        -- apply (Hbefore j r' v'); [lia|done..].
      * intros r' v' [->|Hin]%elem_of_cons Hv'.
        -- rewrite Hc in Hv'. by injection Hv' as <-.
        -- by apply (Hres r' v').
Qed.

(** C9: under the exact-match policy [find_matching_video] returns the
    first direct [Video] child, in the order of the child list, whose
    normalised name equals the normalised candidate, and [None] when there
    is no such child; the names are normalised as the specification says.
    In particular the tidied "Foo: Bar!" equals the tidied "Foo Bar" and
    differs from the tidied "FooBar" and "Foo Bar Baz". *)
Theorem find_matching_video_exact (h : heap) self s app_obj n :
  h !! self = Some s →
  Forall (λ r, is_Some (h !! r)) (child_list s) →
  match_method app_obj = "exact_match" →
  (∃ res,
     GenericContainer_find_matching_video h self app_obj n = Ok res
     ∧ match res with
       | Some r => first_matching_child h s (normalise_name n) r
       | None => no_matching_child h s (normalise_name n)
       end)
  ∧ tidy_name "Foo: Bar!" = tidy_name "Foo Bar"
  ∧ tidy_name "Foo: Bar!" ≠ tidy_name "FooBar"
  ∧ tidy_name "Foo: Bar!" ≠ tidy_name "Foo Bar Baz".
Proof.
  intros Hs Hall Hm. split; [|by vm_compute].
  unfold GenericContainer_find_matching_video.
  rewrite (deref_Some _ _ _ Hs). cbn. rewrite Hm.
  destruct (find_matching_loop_exact h (match_first_chars app_obj)
              (match_ignore_chars app_obj * -1) (tidy_name n) _ Hall)
    as (res & -> & Hres).
  exists res. split; [done|].
  unfold first_matching_child, no_matching_child.
  destruct res as [r|].
  - destruct Hres as (i & v & Hi & Hv & Hcv & Hn & Hbefore).
    exists i, v. rewrite <- !tidy_name_normalise. repeat split; [done..|].
    intros j r' v' Hj Hr' Hv'. rewrite <- tidy_name_normalise. eauto.
  - intros r v Hr Hv. rewrite <- !tidy_name_normalise. eauto.
Qed.

Lemma find_matching_video_exact_witness :
  (GenericContainer_find_matching_video names_heap 1%positive exact_app
     "Foo: Bar!" = Ok (Some 4%positive)
   ∧ first_matching_child names_heap
       (a_container Channel 11 "chan" None
          [2%positive; 3%positive; 4%positive; 5%positive] 4)
       "Foo Bar" 4%positive)
  ∧ tidy_name "Foo: Bar!" = tidy_name "Foo Bar"
  ∧ tidy_name "Foo: Bar!" ≠ tidy_name "FooBar"
  ∧ tidy_name "Foo: Bar!" ≠ tidy_name "Foo Bar Baz".
Proof.
  destruct (find_matching_video_exact names_heap 1%positive
              (a_container Channel 11 "chan" None
                 [2%positive; 3%positive; 4%positive; 5%positive] 4)
              exact_app "Foo: Bar!")
    as [(res & Hres & Hspec) Hexamples].
  - reflexivity.
  - apply (bool_decide_unpack _). vm_compute. exact I.
  - reflexivity.
  - split; [|exact Hexamples].
    assert (Hcomp : GenericContainer_find_matching_video names_heap
                      1%positive exact_app "Foo: Bar!" = Ok (Some 4%positive))
      by (vm_compute; reflexivity).
    split; [exact Hcomp|].
    rewrite Hcomp in Hres. injection Hres as <-. exact Hspec.
Defined.

(** ** Flat export (claim C7) *)

Lemma NoDup_fmap_eq {A B} (f : A → B) (l : list A) x y :
  NoDup (f <$> l) → x ∈ l → y ∈ l → f x = f y → x = y.
Proof.
  induction l as [|a l IH]; [by intros _ ?%not_elem_of_nil|].
  rewrite fmap_cons, NoDup_cons. intros [Ha Hl] Hx Hy Hf.
  apply elem_of_cons in Hx as [->|Hx], Hy as [->|Hy].
  - done.
  - exfalso. apply Ha. rewrite Hf. by apply list_elem_of_fmap_2.
  - exfalso. apply Ha. rewrite <- Hf. by apply list_elem_of_fmap_2.
  - by apply IH.
Qed.

Lemma unique_dbid_eq (h : heap) r1 r2 o1 o2 :
  unique_dbid h →
  h !! r1 = Some o1 → h !! r2 = Some o2 → dbid o1 = dbid o2 → r1 = r2.
Proof.
  intros Hu H1 H2 Hd.
  apply elem_of_map_to_list in H1, H2.
  by pose proof (NoDup_fmap_eq _ _ (r1, o1) (r2, o2) Hu H1 H2 Hd) as [= -> _].
Qed.

Lemma reached_inv (h : heap) ic ip r c :
  reached h ic ip r c →
  c = r
  ∨ ∃ o d od,
      h !! r = Some o ∧ passes_filter ic ip o = true ∧ d ∈ child_list o
      ∧ h !! d = Some od ∧ cls od ≠ Video ∧ reached h ic ip d c.
Proof. inversion 1; subst; [by left|right; eauto 10]. Qed.

Section FlatExport.
Context (h : heap) (iv ic ip : bool).
Hypothesis Huniq : unique_dbid h.

Lemma written_none W db :
  (∀ c o, W c → h !! c = Some o → exported ic ip o = false) →
  written h iv ic ip W db db.
Proof.
  intros Hno. split; [by left|].
  intros c o Hc Ho He. rewrite (Hno c o Hc Ho) in He. discriminate.
Qed.

Lemma written_iff W W' db db' :
  (∀ c, W c ↔ W' c) →
  written h iv ic ip W db db' → written h iv ic ip W' db db'.
Proof.
  intros HW [HA HB]. split.
  - intros k. destruct (HA k) as [|(c & o & Hc & ?)]; [by left|].
    right. exists c, o. by rewrite <- HW.
  - intros c o Hc. apply HB. by rewrite HW.
Qed.

Lemma written_trans W1 W2 db db1 db2 :
  written h iv ic ip W1 db db1 →
  written h iv ic ip W2 db1 db2 →
  written h iv ic ip (λ c, W1 c ∨ W2 c) db db2.
Proof.
  intros [HA1 HB1] [HA2 HB2]. split.
  - intros k. destruct (HA2 k) as [Hk2|(c & o & Hc & Ho & He & -> & Hk)].
    + rewrite Hk2.
      destruct (HA1 k) as [|(c & o & Hc & Ho & He & -> & Hk)]; [by left|].
      right. exists c, o. eauto 10.
    + right. exists c, o. eauto 10.
  - intros c o [Hc|Hc] Ho He; [|by apply (HB2 c)].
    destruct (HA2 (dbid o)) as [Hk|(c' & o' & Hc' & Ho' & He' & Hd & Hk)].
    + rewrite Hk. by apply (HB1 c).
    + assert (c = c') as <- by by apply (unique_dbid_eq h c c' o o').
      rewrite Ho in Ho'. by injection Ho' as <-.
Qed.

Lemma flat_remote_loop_folder_loop rec l child_dict db_dict :
  flat_remote_loop rec h iv l child_dict db_dict
  = (db_dict' ← flat_folder_loop rec h l db_dict;
     Ok (video_dict h iv l child_dict, db_dict')).
Proof.
  revert child_dict db_dict.
  induction l as [|r l IH]; intros child_dict db_dict; cbn; [done|].
  unfold deref. destruct (h !! r) as [c|]; cbn; [|done].
  destruct (isinstance c Video); cbn.
  - destruct (iv && bool_decide (source c ≠ None)); apply IH.
  - destruct (rec r db_dict); cbn; [apply IH|done].
Qed.

Lemma flat_folder_loop_written rec l db :
  (∀ d, d ∈ l →
     ∃ od, h !! d = Some od
           ∧ (cls od ≠ Video →
              ∀ db, ∃ db', rec d db = Ok db'
                           ∧ written h iv ic ip (reached h ic ip d) db db')) →
  ∃ db',
    flat_folder_loop rec h l db = Ok db'
    ∧ written h iv ic ip
        (λ c, ∃ d od, d ∈ l ∧ h !! d = Some od ∧ cls od ≠ Video
                      ∧ reached h ic ip d c)
        db db'.
Proof.
  revert db. induction l as [|r l IH]; intros db Hrec; cbn.
  - exists db. split; [done|]. apply written_none.
    by intros c o (d & od & ?%not_elem_of_nil & _).
  - destruct (Hrec r) as (o & Ho & Hcall); [by left|].
    rewrite (deref_Some _ _ _ Ho). cbn.
    destruct (IH db) as (dbv & Hv & Hwv);
      [intros d Hd; apply Hrec; by right|].
    destruct (decide (cls o = Video)) as [Hvid|Hvid].
    + rewrite (isinstance_true _ _ Hvid). cbn.
      exists dbv. split; [done|].
      eapply written_iff; [|exact Hwv]. intros c. split.
      * intros (d & od & Hd & ?). exists d, od. split; [by right|done].
      * intros (d & od & [->|Hd]%elem_of_cons & Hod & Hcod & Hr).
        -- congruence.
        -- by exists d, od.
    + rewrite (isinstance_false _ _ Hvid). cbn.
      destruct (Hcall Hvid db) as (db1 & -> & Hw1). cbn.
      destruct (IH db1) as (db2 & -> & Hw2);
        [intros d Hd; apply Hrec; by right|].
      exists db2. split; [done|].
      eapply written_iff; [|exact (written_trans _ _ _ _ _ Hw1 Hw2)].
      intros c. split.
      * intros [Hr|(d & od & Hd & ?)].
        -- exists r, o. split; [by left|done].
        -- exists d, od. split; [by right|done].
      * intros (d & od & [->|Hd]%elem_of_cons & Hod & Hcod & Hr).
        -- by left.
        -- right. by exists d, od.
Qed.

(** With enough fuel the export of any object returns, and what it adds to
    the top-level dictionary are the documents of the exported channels and
    playlists that it reaches. *)
Lemma prepare_flat_export_written n :
  ∀ r db,
    bounded n h r = true →
    ∃ db',
      GenericContainer_prepare_flat_export n h r db iv ic ip = Ok db'
      ∧ written h iv ic ip (reached h ic ip r) db db'.
Proof.
  induction n as [|n IH]; intros r db Hb; [discriminate|].
  cbn in Hb. destruct (h !! r) as [o|] eqn:Ho; [|discriminate].
  cbn [GenericContainer_prepare_flat_export].
  rewrite (deref_Some _ _ _ Ho). cbn.
  (* what the loop over the children does *)
  assert (Hloop : ∀ db,
    ∃ db', flat_folder_loop
             (λ child_obj db_dict,
                GenericContainer_prepare_flat_export n h child_obj db_dict
                  iv ic ip) h (child_list o) db = Ok db'
           ∧ written h iv ic ip
               (λ c, ∃ d od, d ∈ child_list o ∧ h !! d = Some od
                             ∧ cls od ≠ Video ∧ reached h ic ip d c)
               db db').
  { intros db0. apply flat_folder_loop_written. intros d Hd.
    rewrite forallb_forall in Hb.
    assert (Hbd : bounded n h d = true) by by apply Hb, list_elem_of_In.
    assert (∃ od, h !! d = Some od) as [od Hod].
    { destruct n; [discriminate|]. cbn in Hbd.
      destruct (h !! d); [eauto|discriminate]. }
    exists od. split; [done|]. intros _ db1. by apply IH. }
  (* an object that does not pass the filter adds nothing *)
  assert (Hstop : passes_filter ic ip o = false →
            written h iv ic ip (reached h ic ip r) db db).
  { intros Hf. apply written_none. intros c o' Hc Ho'.
    apply reached_inv in Hc as [->|(o1 & d & od & Ho1 & Hp & _)].
    - rewrite Ho in Ho'. injection Ho' as <-.
      revert Hf. unfold passes_filter, exported. by destruct (cls o).
    - rewrite Ho in Ho1. injection Ho1 as <-. congruence. }
  (* the objects reached from one that passes the filter *)
  assert (Hreach : passes_filter ic ip o = true → ∀ c,
            (c = r ∨ ∃ d od, d ∈ child_list o ∧ h !! d = Some od
                             ∧ cls od ≠ Video ∧ reached h ic ip d c)
            ↔ reached h ic ip r c).
  { intros Hf c. split.
    - intros [->|(d & od & Hd & Hod & Hcod & Hr)]; [constructor|].
      by apply (reached_below h ic ip r o d od c).
    - intros Hr.
      apply reached_inv in Hr as [->|(o1 & d & od & Ho1 & _ & Hr)];
        [by left|].
      rewrite Ho in Ho1. injection Ho1 as <-. right. by exists d, od. }
  (* a channel or playlist that passes the filter *)
  assert (Hremote : ∀ media_type : string,
    passes_filter ic ip o = true → exported ic ip o = true →
    flat_doc h iv o = container_mini_dict media_type o
                        (video_dict h iv (child_list o) ∅) →
    ∃ db',
      (res ← flat_remote_loop
                (λ child_obj db_dict,
                   GenericContainer_prepare_flat_export n h child_obj db_dict
                     iv ic ip) h iv (child_list o) ∅ db;
       Ok (<[dbid o := container_mini_dict media_type o res.1]> res.2))
      = Ok db'
      ∧ written h iv ic ip (reached h ic ip r) db db').
  { intros media_type Hf He Hdoc.
    rewrite flat_remote_loop_folder_loop.
    destruct (Hloop db) as (db1 & -> & [HA HB]). cbn. rewrite <- Hdoc.
    eexists. split; [done|]. split.
    - intros k. destruct (decide (k = dbid o)) as [->|Hk].
      + right. exists r, o. rewrite lookup_insert_eq.
        repeat split; [constructor|done..].
      + rewrite lookup_insert_ne by done.
        destruct (HA k) as [|(c & o' & Hc & Ho' & He' & -> & Hk')];
          [by left|].
        right. exists c, o'. repeat split; [|done..].
        apply (Hreach Hf). by right.
    - intros c o' Hc Ho' He'.
      apply (Hreach Hf) in Hc as [->|Hc].
      + rewrite Ho in Ho'. injection Ho' as <-. by rewrite lookup_insert_eq.
      + destruct (decide (dbid o = dbid o')) as [Hd|Hd].
        * assert (r = c) as <- by by apply (unique_dbid_eq h r c o o').
          rewrite Ho in Ho'. injection Ho' as <-.
          by rewrite lookup_insert_eq.
        * rewrite lookup_insert_ne by done. by apply (HB c). }
  destruct (cls o) eqn:Hcls.
  - exists db. split; [done|]. apply Hstop.
    unfold passes_filter. by rewrite Hcls.
  - destruct ic eqn:Hic; cbn.
    + apply Hremote.
      * unfold passes_filter. by rewrite Hcls.
      * unfold exported. by rewrite Hcls.
      * unfold flat_doc. by rewrite (isinstance_true _ _ Hcls).
    + exists db. split; [done|]. apply Hstop.
      unfold passes_filter. by rewrite Hcls.
  - destruct ip eqn:Hip; cbn.
    + apply Hremote.
      * unfold passes_filter. by rewrite Hcls.
      * unfold exported. by rewrite Hcls.
      * unfold flat_doc. rewrite isinstance_false; [done|congruence].
    + exists db. split; [done|]. apply Hstop.
      unfold passes_filter. by rewrite Hcls.
  - destruct (fixed_flag o) eqn:Hfix.
    + exists db. split; [done|]. apply Hstop.
      unfold passes_filter. by rewrite Hcls, Hfix.
    + assert (Hf : passes_filter ic ip o = true).
      { unfold passes_filter. by rewrite Hcls, Hfix. }
      destruct (Hloop db) as (db1 & -> & [HA HB]).
      exists db1. split; [done|]. split.
      * intros k. destruct (HA k) as [|(c & o' & Hc & ?)]; [by left|].
        right. exists c, o'. split; [|done]. apply (Hreach Hf). by right.
      * intros c o' Hc Ho' He'.
        apply (Hreach Hf) in Hc as [->|Hc]; [|by apply (HB c)].
        rewrite Ho in Ho'. injection Ho' as <-.
        unfold exported in He'. by rewrite Hcls in He'.
Qed.

(** The document of a channel or playlist holds, under its id, each direct
    video child with a known source, when videos are included. *)
Lemma video_dict_lookup l v ov :
  h !! v = Some ov → cls ov = Video → source ov ≠ None → iv = true →
  ∀ child_dict,
    v ∈ l ∨ child_dict !! dbid ov = Some (video_mini_dict ov) →
    video_dict h iv l child_dict !! dbid ov = Some (video_mini_dict ov).
Proof.
  intros Hv Hcv Hsrc ->. unfold video_dict.
  induction l as [|r l IH]; intros child_dict Hin; cbn.
  - by destruct Hin as [?%not_elem_of_nil|].
  - apply IH. destruct Hin as [[->|Hin]%elem_of_cons|Hcd].
    + right. rewrite Hv, (isinstance_true _ _ Hcv). cbn.
      rewrite bool_decide_eq_true_2 by done. by rewrite lookup_insert_eq.
    + by left.
    + right. destruct (h !! r) as [c|] eqn:Hr; [|done].
      destruct (isinstance c Video && true && bool_decide (source c ≠ None));
        [|done].
      destruct (decide (dbid c = dbid ov)) as [Hd|Hd].
      * assert (r = v) as -> by by apply (unique_dbid_eq h r v c ov).
        rewrite Hv in Hr. injection Hr as <-. by rewrite lookup_insert_eq.
      * by rewrite lookup_insert_ne.
Qed.

(** Every document in the document of a channel or playlist is that of one
    of its direct video children. *)
Lemma video_dict_origin l k d :
  ∀ child_dict,
    video_dict h iv l child_dict !! k = Some d →
    child_dict !! k = Some d
    ∨ ∃ v ov, v ∈ l ∧ h !! v = Some ov ∧ cls ov = Video
              ∧ k = dbid ov ∧ d = video_mini_dict ov.
Proof.
  unfold video_dict.
  induction l as [|r l IH]; intros child_dict Hk; cbn in Hk; [by left|].
  apply IH in Hk as [Hk|(v & ov & Hv & ?)].
  - destruct (h !! r) as [c|] eqn:Hr; [|by left].
    destruct (isinstance c Video) eqn:Hc; cbn in Hk; [|by left].
    destruct (iv && bool_decide (source c ≠ None)); [|by left].
    destruct (decide (dbid c = k)) as [<-|Hne].
    + rewrite lookup_insert_eq in Hk. injection Hk as <-.
      right. exists r, c. split; [by left|].
      by apply bool_decide_eq_true_1 in Hc.
    + rewrite lookup_insert_ne in Hk by done. by left.
  - right. exists v, ov. split; [by right|done].
Qed.

End FlatExport.

(** C7 as stated fails: the flat export of the folder "Root", with videos,
    channels and playlists included, yields the document of the channel
    "C1" with its one video of known source and nothing else; the video
    with id 2, whose parent is the folder and whose source is known, is in
    no document. *)
Lemma flat_export_skips_video_of_folder :
  ∃ f v,
    export_heap !! 1%positive = Some f
    ∧ cls f = Folder ∧ fixed_flag f = false
    ∧ 2%positive ∈ child_list f
    ∧ export_heap !! 2%positive = Some v
    ∧ cls v = Video ∧ dbid v = 2 ∧ source v = Some "http://tube/b"
    ∧ GenericContainer_prepare_flat_export 3 export_heap 1%positive ∅
        true true true
      = Ok {[ 3 := Doc "channel" 3 "C1" (Some "C1") None
                     {[ 4 := Doc "video" 4 "d" None (Some "http://tube/d")
                                 ∅ ]} ]}.
Proof.
  eexists _, _. split; [reflexivity|].
  repeat split; first [by left | vm_compute; reflexivity].
Qed.

(** C7, amended: the flat export of a folder that is not fixed returns (on
    a store without cycles and with distinct ids); the only entries of the
    top-level dictionary that it changes are documents of channels and
    playlists, so the folder has no document of its own; every channel or
    playlist of an included kind that is reached from the folder through
    objects that pass the filter (folders that are not fixed) has its
    document in the top-level dictionary under its own id, and that
    document holds, under the video's own id, each direct video child
    whose source is known, when videos are included, and the documents of
    such children only: a video whose parent is a folder is in no
    document. *)
Theorem flat_export_splices n (h : heap) root f db iv ic ip :
  unique_dbid h →
  h !! root = Some f →
  cls f = Folder →
  fixed_flag f = false →
  bounded n h root = true →
  ∃ db',
    GenericContainer_prepare_flat_export n h root db iv ic ip = Ok db'
    ∧ (∀ k, db' !! k = db !! k
            ∨ ∃ c o, reached h ic ip root c ∧ h !! c = Some o
                     ∧ exported ic ip o = true ∧ k = dbid o
                     ∧ db' !! k = Some (flat_doc h iv o))
    ∧ (∀ k d, db' !! k = Some d →
              db !! k = Some d
              ∨ doc_type d = "channel" ∨ doc_type d = "playlist")
    ∧ (∀ c o,
         reached h ic ip root c → h !! c = Some o →
         exported ic ip o = true →
         db' !! dbid o = Some (flat_doc h iv o)
         ∧ doc_dbid (flat_doc h iv o) = dbid o
         ∧ (∀ v ov,
              iv = true → v ∈ child_list o → h !! v = Some ov →
              cls ov = Video → source ov ≠ None →
              doc_db_dict (flat_doc h iv o) !! dbid ov
                = Some (video_mini_dict ov))
         ∧ (∀ k d,
              doc_db_dict (flat_doc h iv o) !! k = Some d →
              ∃ v ov, v ∈ child_list o ∧ h !! v = Some ov ∧ cls ov = Video
                      ∧ k = dbid ov ∧ d = video_mini_dict ov)).
Proof.
  intros Hu Hf Hcls Hfix Hb.
  destruct (prepare_flat_export_written h iv ic ip Hu n root db Hb)
    as (db' & Hexp & HA & HB).
  exists db'. split; [done|]. split; [done|]. split.
  - intros k d Hk. destruct (HA k) as [Hsame|(c & o & _ & _ & _ & _ & Hdoc)].
    + left. by rewrite <- Hsame.
    + right. rewrite Hk in Hdoc. injection Hdoc as ->.
      unfold flat_doc. destruct (isinstance o Channel); cbn; auto.
  - intros c o Hc Ho He. split; [by apply (HB c)|]. split; [done|]. split.
    + intros v ov Hiv Hv Hov Hcv Hsrc. cbn.
      apply (video_dict_lookup h iv Hu _ v ov); auto.
    + intros k d Hk. cbn in Hk.
      by apply video_dict_origin in Hk as [?|?].
Qed.

Lemma flat_export_splices_witness :
  ∃ db',
    GenericContainer_prepare_flat_export 3 export_heap 1%positive ∅
      true true true = Ok db'
    ∧ (∀ k d, db' !! k = Some d →
              (∅ : gmap Z doc) !! k = Some d
              ∨ doc_type d = "channel" ∨ doc_type d = "playlist")
    ∧ db' !! 3 = Some (flat_doc export_heap true
                         (a_container Channel 3 "C1" (Some 1%positive)
                            [4%positive; 5%positive] 2))
    ∧ doc_db_dict (flat_doc export_heap true
                     (a_container Channel 3 "C1" (Some 1%positive)
                        [4%positive; 5%positive] 2)) !! 4
      = Some (Doc "video" 4 "d" None (Some "http://tube/d") ∅).
Proof.
  destruct (flat_export_splices 3 export_heap 1%positive
              (a_container Folder 1 "Root" None [2%positive; 3%positive] 1)
              ∅ true true true)
    as (db' & Hexp & _ & Htypes & Hdocs).
  - apply (bool_decide_unpack _). vm_compute. exact I.
  - reflexivity.
  - reflexivity.
  - reflexivity.
  - reflexivity.
  - exists db'. split; [exact Hexp|]. split; [exact Htypes|].
    destruct (Hdocs 3%positive
                (a_container Channel 3 "C1" (Some 1%positive)
                   [4%positive; 5%positive] 2))
      as (Hdoc & _ & Hvideos & _).
    + apply (reached_below export_heap true true 1%positive
               (a_container Folder 1 "Root" None [2%positive; 3%positive] 1)
               3%positive
               (a_container Channel 3 "C1" (Some 1%positive)
                  [4%positive; 5%positive] 2));
        [reflexivity | reflexivity | | reflexivity | discriminate
        | apply reached_here].
      right. left.
    + reflexivity.
    + reflexivity.
    + split; [exact Hdoc|].
      apply (Hvideos 4%positive
               (a_video 4 "d" 3%positive (Some 200) None None
                  (Some "http://tube/d")));
        [reflexivity | left | reflexivity | reflexivity | discriminate].
Defined.

(** ** Constructed containers *)

(** [add_child] changes the store at the receiver only. *)
Lemma add_child_others (h h' : heap) obj child_obj no_sort_flag :
  add_child h obj child_obj no_sort_flag = Ok h' →
  ∀ r, r ≠ obj → h' !! r = h !! r.
Proof.
  unfold add_child. intros Hadd.
  apply bind_Ok in Hadd as (o & Ho%deref_Ok & Hadd).
  set (s1 := with_child_list (child_list o ++ [child_obj]) o).
  assert (Hs1 : <[obj := s1]> h !! obj = Some s1) by apply lookup_insert_eq.
  assert (Hfinish : ∀ h2 : heap,
    (∀ r, r ≠ obj → h2 !! r = h !! r) →
    (c ← deref h2 child_obj;
     if isinstance c Video then
       s2 ← deref h2 obj;
       Ok (<[obj := with_vid_count (vid_count s2 + 1) s2]> h2)
     else Ok h2) = Ok h' →
    ∀ r, r ≠ obj → h' !! r = h !! r).
  { intros h2 H2 Hfin. apply bind_Ok in Hfin as (c & _ & Hfin).
    destruct (isinstance c Video).
    - apply bind_Ok in Hfin as (s2 & _ & [= <-]).
      intros r Hr. rewrite lookup_insert_ne by done. by apply H2.
    - by injection Hfin as <-. }
  assert (H1 : ∀ r, r ≠ obj → <[obj := s1]> h !! r = h !! r).
  { intros r Hr. by rewrite lookup_insert_ne. }
  destruct (cls o); [discriminate| | |].
  1,2: unfold GenericRemoteContainer_add_child in Hadd;
    rewrite (deref_Some _ _ _ Ho) in Hadd; cbn in Hadd;
    apply bind_Ok in Hadd as (c & _ & Hadd);
    destruct (isinstance c Video || bool_decide (child_obj ∈ child_list o));
    [|by injection Hadd as <-];
    apply bind_Ok in Hadd as (h2 & Hsort & Hadd);
    apply (Hfinish h2); [|done];
    destruct no_sort_flag; cbn in Hsort;
    [by injection Hsort as <-|];
    destruct (remote_sort_children_perm _ _ _ _ Hs1 Hsort) as (l' & _ & ->);
    intros r Hr; by rewrite insert_insert_eq, lookup_insert_ne.
  unfold Folder_add_child in Hadd.
  rewrite (deref_Some _ _ _ Ho) in Hadd. cbn in Hadd.
  destruct (negb (bool_decide (child_obj ∈ child_list o)));
    [|by injection Hadd as <-].
  apply bind_Ok in Hadd as (h2 & Hsort & Hadd).
  apply (Hfinish h2); [|done].
  destruct no_sort_flag; cbn in Hsort; [by injection Hsort as <-|].
  destruct (Folder_sort_children_perm _ _ _ _ Hs1 Hsort) as (l' & _ & ->).
  intros r Hr. by rewrite insert_insert_eq, lookup_insert_ne.
Qed.

(** A channel, playlist or folder that its constructor returns, under a
    parent that is an object of the store or under none, has its counters
    right and a child list that can be sorted. *)
Lemma container_init_counters c (h h' : heap) d n parent fixed priv self :
  (∀ p, parent = Some p → is_Some (h !! p)) →
  container_init c h d n parent fixed priv = Ok (self, h') →
  h' !! self = Some (new_container c d n parent fixed priv)
  ∧ sortable h' (new_container c d n parent fixed priv)
  ∧ counters_ok h' (new_container c d n parent fixed priv).
Proof.
  intros Hparent. unfold container_init.
  set (y := fresh (dom h)).
  assert (Hy : y ∉ dom h) by apply is_fresh.
  intros Hinit. split; [|apply new_container_counters].
  destruct parent as [p|].
  - apply bind_Ok in Hinit as (h2 & Hadd & [= <- <-]).
    rewrite (add_child_others _ _ _ _ _ Hadd); [apply lookup_insert_eq|].
    intros ->. apply Hy, elem_of_dom. by apply Hparent.
  - injection Hinit as <- <-. apply lookup_insert_eq.
Qed.

(** ** Recalculating the counters *)

Lemma with_counts_eq vc bc dc fc nc wc vc' bc' dc' fc' nc' wc' s :
  vc = vc' → bc = bc' → dc = dc' → fc = fc' → nc = nc' → wc = wc' →
  with_counts vc bc dc fc nc wc s = with_counts vc' bc' dc' fc' nc' wc' s.
Proof. by intros -> -> -> -> -> ->. Qed.

(** The loop of [recalculate_counts] adds to each counter the number of
    videos among the children that it is for. *)
Lemma recalculate_loop_counts (h : heap) self s l :
  h !! self = Some s → cls s ≠ Video →
  Forall (λ r, is_Some (h !! r)) l →
  ∀ vc bc dc fc nc wc,
    recalculate_loop (<[self := with_counts vc bc dc fc nc wc s]> h) self l
    = Ok (<[self := with_counts
                      (vc + count_videos h (λ _, true) l)
                      (bc + count_videos h bookmark_flag l)
                      (dc + count_videos h dl_flag l)
                      (fc + count_videos h fav_flag l)
                      (nc + count_videos h new_flag l)
                      (wc + count_videos h waiting_flag l) s]> h).
Proof.
  intros Hs Hc. induction l as [|r l IH]; intros Hall vc bc dc fc nc wc.
  - cbn. do 2 f_equal. apply with_counts_eq; lia.
  - apply Forall_cons in Hall as [[c Hr] Hall]. cbn [recalculate_loop].
    destruct (decide (self = r)) as [<-|Hne].
    + rewrite deref_insert_eq. cbn [mbind result_bind].
      rewrite isinstance_false by done. rewrite (IH Hall).
      do 2 f_equal. cbn [count_videos]. unfold is_video_with at 1 2 3 4 5 6.
      rewrite Hs, (isinstance_false _ _ Hc). cbn.
      apply with_counts_eq; lia.
    + rewrite (deref_insert_ne _ self r) by done.
      rewrite (deref_Some _ _ _ Hr). cbn [mbind result_bind].
      cbn [count_videos]. unfold is_video_with at 1 2 3 4 5 6. rewrite Hr.
      destruct (isinstance c Video) eqn:Hv.
      * rewrite deref_insert_eq. cbn [mbind result_bind].
        rewrite insert_insert_eq.
        change (with_counts ?a ?b ?c ?d ?e ?f (with_counts _ _ _ _ _ _ s))
          with (with_counts a b c d e f s).
        cbn [vid_count bookmark_count dl_count fav_count new_count
             waiting_count with_counts].
        rewrite (IH Hall). do 2 f_equal. cbn [andb].
        apply with_counts_eq;
          first [ lia
                | destruct (bookmark_flag c); lia
                | destruct (dl_flag c); lia
                | destruct (fav_flag c); lia
                | destruct (new_flag c); lia
                | destruct (waiting_flag c); lia ].
      * by rewrite (IH Hall).
Qed.

(** X1: [recalculate_counts] on a container whose children are in the store
    returns, changes nothing but the six counters of the container, and
    leaves each counter equal to the number of the container's direct
    [Video] children with the flag the counter is for, whatever the
    counters held before. *)
Theorem recalculate_counts_counters_ok (h : heap) self s :
  h !! self = Some s →
  cls s ≠ Video →
  Forall (λ r, is_Some (h !! r)) (child_list s) →
  ∃ vc bc dc fc nc wc,
    GenericContainer_recalculate_counts h self
    = Ok (<[self := with_counts vc bc dc fc nc wc s]> h)
    ∧ counters_ok (<[self := with_counts vc bc dc fc nc wc s]> h)
        (with_counts vc bc dc fc nc wc s).
Proof.
  intros Hs Hc Hall. unfold GenericContainer_recalculate_counts.
  rewrite (deref_Some _ _ _ Hs). cbn [mbind result_bind].
  rewrite (recalculate_loop_counts h self s _ Hs Hc Hall).
  do 6 eexists. split; [done|].
  unfold counters_ok. cbn [vid_count bookmark_count dl_count fav_count
    new_count waiting_count child_list with_counts].
  repeat split;
    (rewrite Z.add_0_l; apply count_videos_ext; intros r _; symmetry;
     by apply is_video_with_insert_container with (s := s)).
Qed.

Lemma recalculate_counts_counters_ok_witness :
  ∃ vc bc dc fc nc wc,
    GenericContainer_recalculate_counts counted_heap 1%positive
    = Ok (<[1%positive := with_counts vc bc dc fc nc wc counted_folder]>
            counted_heap)
    ∧ counters_ok
        (<[1%positive := with_counts vc bc dc fc nc wc counted_folder]>
           counted_heap)
        (with_counts vc bc dc fc nc wc counted_folder).
Proof.
  apply (recalculate_counts_counters_ok counted_heap 1%positive
           counted_folder).
  - reflexivity.
  - discriminate.
  - apply (bool_decide_unpack _). vm_compute. exact I.
Defined.

(** X2: on a container whose counters are right already,
    [recalculate_counts] leaves the whole store as it is. *)
Theorem recalculate_counts_fixpoint (h : heap) self s :
  h !! self = Some s →
  cls s ≠ Video →
  Forall (λ r, is_Some (h !! r)) (child_list s) →
  counters_ok h s →
  GenericContainer_recalculate_counts h self = Ok h.
Proof.
  intros Hs Hc Hall (H1 & H2 & H3 & H4 & H5 & H6).
  unfold GenericContainer_recalculate_counts.
  rewrite (deref_Some _ _ _ Hs). cbn [mbind result_bind].
  rewrite (recalculate_loop_counts h self s _ Hs Hc Hall).
  rewrite !Z.add_0_l, <- H1, <- H2, <- H3, <- H4, <- H5, <- H6.
  f_equal. apply insert_id. rewrite Hs. f_equal. by destruct s.
Qed.

Lemma recalculate_counts_fixpoint_witness :
  GenericContainer_recalculate_counts counted_heap 1%positive
  = Ok counted_heap.
Proof.
  apply (recalculate_counts_fixpoint counted_heap 1%positive counted_folder).
  - reflexivity.
  - discriminate.
  - apply (bool_decide_unpack _). vm_compute. exact I.
  - vm_compute. repeat split.
Defined.

(** ** The tree: depth and favourite ancestors *)

Lemma depth_loop_ancestors (h : heap) o names :
  ancestors h o names →
  ∀ fuel level, (length names < fuel)%nat →
    depth_loop fuel h (parent_obj o) level
    = Ok (level + Z.of_nat (length names)).
Proof.
  induction 1 as [o Hroot | o p po names Hp Hpo _ IH]; intros fuel level Hf.
  - destruct fuel; [lia|]. cbn. rewrite Hroot. f_equal. lia.
  - rewrite length_app in *. cbn [length] in *.
    destruct fuel; [lia|]. cbn [depth_loop]. rewrite Hp.
    rewrite (deref_Some _ _ _ Hpo). cbn [mbind result_bind].
    rewrite IH by lia. f_equal. lia.
Qed.

(** X3: the level that [get_depth] returns for a container is one more
    than the number of its ancestors, those that [get_default_dir] names in
    the path of the container. *)
Theorem get_depth_ancestors (fuel : nat) (h : heap) self s names :
  h !! self = Some s →
  ancestors h s names →
  (length names < fuel)%nat →
  GenericContainer_get_depth fuel h self
  = Ok (1 + Z.of_nat (length names)).
Proof.
  intros Hs Hanc Hf. unfold GenericContainer_get_depth.
  rewrite (deref_Some _ _ _ Hs). cbn [mbind result_bind].
  pose proof (depth_loop_ancestors h s names Hanc fuel 1 Hf) as Hloop.
  destruct (parent_obj s) eqn:Hp; [done|].
  inversion Hanc as [? _|? ? ? ? Hp']; [done|]. rewrite Hp in Hp'. done.
Qed.

Lemma get_depth_ancestors_witness :
  GenericContainer_get_depth 3 tree_heap 3%positive = Ok 3.
Proof.
  refine (get_depth_ancestors 3 tree_heap 3%positive
            (a_container Channel 3 "Chan" (Some 2%positive)
               [5%positive; 6%positive] 2)
            ([] ++ ["Top"] ++ ["Mid"]) eq_refl _ _).
  - eapply (ancestors_step tree_heap _ 2%positive
              (a_container Folder 2 "Mid" (Some 1%positive)
                 [3%positive; 4%positive] 0) ([] ++ ["Top"]));
      [reflexivity | reflexivity |].
    eapply (ancestors_step tree_heap _ 1%positive
              (Media Folder None 1 "Top" "Top" None
                 false false true false false None None None
                 [2%positive] 1 [] 0 0 0 0 0 0 false false) []);
      [reflexivity | reflexivity |].
    by apply ancestors_root.
  - cbn. lia.
Defined.

Lemma favourite_loop_lineage (h : heap) o l :
  lineage h o l →
  ∀ fuel, (length l < fuel)%nat →
    favourite_loop fuel h (parent_obj o) = Ok (existsb fav_flag l).
Proof.
  induction 1 as [o Hroot | o p po l Hp Hpo _ IH]; intros fuel Hf.
  - destruct fuel; [lia|]. cbn. by rewrite Hroot.
  - cbn [length] in Hf. destruct fuel; [lia|]. cbn [favourite_loop].
    rewrite Hp, (deref_Some _ _ _ Hpo). cbn [mbind result_bind existsb].
    destruct (fav_flag po); [done|]. cbn. apply IH. lia.
Qed.

(** X4: [ancestor_is_favourite] returns [True] exactly when one of the
    objects above the video, its parent or a parent of a parent, is marked
    as a favourite. *)
Theorem ancestor_is_favourite_lineage (fuel : nat) (h : heap) self s l :
  h !! self = Some s →
  lineage h s l →
  (length l < fuel)%nat →
  ∃ b, Video_ancestor_is_favourite fuel h self = Ok b
       ∧ (b = true ↔ ∃ a, a ∈ l ∧ fav_flag a = true).
Proof.
  intros Hs Hl Hf. exists (existsb fav_flag l). split.
  - unfold Video_ancestor_is_favourite. rewrite (deref_Some _ _ _ Hs).
    cbn [mbind result_bind]. by apply favourite_loop_lineage.
  - rewrite existsb_exists. split; intros (a & Ha & Hfav); exists a;
      (split; [by apply list_elem_of_In|done]).
Qed.

Lemma ancestor_is_favourite_lineage_witness :
  ∃ b, Video_ancestor_is_favourite 4 tree_heap 5%positive = Ok b
       ∧ (b = true ↔
          ∃ a, a ∈ [a_container Channel 3 "Chan" (Some 2%positive)
                      [5%positive; 6%positive] 2;
                    a_container Folder 2 "Mid" (Some 1%positive)
                      [3%positive; 4%positive] 0;
                    Media Folder None 1 "Top" "Top" None
                      false false true false false None None None
                      [2%positive] 1 [] 0 0 0 0 0 0 false false]
               ∧ fav_flag a = true).
Proof.
  refine (ancestor_is_favourite_lineage 4 tree_heap 5%positive
            (a_video 5 "e" 3%positive None None None None) _ eq_refl _ _).
  - eapply (lineage_step tree_heap _ 3%positive);
      [reflexivity | reflexivity |].
    eapply (lineage_step tree_heap _ 2%positive);
      [reflexivity | reflexivity |].
    eapply (lineage_step tree_heap _ 1%positive);
      [reflexivity | reflexivity |].
    by apply lineage_root.
  - cbn. lia.
Defined.

(** ** The traversals of the tree *)

Lemma count_class_app (h : heap) c l1 l2 :
  count_class h c (l1 ++ l2) = count_class h c l1 + count_class h c l2.
Proof. induction l1 as [|r l1 IH]; cbn; [done|]. rewrite IH. lia. Qed.

Lemma census_eq a b c d e a' b' c' d' e' :
  a = a' → b = b' → c = c' → d = d' → e = e' →
  Census a b c d e = Census a' b' c' d' e'.
Proof. by intros -> -> -> -> ->. Qed.

Lemma below_nil (h : heap) c : ¬ below h [] c.
Proof. intros (d & Hd & _). by apply not_elem_of_nil in Hd. Qed.

Lemma below_cons (h : heap) d l c :
  below h (d :: l) c
  ↔ c = d ∨ (is_container h d ∧ descendant h d c) ∨ below h l c.
Proof.
  unfold below. split.
  - intros (d' & [->|Hd']%elem_of_cons & Hc).
    + destruct Hc as [->|Hc]; [by left|by right; left].
    + right; right. by exists d'.
  - intros [->|[Hc|(d' & Hd' & Hc)]].
    + exists d. split; [left|by left].
    + exists d. split; [left|by right].
    + exists d'. split; [by right|done].
Qed.

Lemma descendant_iff_below (h : heap) r c :
  descendant h r c ↔ ∃ o, h !! r = Some o ∧ below h (child_list o) c.
Proof.
  split.
  - intros Hd. destruct Hd as [r o c Hr Hc | r o d od c Hr Hd Hod Hcls Hdc].
    + exists o. split; [done|]. exists c. split; [done|by left].
    + exists o. split; [done|]. exists d. split; [done|]. right.
      split; [by exists od|done].
  - intros (o & Hr & d & Hd & [->|[(od & Hod & Hcls) Hdc]]).
    + by eapply descendant_child.
    + by eapply descendant_below.
Qed.

Lemma is_video_not_container (h : heap) r :
  is_video h r → is_container h r → False.
Proof. intros (o & Ho & Hv) (o' & Ho' & Hc). congruence. Qed.

Lemma videos_held_app (h : heap) l1 l2 :
  videos_held h (l1 ++ l2) = videos_held h l1 + videos_held h l2.
Proof. induction l1 as [|c l1 IH]; cbn; [done|]. rewrite IH. lia. Qed.

(** The three loops over a list of children, given what the recursive calls
    do on the containers among them. *)
Lemma traversal_loops (h : heap) recv recc recn l :
  Forall (λ d, is_Some (h !! d)) l →
  (∀ d, d ∈ l → is_container h d →
        ∃ vs cs, traversal_spec h recv recc recn d vs cs) →
  ∃ vs cs,
    (∀ vl0, videos_loop recv h l vl0 = Ok (vl0 ++ vs))
    ∧ (∀ cl0, containers_loop recc h l cl0 = Ok (cl0 ++ cs))
    ∧ (∀ n0, count_loop recn h l n0 = Ok (census_plus h n0 vs cs))
    ∧ (∀ v, v ∈ vs ↔ below h l v ∧ is_video h v)
    ∧ (∀ c, c ∈ cs ↔ below h l c ∧ is_container h c)
    ∧ Z.of_nat (length vs)
      = count_videos h (λ _, true) l + videos_held h cs.
Proof.
  induction l as [|d l IH]; intros Hall Hrec.
  - exists [], []. split_and!.
    + intros vl0. cbn. by rewrite app_nil_r.
    + intros cl0. cbn. by rewrite app_nil_r.
    + intros [a b c e f]. cbn. f_equal. unfold census_plus. cbn.
      apply census_eq; lia.
    + intros v. split; [by intros ?%not_elem_of_nil|].
      intros [Hb _]. by apply below_nil in Hb.
    + intros c. split; [by intros ?%not_elem_of_nil|].
      intros [Hb _]. by apply below_nil in Hb.
    + done.
  - apply Forall_cons in Hall as [[od Hod] Hall].
    destruct IH as (vs' & cs' & Hv' & Hc' & Hn' & Hvs' & Hcs' & Hlen').
    { done. }
    { intros d' Hd'. apply Hrec. by right. }
    destruct (decide (cls od = Video)) as [Hvid|Hcont].
    + (* a video *)
      assert (Hd : is_video h d) by by exists od.
      exists (d :: vs'), cs'. split_and!.
      * intros vl0. cbn [videos_loop]. rewrite (deref_Some _ _ _ Hod).
        cbn [mbind result_bind]. rewrite (isinstance_true _ _ Hvid).
        rewrite Hv'. by rewrite <- app_assoc.
      * intros cl0. cbn [containers_loop]. rewrite (deref_Some _ _ _ Hod).
        cbn [mbind result_bind]. rewrite (isinstance_true _ _ Hvid).
        cbn [negb]. apply Hc'.
      * intros [a b c e f]. cbn [count_loop]. rewrite (deref_Some _ _ _ Hod).
        cbn [mbind result_bind]. rewrite (isinstance_true _ _ Hvid).
        rewrite Hn'. f_equal. unfold census_plus. cbn.
        apply census_eq; lia.
      * intros v. rewrite elem_of_cons, Hvs', below_cons. split.
        -- intros [->|[Hb Hv]]; [by split; [left|]|]. split; [|done].
           by right; right.
        -- intros [[->|[[Hcd _]|Hb]] Hv]; [by left| |by right].
           destruct (is_video_not_container h d Hd Hcd).
      * intros c. rewrite Hcs', below_cons. split.
        -- intros [Hb Hc]. split; [|done]. by right; right.
        -- intros [[->|[[Hcd _]|Hb]] Hc]; [| |done].
           ++ destruct (is_video_not_container h d Hd Hc).
           ++ destruct (is_video_not_container h d Hd Hcd).
      * cbn [length count_videos]. unfold is_video_with. rewrite Hod.
        rewrite (isinstance_true _ _ Hvid). cbn [andb]. lia.
    + (* a container *)
      assert (Hd : is_container h d) by by exists od.
      destruct (Hrec d)
        as (vsd & csd & Hvd & Hcd & Hnd & Hvsd & Hcsd & Hlend).
      { left. } { done. }
      exists (vsd ++ vs'), (d :: csd ++ cs'). split_and!.
      * intros vl0. cbn [videos_loop]. rewrite (deref_Some _ _ _ Hod).
        cbn [mbind result_bind]. rewrite (isinstance_false _ _ Hcont).
        rewrite Hvd. cbn [mbind result_bind]. rewrite Hv'.
        by rewrite <- app_assoc.
      * intros cl0. cbn [containers_loop]. rewrite (deref_Some _ _ _ Hod).
        cbn [mbind result_bind]. rewrite (isinstance_false _ _ Hcont).
        cbn [negb]. rewrite Hcd. cbn [mbind result_bind]. rewrite Hc'.
        f_equal. by rewrite <- !app_assoc.
      * intros [a b c e f]. cbn [count_loop]. rewrite (deref_Some _ _ _ Hod).
        cbn [mbind result_bind]. rewrite (isinstance_false _ _ Hcont).
        rewrite Hnd. cbn [mbind result_bind]. rewrite Hn'. f_equal.
        unfold census_plus. cbn [count_class length].
        rewrite !count_class_app, !length_app.
        unfold is_class. rewrite Hod. unfold isinstance.
        destruct (cls od); [done|..];
          repeat case_bool_decide; try done; cbn; apply census_eq; lia.
      * intros v. rewrite elem_of_app, Hvsd, Hvs', below_cons. split.
        -- intros [[Hdv Hv]|[Hb Hv]]; (split; [|done]).
           ++ right; left. done.
           ++ by right; right.
        -- intros [[->|[[_ Hdv]|Hb]] Hv].
           ++ destruct (is_video_not_container h d Hv Hd).
           ++ by left.
           ++ by right.
      * intros c. rewrite elem_of_cons, elem_of_app, Hcsd, Hcs', below_cons.
        split.
        -- intros [->|[[Hdc Hc]|[Hb Hc]]].
           ++ split; [by left|done].
           ++ split; [|done]. right; left. done.
           ++ split; [|done]. by right; right.
        -- intros [[->|[[_ Hdc]|Hb]] Hc].
           ++ by left.
           ++ right; left. done.
           ++ right; right. done.
      * rewrite length_app. cbn [count_videos]. unfold is_video_with.
        rewrite Hod, (isinstance_false _ _ Hcont). cbn [andb].
        change (d :: csd ++ cs') with ((d :: csd) ++ cs').
        rewrite videos_held_app. lia.
Qed.

Lemma bounded_children (n : nat) (h : heap) (l : list ref) :
  forallb (bounded n h) l = true → Forall (λ d, is_Some (h !! d)) l.
Proof.
  rewrite forallb_forall, Forall_forall. intros Hb d Hd.
  specialize (Hb d (proj1 (list_elem_of_In _ _) Hd)).
  destruct n; [done|]. cbn in Hb. by destruct (h !! d).
Qed.

(** The three traversals of the objects below [r], for a tree of bounded
    depth. *)
Lemma traversal_bounded (h : heap) (fuel : nat) :
  ∀ r, bounded fuel h r = true →
    ∃ vs cs,
      traversal_spec h
        (GenericContainer_compile_all_videos fuel h)
        (GenericContainer_compile_all_containers fuel h)
        (GenericContainer_count_descendants fuel h) r vs cs.
Proof.
  induction fuel as [|fuel IH]; intros r Hb; [done|].
  cbn [bounded] in Hb. destruct (h !! r) as [o|] eqn:Hr; [|done].
  destruct (traversal_loops h
              (GenericContainer_compile_all_videos fuel h)
              (GenericContainer_compile_all_containers fuel h)
              (GenericContainer_count_descendants fuel h) (child_list o))
    as (vs & cs & Hv & Hc & Hn & Hvs & Hcs & Hlen).
  { by eapply bounded_children. }
  { intros d Hd _. apply IH. rewrite forallb_forall in Hb. apply Hb.
    by apply list_elem_of_In. }
  exists vs, cs. unfold traversal_spec. split_and!.
  - intros vl0. cbn [GenericContainer_compile_all_videos].
    rewrite (deref_Some _ _ _ Hr). cbn [mbind result_bind]. apply Hv.
  - intros cl0. cbn [GenericContainer_compile_all_containers].
    rewrite (deref_Some _ _ _ Hr). cbn [mbind result_bind].
    rewrite Hc. by rewrite <- app_assoc.
  - intros n0. cbn [GenericContainer_count_descendants].
    rewrite (deref_Some _ _ _ Hr). cbn [mbind result_bind]. apply Hn.
  - intros v. rewrite Hvs, descendant_iff_below. split.
    + intros [Hbl Hv']. split; [by exists o|done].
    + intros [(o' & Ho' & Hbl) Hv']. split; [congruence|done].
  - intros c. rewrite Hcs, descendant_iff_below. split.
    + intros [Hbl Hc']. split; [by exists o|done].
    + intros [(o' & Ho' & Hbl) Hc']. split; [congruence|done].
  - cbn [videos_held]. by rewrite Hr.
Qed.

(** X5: on a tree of bounded depth [compile_all_videos] returns the list it
    was given followed by videos only, and a video is among these exactly
    when it is a child of the container or of a container below it. *)
Theorem compile_all_videos_descendants (fuel : nat) (h : heap) self :
  bounded fuel h self = true →
  ∃ vs,
    (∀ video_list,
       GenericContainer_compile_all_videos fuel h self video_list
       = Ok (video_list ++ vs))
    ∧ ∀ v, v ∈ vs ↔ descendant h self v ∧ is_video h v.
Proof.
  intros Hb.
  destruct (traversal_bounded h fuel self Hb)
    as (vs & cs & Hv & _ & _ & Hvs & _).
  by exists vs.
Qed.

Lemma compile_all_videos_descendants_witness :
  ∃ vs,
    (∀ video_list,
       GenericContainer_compile_all_videos 4 tree_heap 1%positive video_list
       = Ok (video_list ++ vs))
    ∧ ∀ v, v ∈ vs ↔ descendant tree_heap 1%positive v ∧ is_video tree_heap v.
Proof.
  apply (compile_all_videos_descendants 4 tree_heap 1%positive).
  vm_compute. reflexivity.
Defined.

(** X6: on a tree of bounded depth [compile_all_containers] returns the
    list it was given, then the container itself, then containers only,
    and a container is among these exactly when it is a child of the
    container or of a container below it. *)
Theorem compile_all_containers_descendants (fuel : nat) (h : heap) self :
  bounded fuel h self = true →
  ∃ cs,
    (∀ container_list,
       GenericContainer_compile_all_containers fuel h self container_list
       = Ok (container_list ++ self :: cs))
    ∧ ∀ c, c ∈ cs ↔ descendant h self c ∧ is_container h c.
Proof.
  intros Hb.
  destruct (traversal_bounded h fuel self Hb)
    as (vs & cs & _ & Hc & _ & _ & Hcs & _).
  by exists cs.
Qed.

Lemma compile_all_containers_descendants_witness :
  ∃ cs,
    (∀ container_list,
       GenericContainer_compile_all_containers 4 tree_heap 1%positive
         container_list
       = Ok (container_list ++ 1%positive :: cs))
    ∧ ∀ c, c ∈ cs
           ↔ descendant tree_heap 1%positive c ∧ is_container tree_heap c.
Proof.
  apply (compile_all_containers_descendants 4 tree_heap 1%positive).
  vm_compute. reflexivity.
Defined.

(** X7: the census of [count_descendants] agrees with the two lists that
    [compile_all_videos] and [compile_all_containers] compile: it counts as
    many videos as the first holds, as many channels, playlists and folders
    as the second holds after the container itself, and its total is the
    sum of the four. *)
Theorem count_descendants_census (fuel : nat) (h : heap) self :
  bounded fuel h self = true →
  ∃ vs cs n,
    GenericContainer_compile_all_videos fuel h self [] = Ok vs
    ∧ GenericContainer_compile_all_containers fuel h self [] = Ok (self :: cs)
    ∧ GenericContainer_count_descendants fuel h self (Census 0 0 0 0 0) = Ok n
    ∧ video_count n = Z.of_nat (length vs)
    ∧ channel_count n = count_class h Channel cs
    ∧ playlist_count n = count_class h Playlist cs
    ∧ folder_count n = count_class h Folder cs
    ∧ channel_count n + playlist_count n + folder_count n
      = Z.of_nat (length cs)
    ∧ total_count n
      = video_count n + channel_count n + playlist_count n + folder_count n.
Proof.
  intros Hb.
  destruct (traversal_bounded h fuel self Hb)
    as (vs & cs & Hv & Hc & Hn & _ & Hcs & _).
  exists vs, cs, (census_plus h (Census 0 0 0 0 0) vs cs).
  assert (Hsum : count_class h Channel cs + count_class h Playlist cs
                 + count_class h Folder cs = Z.of_nat (length cs)).
  { assert (Hall : Forall (is_container h) cs).
    { apply Forall_forall. intros c Hc'. by apply Hcs. }
    clear -Hall. induction Hall as [|c cs (o & Ho & Hcls) _ IH]; [done|].
    cbn [count_class length]. unfold is_class. rewrite Ho. unfold isinstance.
    destruct (cls o); [done|..]; repeat case_bool_decide; try done; lia. }
  split_and!; [apply Hv|apply Hc|apply Hn|cbn; lia..].
Qed.

Lemma count_descendants_census_witness :
  ∃ vs cs n,
    GenericContainer_compile_all_videos 4 tree_heap 1%positive [] = Ok vs
    ∧ GenericContainer_compile_all_containers 4 tree_heap 1%positive []
      = Ok (1%positive :: cs)
    ∧ GenericContainer_count_descendants 4 tree_heap 1%positive
        (Census 0 0 0 0 0) = Ok n
    ∧ video_count n = Z.of_nat (length vs)
    ∧ channel_count n = count_class tree_heap Channel cs
    ∧ playlist_count n = count_class tree_heap Playlist cs
    ∧ folder_count n = count_class tree_heap Folder cs
    ∧ channel_count n + playlist_count n + folder_count n
      = Z.of_nat (length cs)
    ∧ total_count n
      = video_count n + channel_count n + playlist_count n + folder_count n.
Proof.
  apply (count_descendants_census 4 tree_heap 1%positive).
  vm_compute. reflexivity.
Defined.

Lemma videos_held_vid_count_sum (h : heap) l :
  (∀ c o, c ∈ l → h !! c = Some o →
          vid_count o = count_videos h (λ _, true) (child_list o)) →
  videos_held h l = vid_count_sum h l.
Proof.
  induction l as [|c l IH]; intros Hok; [done|]. cbn.
  rewrite IH by (intros c' o' Hc'; apply Hok; by right).
  destruct (h !! c) as [o|] eqn:Ho; [|done].
  rewrite (Hok c o); [done|left|done].
Qed.

(** X30: when the [vid_count] of the container and of every container
    below it is the number of its direct [Video] children, the number of
    videos that [compile_all_videos] compiles is the sum of the
    [vid_count]s of the containers that [compile_all_containers]
    compiles. *)
Theorem compile_all_videos_vid_counts (fuel : nat) (h : heap) self :
  bounded fuel h self = true →
  (∀ c o,
     c = self ∨ (descendant h self c ∧ is_container h c) →
     h !! c = Some o →
     vid_count o = count_videos h (λ _, true) (child_list o)) →
  ∃ vs cs,
    GenericContainer_compile_all_videos fuel h self [] = Ok vs
    ∧ GenericContainer_compile_all_containers fuel h self [] = Ok cs
    ∧ Z.of_nat (length vs) = vid_count_sum h cs.
Proof.
  intros Hb Hok.
  destruct (traversal_bounded h fuel self Hb)
    as (vs & cs & Hv & Hc & _ & _ & Hcs & Hlen).
  exists vs, (self :: cs). split; [apply Hv|]. split; [apply Hc|].
  rewrite Hlen. apply videos_held_vid_count_sum.
  intros c o Hin Ho. apply (Hok c o); [|done].
  apply elem_of_cons in Hin as [->|Hin]; [by left|].
  right. by apply Hcs.
Qed.

Lemma compile_all_videos_vid_counts_witness :
  ∃ vs cs,
    GenericContainer_compile_all_videos 4 tree_heap 1%positive [] = Ok vs
    ∧ GenericContainer_compile_all_containers 4 tree_heap 1%positive []
      = Ok cs
    ∧ Z.of_nat (length vs) = vid_count_sum tree_heap cs.
Proof.
  apply (compile_all_videos_vid_counts 4 tree_heap 1%positive).
  - vm_compute. reflexivity.
  - assert (Hall : map_Forall
              (λ (_ : ref) o,
                 cls o ≠ Video →
                 vid_count o
                 = count_videos tree_heap (λ _, true) (child_list o))
              tree_heap).
    { apply (bool_decide_unpack _). vm_compute. exact I. }
    intros c o Hc Ho. apply (Hall c o Ho).
    destruct Hc as [->|[_ (o' & Ho' & Hc')]].
    + vm_compute in Ho. injection Ho as <-. discriminate.
    + congruence.
Defined.

(** ** Slave lists and the download destination *)

Lemma with_slave_dbid_list_id o :
  with_slave_dbid_list (slave_dbid_list o) o = o.
Proof. by destruct o. Qed.

Lemma filter_ne_app_singleton (d : Z) (l : list Z) :
  filter (λ x, x ≠ d) (l ++ [d]) = filter (λ x, x ≠ d) l.
Proof.
  rewrite filter_app, (filter_cons_False _ d []) by (intros Hd; by apply Hd).
  by rewrite filter_nil, app_nil_r.
Qed.

Lemma filter_ne_notin (d : Z) (l : list Z) :
  d ∉ l → filter (λ x, x ≠ d) l = l.
Proof.
  induction l as [|x l IH]; [done|].
  intros [Hx Hl]%not_elem_of_cons.
  rewrite filter_cons_True by done. by rewrite IH.
Qed.

Lemma existsb_bool_decide_eq (d : Z) (l : list Z) :
  existsb (λ x, bool_decide (x = d)) l = bool_decide (d ∈ l).
Proof.
  induction l as [|x l IH]; cbn; [done|]. rewrite IH.
  destruct (decide (x = d)) as [->|Hne].
  - rewrite (bool_decide_eq_true_2 (d = d)) by done. cbn. symmetry.
    apply bool_decide_eq_true_2. left.
  - rewrite (bool_decide_eq_false_2 (x = d)) by done. cbn.
    apply bool_decide_ext. rewrite elem_of_cons.
    split; [by right|]. by intros [->|?].
Qed.

(** What [add_slave_dbid] stores: a list that holds the id, holds nothing
    else that is new, and repeats nothing the old list did not repeat. *)
Lemma add_slave_dbid_list (h : heap) self s d :
  h !! self = Some s →
  ∃ l,
    GenericContainer_add_slave_dbid h self d
    = Ok (<[self := with_slave_dbid_list l s]> h)
    ∧ (∀ x, x ∈ l ↔ x ∈ slave_dbid_list s ∨ x = d)
    ∧ (NoDup (slave_dbid_list s) → NoDup l).
Proof.
  intros Hs. unfold GenericContainer_add_slave_dbid.
  rewrite (deref_Some _ _ _ Hs). cbn [mbind result_bind].
  rewrite existsb_bool_decide_eq. case_bool_decide as Hin; cbn [negb].
  - exists (slave_dbid_list s). split_and!.
    + by rewrite with_slave_dbid_list_id, insert_id.
    + intros x. split; [by left|]. by intros [?| ->].
    + done.
  - exists (slave_dbid_list s ++ [d]). split_and!.
    + done.
    + intros x. rewrite elem_of_app, list_elem_of_singleton. done.
    + intros Hnd. apply NoDup_app. split_and!; [done| |apply NoDup_singleton].
      intros x Hx ->%list_elem_of_singleton. done.
Qed.

(** X8: [add_slave_dbid] changes nothing when the id is in the slave list
    already, and otherwise puts the id at the end of the list and changes
    nothing else.  So the list afterwards holds the id and the ids it held
    before, and a list without repetitions stays without. *)
Theorem add_slave_dbid_NoDup (h : heap) self s d :
  h !! self = Some s →
  (d ∈ slave_dbid_list s → GenericContainer_add_slave_dbid h self d = Ok h)
  ∧ (d ∉ slave_dbid_list s →
     GenericContainer_add_slave_dbid h self d
     = Ok (<[self := with_slave_dbid_list (slave_dbid_list s ++ [d]) s]> h))
  ∧ ∃ s',
      GenericContainer_add_slave_dbid h self d = Ok (<[self := s']> h)
      ∧ s' = with_slave_dbid_list (slave_dbid_list s') s
      ∧ (NoDup (slave_dbid_list s) → NoDup (slave_dbid_list s'))
      ∧ ∀ x, x ∈ slave_dbid_list s' ↔ x ∈ slave_dbid_list s ∨ x = d.
Proof.
  intros Hs. split; [|split].
  - intros Hin. unfold GenericContainer_add_slave_dbid.
    rewrite (deref_Some _ _ _ Hs). cbn [mbind result_bind].
    rewrite existsb_bool_decide_eq.
    by rewrite (bool_decide_eq_true_2 (d ∈ slave_dbid_list s)).
  - intros Hnotin. unfold GenericContainer_add_slave_dbid.
    rewrite (deref_Some _ _ _ Hs). cbn [mbind result_bind].
    rewrite existsb_bool_decide_eq.
    by rewrite (bool_decide_eq_false_2 (d ∈ slave_dbid_list s)).
  - destruct (add_slave_dbid_list h self s d Hs) as (l & Hadd & Hl & Hnd).
    exists (with_slave_dbid_list l s). done.
Qed.

Lemma add_slave_dbid_NoDup_witness :
  (7 ∈ [5; 7] →
   GenericContainer_add_slave_dbid listed_heap 1%positive 7 = Ok listed_heap)
  ∧ (7 ∉ [5; 7] →
     GenericContainer_add_slave_dbid listed_heap 1%positive 7
     = Ok (<[1%positive :=
               with_slave_dbid_list ([5; 7] ++ [7])
                 (with_slave_dbid_list [5; 7]
                    (new_container Channel 10 "chan" None false false))]>
             listed_heap))
  ∧ ∃ s',
      GenericContainer_add_slave_dbid listed_heap 1%positive 7
      = Ok (<[1%positive := s']> listed_heap)
      ∧ s' = with_slave_dbid_list (slave_dbid_list s')
               (with_slave_dbid_list [5; 7]
                  (new_container Channel 10 "chan" None false false))
      ∧ (NoDup [5; 7] → NoDup (slave_dbid_list s'))
      ∧ ∀ x, x ∈ slave_dbid_list s' ↔ x ∈ [5; 7] ∨ x = 7.
Proof.
  apply (add_slave_dbid_NoDup listed_heap 1%positive
           (with_slave_dbid_list [5; 7]
              (new_container Channel 10 "chan" None false false)) 7).
  reflexivity.
Defined.

(** X9: [add_slave_dbid] followed by [del_slave_dbid] for the same id does
    what [del_slave_dbid] alone does, and restores the store when the id
    was not listed before. *)
Theorem add_del_slave_dbid (h : heap) self s d :
  h !! self = Some s →
  (h1 ← GenericContainer_add_slave_dbid h self d;
   GenericContainer_del_slave_dbid h1 self d)
  = GenericContainer_del_slave_dbid h self d
  ∧ (d ∉ slave_dbid_list s →
     (h1 ← GenericContainer_add_slave_dbid h self d;
      GenericContainer_del_slave_dbid h1 self d) = Ok h).
Proof.
  intros Hs.
  assert (Heq : (h1 ← GenericContainer_add_slave_dbid h self d;
                 GenericContainer_del_slave_dbid h1 self d)
                = GenericContainer_del_slave_dbid h self d).
  { unfold GenericContainer_add_slave_dbid.
    rewrite (deref_Some _ _ _ Hs). cbn [mbind result_bind].
    destruct (negb _); cbn [mbind result_bind]; [|done].
    unfold GenericContainer_del_slave_dbid.
    rewrite deref_insert_eq, (deref_Some _ _ _ Hs). cbn [mbind result_bind].
    rewrite insert_insert_eq. cbn [slave_dbid_list with_slave_dbid_list].
    by rewrite filter_ne_app_singleton. }
  split; [done|]. intros Hd. rewrite Heq.
  unfold GenericContainer_del_slave_dbid.
  rewrite (deref_Some _ _ _ Hs). cbn [mbind result_bind].
  by rewrite filter_ne_notin, with_slave_dbid_list_id, insert_id.
Qed.

Lemma add_del_slave_dbid_witness :
  (h1 ← GenericContainer_add_slave_dbid alias_heap 1%positive 7;
   GenericContainer_del_slave_dbid h1 1%positive 7)
  = GenericContainer_del_slave_dbid alias_heap 1%positive 7
  ∧ (7 ∉ @nil Z →
     (h1 ← GenericContainer_add_slave_dbid alias_heap 1%positive 7;
      GenericContainer_del_slave_dbid h1 1%positive 7) = Ok alias_heap).
Proof.
  apply (add_del_slave_dbid alias_heap 1%positive
           (new_container Channel 10 "chan" None false false) 7).
  reflexivity.
Defined.

Lemma call_add_slave_dbid_list (h : heap) obj o d :
  h !! obj = Some o → cls o ≠ Video →
  ∃ l,
    call_add_slave_dbid h obj d = Ok (<[obj := with_slave_dbid_list l o]> h)
    ∧ d ∈ l.
Proof.
  intros Ho Hc. unfold call_add_slave_dbid.
  rewrite (deref_Some _ _ _ Ho). cbn [mbind result_bind].
  rewrite (isinstance_false _ _ Hc).
  destruct (add_slave_dbid_list h obj o d Ho) as (l & Hadd & Hl & _).
  exists l. split; [done|]. apply Hl. by right.
Qed.

Lemma call_del_slave_dbid_list (h : heap) obj o d :
  h !! obj = Some o → cls o ≠ Video →
  call_del_slave_dbid h obj d
  = Ok (<[obj := with_slave_dbid_list
                   (filter (λ x, x ≠ d) (slave_dbid_list o)) o]> h).
Proof.
  intros Ho Hc. unfold call_del_slave_dbid, GenericContainer_del_slave_dbid.
  rewrite (deref_Some _ _ _ Ho). cbn [mbind result_bind].
  by rewrite (isinstance_false _ _ Hc).
Qed.

(** X10: when the objects registered under the old and the new master id
    are containers, [set_master_dbid] with a new id that is not the
    container's own returns; afterwards the container has the new master
    id, the object registered under the new id lists the container's id as
    a slave, and the object registered under the old id, if it is another
    one, lists it no longer. *)
Theorem set_master_dbid_links (h : heap) app_obj self s d new on :
  h !! self = Some s →
  d ≠ master_dbid s →
  d ≠ dbid s →
  media_reg_dict app_obj !! d = Some new →
  h !! new = Some on →
  cls on ≠ Video →
  (master_dbid s = dbid s
   ∨ media_reg_dict app_obj !! master_dbid s = None
   ∨ ∃ old oo, media_reg_dict app_obj !! master_dbid s = Some old
               ∧ h !! old = Some oo ∧ cls oo ≠ Video) →
  ∃ h' s' on',
    GenericContainer_set_master_dbid h app_obj self d = Ok h'
    ∧ h' !! self = Some s'
    ∧ master_dbid s' = d
    ∧ dbid s' = dbid s
    ∧ h' !! new = Some on'
    ∧ dbid s ∈ slave_dbid_list on'
    ∧ ∀ old oo',
        master_dbid s ≠ dbid s →
        media_reg_dict app_obj !! master_dbid s = Some old →
        old ≠ new →
        h' !! old = Some oo' →
        dbid s ∉ slave_dbid_list oo'.
Proof.
  intros Hs Hd Hown Hnew Hon Hcon Hold.
  unfold GenericContainer_set_master_dbid.
  rewrite (deref_Some _ _ _ Hs). cbn [mbind result_bind].
  rewrite (bool_decide_eq_false_2 (d = master_dbid s)) by done.
  (* the old destination *)
  set (r := if bool_decide (master_dbid s ≠ dbid s) then _ else _).
  assert (Hr : ∃ h1 s1,
    r = Ok h1
    ∧ h1 !! self = Some s1 ∧ dbid s1 = dbid s
    ∧ (∀ x o, h !! x = Some o → ∃ o', h1 !! x = Some o' ∧ cls o' = cls o)
    ∧ (∀ old oo1,
         master_dbid s ≠ dbid s →
         media_reg_dict app_obj !! master_dbid s = Some old →
         h1 !! old = Some oo1 → dbid s ∉ slave_dbid_list oo1)).
  { unfold r. case_bool_decide as Hal.
    - destruct (media_reg_dict app_obj !! master_dbid s) as [old|] eqn:Ereg.
      + destruct Hold as [?|[?|(old' & oo & Ereg' & Hoo & Hcoo)]];
          [done|done|].
        injection Ereg' as ->.
        rewrite (call_del_slave_dbid_list h old' oo (dbid s) Hoo Hcoo).
        set (oo1 := with_slave_dbid_list _ oo).
        assert (Hself : ∃ s1, <[old' := oo1]> h !! self = Some s1
                              ∧ dbid s1 = dbid s).
        { destruct (decide (old' = self)) as [->|Hne].
          - rewrite lookup_insert_eq. exists oo1. split; [done|].
            cbn. congruence.
          - rewrite lookup_insert_ne by done. by exists s. }
        destruct Hself as (s1 & Hs1 & Hid1).
        exists (<[old' := oo1]> h), s1. split_and!; [done|done|done| |].
        * intros x o Hx. destruct (decide (old' = x)) as [->|Hne].
          -- rewrite lookup_insert_eq. exists oo1. split; [done|].
             cbn. congruence.
          -- rewrite lookup_insert_ne by done. by exists o.
        * intros old oo1' _ [= <-]. rewrite lookup_insert_eq.
          intros [= <-]. cbn. intros [Hne _]%list_elem_of_filter.
          by apply Hne.
      + exists h, s. split_and!; [done|done|done|eauto|].
        intros old oo1 _ ?. done.
    - exists h, s. split_and!; [done|done|done|eauto|]. done. }
  destruct Hr as (h1 & s1 & -> & Hs1 & Hid1 & Hcls1 & Hold1).
  cbn [mbind result_bind]. rewrite (deref_Some _ _ _ Hs1).
  cbn [mbind result_bind].
  rewrite bool_decide_eq_true_2 by congruence. rewrite Hnew.
  (* the new destination *)
  set (h2 := <[self := with_master_dbid d s1]> h1).
  assert (Hnew2 : ∃ on2, h2 !! new = Some on2 ∧ cls on2 ≠ Video
            ∧ (new = self → on2 = with_master_dbid d s1)).
  { unfold h2. destruct (decide (self = new)) as [<-|Hne].
    - rewrite lookup_insert_eq. eexists. split; [done|]. split; [|done].
      cbn. destruct (Hcls1 _ _ Hs) as (o' & Ho' & Hc').
      rewrite Hs1 in Ho'. injection Ho' as <-. rewrite Hc'.
      rewrite Hs in Hon. by injection Hon as ->.
    - rewrite lookup_insert_ne by done.
      destruct (Hcls1 _ _ Hon) as (o' & Ho' & Hc').
      exists o'. split; [done|]. split; [congruence|]. by intros ->. }
  destruct Hnew2 as (on2 & Hon2 & Hcon2 & Hself2).
  destruct (call_add_slave_dbid_list h2 new on2 (dbid s1) Hon2 Hcon2)
    as (l & -> & Hl).
  destruct (decide (new = self)) as [Heq|Hne].
  - subst new. rewrite (Hself2 eq_refl).
    eexists _, _, _. split; [done|]. rewrite !lookup_insert_eq.
    split_and!; [done|done|done|done|by rewrite <- Hid1|].
    intros old oo' Hal Hreg Hne. rewrite lookup_insert_ne by done.
    unfold h2. rewrite lookup_insert_ne by done. by apply Hold1.
  - eexists _, _, _. split; [done|]. rewrite lookup_insert_eq.
    rewrite (lookup_insert_ne _ new self) by done.
    unfold h2 at 1. rewrite lookup_insert_eq.
    split_and!; [done|done|done|done|by rewrite <- Hid1|].
    intros old oo' Hal Hreg Hne'. rewrite lookup_insert_ne by done.
    unfold h2. destruct (decide (self = old)) as [<-|Hne2].
    + rewrite lookup_insert_eq. intros [= <-]. cbn. by eapply Hold1.
    + rewrite lookup_insert_ne by done. by apply Hold1.
Qed.

Lemma set_master_dbid_links_witness :
  ∃ h' s' on',
    GenericContainer_set_master_dbid dirs_heap dirs_app 2%positive 4 = Ok h'
    ∧ h' !! 2%positive = Some s'
    ∧ master_dbid s' = 4
    ∧ dbid s' = 2
    ∧ h' !! 4%positive = Some on'
    ∧ 2 ∈ slave_dbid_list on'
    ∧ ∀ old oo',
        3 ≠ 2 →
        media_reg_dict dirs_app !! 3 = Some old →
        old ≠ 4%positive →
        h' !! old = Some oo' →
        2 ∉ slave_dbid_list oo'.
Proof.
  refine (set_master_dbid_links dirs_heap dirs_app 2%positive
            (with_master_dbid 3
               (new_container Channel 2 "A" (Some 1%positive) false false))
            4 4%positive (new_container Channel 4 "C" None false false)
            eq_refl _ _ eq_refl eq_refl _ _).
  - discriminate.
  - discriminate.
  - discriminate.
  - right; right.
    exists 3%positive,
      (with_master_dbid 4
         (new_container Channel 3 "B" (Some 1%positive) false false)).
    split; [reflexivity|]. split; [reflexivity|discriminate].
Defined.

(** X11: aliasing a container that was not aliased to a registered
    container that does not list it, and then setting its master id back to
    its own id, restores the whole store. *)
Theorem set_master_dbid_round_trip (h : heap) app_obj self s d t ot :
  h !! self = Some s →
  master_dbid s = dbid s →
  d ≠ dbid s →
  media_reg_dict app_obj !! d = Some t →
  t ≠ self →
  h !! t = Some ot →
  cls ot ≠ Video →
  dbid s ∉ slave_dbid_list ot →
  ∃ h1 s1,
    GenericContainer_set_master_dbid h app_obj self d = Ok h1
    ∧ h1 !! self = Some s1
    ∧ master_dbid s1 = d
    ∧ GenericContainer_set_master_dbid h1 app_obj self (dbid s) = Ok h.
Proof.
  intros Hs Hm Hd Hreg Hts Ht Hct Hnot.
  set (s1 := with_master_dbid d s).
  set (ot1 := with_slave_dbid_list (slave_dbid_list ot ++ [dbid s]) ot).
  exists (<[t := ot1]> (<[self := s1]> h)), s1.
  assert (H1 : GenericContainer_set_master_dbid h app_obj self d
               = Ok (<[t := ot1]> (<[self := s1]> h))).
  { unfold GenericContainer_set_master_dbid.
    rewrite (deref_Some _ _ _ Hs). cbn [mbind result_bind].
    rewrite (bool_decide_eq_false_2 (d = master_dbid s)) by congruence.
    rewrite (bool_decide_eq_false_2 (master_dbid s ≠ dbid s))
      by (intros Hne; by apply Hne).
    cbn [mbind result_bind]. rewrite (deref_Some _ _ _ Hs).
    cbn [mbind result_bind].
    rewrite (bool_decide_eq_true_2 (d ≠ dbid s)) by done. rewrite Hreg.
    unfold call_add_slave_dbid, GenericContainer_add_slave_dbid.
    rewrite (deref_insert_ne _ self t) by done.
    rewrite (deref_Some _ _ _ Ht). cbn [mbind result_bind].
    rewrite (isinstance_false _ _ Hct). cbn [mbind result_bind].
    rewrite existsb_bool_decide_eq.
    by rewrite (bool_decide_eq_false_2 (dbid s ∈ slave_dbid_list ot)). }
  split; [done|]. split; [by rewrite lookup_insert_ne, lookup_insert_eq|].
  split; [done|].
  unfold GenericContainer_set_master_dbid.
  rewrite (deref_insert_ne _ t self) by done. rewrite deref_insert_eq.
  cbn [mbind result_bind].
  change (master_dbid s1) with d. change (dbid s1) with (dbid s).
  rewrite (bool_decide_eq_false_2 (dbid s = d)) by congruence.
  rewrite (bool_decide_eq_true_2 (d ≠ dbid s)) by done. rewrite Hreg.
  rewrite (call_del_slave_dbid_list _ t ot1 (dbid s))
    by (by rewrite ?lookup_insert_eq).
  cbn [mbind result_bind]. rewrite insert_insert_eq.
  rewrite (deref_insert_ne _ t self) by done. rewrite deref_insert_eq.
  cbn [mbind result_bind].
  change (dbid s1) with (dbid s).
  rewrite (bool_decide_eq_false_2 (dbid s ≠ dbid s))
    by (intros Hne; by apply Hne).
  f_equal. apply map_eq. intros x.
  destruct (decide (x = self)) as [->|Hxs].
  - rewrite lookup_insert_eq, Hs. f_equal.
    destruct s. cbn in *. by subst.
  - rewrite (lookup_insert_ne _ self x) by done.
    destruct (decide (x = t)) as [->|Hxt].
    + rewrite lookup_insert_eq, Ht. f_equal. unfold ot1.
      cbn [slave_dbid_list with_slave_dbid_list].
      rewrite filter_ne_app_singleton, filter_ne_notin by done.
      by destruct ot.
    + rewrite (lookup_insert_ne _ t x) by done.
      by rewrite (lookup_insert_ne _ self x) by done.
Qed.

Lemma set_master_dbid_round_trip_witness :
  ∃ h1 s1,
    GenericContainer_set_master_dbid pair_heap aliased_app 1%positive 20
    = Ok h1
    ∧ h1 !! 1%positive = Some s1
    ∧ master_dbid s1 = 20
    ∧ GenericContainer_set_master_dbid h1 aliased_app 1%positive 10
      = Ok pair_heap.
Proof.
  refine (set_master_dbid_round_trip pair_heap aliased_app 1%positive
            (new_container Channel 10 "chan" None false false) 20
            2%positive (new_container Folder 20 "dir" None false false)
            eq_refl eq_refl _ eq_refl _ eq_refl _ _).
  - discriminate.
  - discriminate.
  - discriminate.
  - apply not_elem_of_nil.
Defined.

(** ** Sorting with a comparison that follows an order *)

Section SortingOrder.
Context {A : Type} (lt : A → A → result bool).

(** The comparison is defined on the items that satisfy [D] and follows a
    transitive relation [R]: an item that is smaller comes before, an item
    that is not smaller comes after. *)
Context (D : A → Prop) (R : relation A).
Hypothesis lt_total : ∀ x y, D x → D y → ∃ b, lt x y = Ok b.
Hypothesis lt_true : ∀ x y, D x → D y → lt x y = Ok true → R x y.
Hypothesis lt_false : ∀ x y, D x → D y → lt x y = Ok false → R y x.
Hypothesis R_trans : ∀ x y z, D x → D y → D z → R x y → R y z → R x z.

Lemma sort_insert_ordered x rp :
  D x → Forall D rp → StronglySorted (flip R) rp →
  ∃ rp', sort_insert lt x rp = Ok rp'
         ∧ Forall D rp'
         ∧ StronglySorted (flip R) rp'.
Proof.
  intros Dx. induction rp as [|p rp IH]; intros HD Hs; cbn.
  - eexists. split; [done|]. split; repeat constructor; done.
  - apply Forall_cons in HD as [Dp HD].
    apply StronglySorted_cons in Hs as [Hp Hs].
    destruct (lt_total x p Dx Dp) as [b Hb]. rewrite Hb. cbn.
    destruct b.
    + destruct (IH HD Hs) as (r & Hr & HDr & Hsr). rewrite Hr. cbn.
      eexists. split; [done|]. split; [by constructor|].
      apply StronglySorted_cons. split; [|done].
      apply sort_insert_perm in Hr. rewrite Hr. constructor; [|done].
      by apply lt_true.
    + eexists. split; [done|]. split; [by repeat constructor|].
      assert (Hpx : R p x) by by apply lt_false.
      apply StronglySorted_cons. split.
      * constructor; [done|]. rewrite Forall_forall in Hp, HD.
        apply Forall_forall. intros q Hq.
        apply (R_trans q p x); [by apply HD|done|done|by apply Hp|done].
      * by apply StronglySorted_cons.
Qed.

Lemma sort_run_ordered l rp :
  Forall D l → Forall D rp → StronglySorted (flip R) rp →
  ∃ l', sort_run lt l rp = Ok l'
        ∧ l' ≡ₚ reverse rp ++ l
        ∧ StronglySorted R l'.
Proof.
  revert rp. induction l as [|x l IH]; intros rp Hl Hrp Hs; cbn.
  - eexists. split; [done|]. split; [by rewrite app_nil_r|].
    by apply StronglySorted_reverse.
  - apply Forall_cons in Hl as [Dx Hl].
    destruct (sort_insert_ordered x rp Dx Hrp Hs) as (rp' & Hins & HD' & Hs').
    rewrite Hins. cbn.
    destruct (IH rp' Hl HD' Hs') as (l' & Hrun & Hperm & Hsorted).
    exists l'. split; [done|]. split; [|done].
    rewrite Hperm. apply sort_insert_perm in Hins.
    rewrite !reverse_Permutation, Hins. apply Permutation_middle.
Qed.

End SortingOrder.

(** ** Sorting a list that has been sorted *)

Section Resort.
Context {A : Type} (lt : A → A → result bool).

Lemma settled_app_r (l1 l2 : list A) : settled lt (l1 ++ l2) → settled lt l2.
Proof.
  induction l1 as [|x l1 IH]; [done|]. intros [_ Hs]. by apply IH.
Qed.

(** A pass of the sort over a list on which nothing is to be done. *)
Lemma sort_run_settled_id (l rp : list A) :
  settled lt (reverse l ++ rp) → sort_run lt l rp = Ok (reverse rp ++ l).
Proof.
  revert rp. induction l as [|x l IH]; intros rp Hs; cbn [sort_run].
  - by rewrite app_nil_r.
  - rewrite reverse_cons, <- app_assoc in Hs.
    change ([x] ++ rp) with (x :: rp) in Hs.
    assert (Hins : sort_insert lt x rp = Ok (x :: rp)).
    { apply settled_app_r in Hs. destruct rp as [|p rp]; [done|].
      destruct Hs as [Hxp _]. cbn. by rewrite Hxp. }
    rewrite Hins. cbn [mbind result_bind]. rewrite (IH _ Hs).
    by rewrite reverse_cons, <- app_assoc.
Qed.

(** The comparison never has each of two items smaller than the other. *)
Hypothesis lt_asym : ∀ x y, lt x y = Ok true → lt y x = Ok false.

Lemma sort_insert_settled x rp rp' :
  settled lt rp → sort_insert lt x rp = Ok rp' →
  settled lt rp' ∧ (head rp' = Some x ∨ head rp' = head rp).
Proof.
  revert rp'. induction rp as [|p rp IH]; intros rp' Hs; cbn [sort_insert].
  - intros [= <-]. split; [done|by left].
  - intros Hins. apply bind_Ok in Hins as (b & Hb & Hins). destruct b.
    + apply bind_Ok in Hins as (r & Hr & [= <-]).
      destruct Hs as [Hp Hs].
      destruct (IH r Hs Hr) as (Hsr & Hhd). split; [|by right].
      split; [|done]. destruct r as [|y r]; [done|]. cbn in Hhd.
      destruct Hhd as [[= ->]|Hhd]; [by apply lt_asym|].
      destruct rp as [|q rp]; [done|]. by injection Hhd as ->.
    + injection Hins as <-. split; [|by left]. done.
Qed.

Lemma sort_run_settled (l rp l' : list A) :
  settled lt rp → sort_run lt l rp = Ok l' → settled lt (reverse l').
Proof.
  revert rp. induction l as [|x l IH]; intros rp Hs; cbn [sort_run].
  - intros [= <-]. by rewrite reverse_involutive.
  - intros Hrun. apply bind_Ok in Hrun as (rp' & Hins & Hrun).
    apply (IH rp'); [|done]. by eapply sort_insert_settled.
Qed.

(** Sorting the result of the sort once more returns it as it is. *)
Lemma list_sort_twice (l l' : list A) :
  sort_run lt l [] = Ok l' → sort_run lt l' [] = Ok l'.
Proof.
  intros Hrun. rewrite sort_run_settled_id; [done|].
  rewrite app_nil_r. apply (sort_run_settled l [] l'); [exact I|exact Hrun].
Qed.

End Resort.

Lemma settled_ext {A} (lt lt' : A → A → result bool) (rp : list A) :
  (∀ x y, lt' x y = lt x y) → settled lt rp → settled lt' rp.
Proof.
  intros Hext. induction rp as [|x rp IH]; [done|]. intros [Hx Hs].
  split; [|by apply IH]. destruct rp; [done|]. by rewrite Hext.
Qed.

Lemma sort_insert_ext {A} (lt lt' : A → A → result bool) x (rp : list A) :
  (∀ x y, lt' x y = lt x y) → sort_insert lt' x rp = sort_insert lt x rp.
Proof.
  intros Hext. induction rp as [|p rp IH]; [done|]. cbn.
  by rewrite Hext, IH.
Qed.

Lemma sort_run_ext {A} (lt lt' : A → A → result bool) (l rp : list A) :
  (∀ x y, lt' x y = lt x y) → sort_run lt' l rp = sort_run lt l rp.
Proof.
  intros Hext. revert rp. induction l as [|x l IH]; intros rp; [done|].
  cbn. rewrite (sort_insert_ext lt lt') by done.
  destruct (sort_insert lt x rp); cbn; [apply IH|done].
Qed.

(** ** The order of a channel's or playlist's children *)

(** When the comparison that [sort_children] uses follows an order on the
    children, the method returns and leaves the children in that order. *)
Lemma remote_sort_children_ordered (h : heap) self s
    (D : ref → Prop) (R : relation ref) :
  let lt := cmp_to_key_lt (on_refs h (GenericRemoteContainer_do_sort s)) in
  (∀ x y, D x → D y → ∃ b, lt x y = Ok b) →
  (∀ x y, D x → D y → lt x y = Ok true → R x y) →
  (∀ x y, D x → D y → lt x y = Ok false → R y x) →
  (∀ x y z, D x → D y → D z → R x y → R y z → R x z) →
  h !! self = Some s →
  Forall D (child_list s) →
  ∃ l',
    GenericRemoteContainer_sort_children h self
    = Ok (<[self := with_child_list l' s]> h)
    ∧ l' ≡ₚ child_list s
    ∧ StronglySorted R l'.
Proof.
  intros lt Htot Htrue Hfalse Htrans Hs Hall.
  destruct (sort_run_ordered lt D R Htot Htrue Hfalse Htrans
              (child_list s) []) as (l1 & Hrun1 & Hperm1 & _);
    [done|constructor|constructor|].
  rewrite reverse_nil, app_nil_l in Hperm1.
  destruct (sort_run_ordered lt D R Htot Htrue Hfalse Htrans l1 [])
    as (l2 & Hrun2 & Hperm2 & Hsorted);
    [by rewrite Hperm1|constructor|constructor|].
  rewrite reverse_nil, app_nil_l in Hperm2.
  exists l2. split; [|split; [by rewrite Hperm2|done]].
  unfold GenericRemoteContainer_sort_children.
  rewrite (deref_Some _ _ _ Hs). cbn [mbind result_bind].
  unfold list_sort. fold lt. rewrite Hrun1. cbn [mbind result_bind].
  by rewrite Hrun2.
Qed.

(** X13: sorting the children of a playlist, when they are videos that all
    have an index, leaves them in ascending order of the index, whatever
    their upload times are. *)
Theorem playlist_sort_children_by_index (h : heap) self s :
  h !! self = Some s →
  cls s = Playlist →
  Forall (λ r, ∃ v n, h !! r = Some v ∧ cls v = Video ∧ index v = Some n)
    (child_list s) →
  ∃ l',
    GenericRemoteContainer_sort_children h self
    = Ok (<[self := with_child_list l' s]> h)
    ∧ l' ≡ₚ child_list s
    ∧ ∀ i j r1 r2 v1 v2 n1 n2,
        l' !! i = Some r1 → l' !! j = Some r2 → (i < j)%nat →
        h !! r1 = Some v1 → h !! r2 = Some v2 →
        index v1 = Some n1 → index v2 = Some n2 →
        n1 ≤ n2.
Proof.
  intros Hs Hcls Hall.
  set (D := λ r : ref,
         ∃ v n, h !! r = Some v ∧ cls v = Video ∧ index v = Some n).
  set (R := λ r1 r2 : ref,
         ∀ v1 v2 n1 n2, h !! r1 = Some v1 → h !! r2 = Some v2 →
           index v1 = Some n1 → index v2 = Some n2 → n1 ≤ n2).
  assert (Hlt : ∀ r1 r2 v1 v2 n1 n2,
    h !! r1 = Some v1 → cls v1 = Video → index v1 = Some n1 →
    h !! r2 = Some v2 → cls v2 = Video → index v2 = Some n2 →
    cmp_to_key_lt (on_refs h (GenericRemoteContainer_do_sort s)) r1 r2
    = Ok (n1 <? n2)).
  { intros r1 r2 v1 v2 n1 n2 H1 Hc1 Hi1 H2 Hc2 Hi2.
    unfold cmp_to_key_lt, on_refs.
    rewrite (deref_Some _ _ _ H1), (deref_Some _ _ _ H2).
    cbn [mbind result_bind]. unfold GenericRemoteContainer_do_sort.
    rewrite (isinstance_true _ _ Hcls), (both_set_video index) by done.
    rewrite Hi1, Hi2. cbn [mbind result_bind].
    by destruct (n1 <? n2). }
  destruct (remote_sort_children_ordered h self s D R)
    as (l' & Hsort & Hperm & Hsorted); [| | | |done|done|].
  - intros r1 r2 (v1 & n1 & H1 & Hc1 & Hi1) (v2 & n2 & H2 & Hc2 & Hi2).
    rewrite (Hlt _ _ _ _ _ _ H1 Hc1 Hi1 H2 Hc2 Hi2). eauto.
  - intros r1 r2 (v1 & n1 & H1 & Hc1 & Hi1) (v2 & n2 & H2 & Hc2 & Hi2).
    rewrite (Hlt _ _ _ _ _ _ H1 Hc1 Hi1 H2 Hc2 Hi2). intros [= Hn].
    intros v1' v2' n1' n2' H1' H2' Hi1' Hi2'. simplify_eq. lia.
  - intros r1 r2 (v1 & n1 & H1 & Hc1 & Hi1) (v2 & n2 & H2 & Hc2 & Hi2).
    rewrite (Hlt _ _ _ _ _ _ H1 Hc1 Hi1 H2 Hc2 Hi2). intros [= Hn].
    intros v2' v1' n2' n1' H2' H1' Hi2' Hi1'. simplify_eq. lia.
  - intros r1 r2 r3 _ (v2 & n2 & H2 & Hc2 & Hi2) _ H12 H23.
    intros v1 v3 n1 n3 H1 H3 Hi1 Hi3.
    specialize (H12 _ _ _ _ H1 H2 Hi1 Hi2).
    specialize (H23 _ _ _ _ H2 H3 Hi2 Hi3). lia.
  - exists l'. split; [done|]. split; [done|].
    intros i j r1 r2 v1 v2 n1 n2 Hi Hj Hij H1 H2 Hi1 Hi2.
    by apply (StronglySorted_lookup _ _ _ _ _ _ Hsorted Hi Hj Hij
                v1 v2 n1 n2).
Qed.

Lemma playlist_sort_children_by_index_witness :
  ∃ l',
    GenericRemoteContainer_sort_children playlist_heap 1%positive
    = Ok (<[1%positive :=
              with_child_list l'
                (a_container Playlist 11 "list" None
                   [2%positive; 3%positive; 4%positive] 3)]> playlist_heap)
    ∧ l' ≡ₚ [2%positive; 3%positive; 4%positive]
    ∧ ∀ i j r1 r2 v1 v2 n1 n2,
        l' !! i = Some r1 → l' !! j = Some r2 → (i < j)%nat →
        playlist_heap !! r1 = Some v1 → playlist_heap !! r2 = Some v2 →
        index v1 = Some n1 → index v2 = Some n2 →
        n1 ≤ n2.
Proof.
  apply (playlist_sort_children_by_index playlist_heap 1%positive
           (a_container Playlist 11 "list" None
              [2%positive; 3%positive; 4%positive] 3)).
  - reflexivity.
  - reflexivity.
  - repeat constructor; eexists _, _; (split; [reflexivity|]);
      split; reflexivity.
Defined.

(** X14: sorting the children of a channel, when they are videos that all
    have an upload time and a receive time, leaves the video uploaded last
    first; of two videos uploaded at the same time the one received first
    comes first. *)
Theorem channel_sort_children_by_time (h : heap) self s :
  h !! self = Some s →
  cls s = Channel →
  Forall (λ r, ∃ v u t, h !! r = Some v ∧ cls v = Video
                        ∧ upload_time v = Some u ∧ receive_time v = Some t)
    (child_list s) →
  ∃ l',
    GenericRemoteContainer_sort_children h self
    = Ok (<[self := with_child_list l' s]> h)
    ∧ l' ≡ₚ child_list s
    ∧ ∀ i j r1 r2 v1 v2 u1 u2 t1 t2,
        l' !! i = Some r1 → l' !! j = Some r2 → (i < j)%nat →
        h !! r1 = Some v1 → h !! r2 = Some v2 →
        upload_time v1 = Some u1 → upload_time v2 = Some u2 →
        receive_time v1 = Some t1 → receive_time v2 = Some t2 →
        u2 ≤ u1 ∧ (u1 = u2 → t1 ≤ t2).
Proof.
  intros Hs Hcls Hall.
  set (D := λ r : ref,
         ∃ v u t, h !! r = Some v ∧ cls v = Video
                  ∧ upload_time v = Some u ∧ receive_time v = Some t).
  set (R := λ r1 r2 : ref,
         ∀ v1 v2 u1 u2 t1 t2, h !! r1 = Some v1 → h !! r2 = Some v2 →
           upload_time v1 = Some u1 → upload_time v2 = Some u2 →
           receive_time v1 = Some t1 → receive_time v2 = Some t2 →
           u2 ≤ u1 ∧ (u1 = u2 → t1 ≤ t2)).
  assert (Hlt : ∀ r1 r2 v1 v2 u1 u2 t1 t2,
    h !! r1 = Some v1 → cls v1 = Video →
    upload_time v1 = Some u1 → receive_time v1 = Some t1 →
    h !! r2 = Some v2 → cls v2 = Video →
    upload_time v2 = Some u2 → receive_time v2 = Some t2 →
    cmp_to_key_lt (on_refs h (GenericRemoteContainer_do_sort s)) r1 r2
    = Ok ((u2 <? u1) || ((u1 =? u2) && (t1 <? t2)))).
  { intros r1 r2 v1 v2 u1 u2 t1 t2 H1 Hc1 Hu1 Ht1 H2 Hc2 Hu2 Ht2.
    unfold cmp_to_key_lt, on_refs.
    rewrite (deref_Some _ _ _ H1), (deref_Some _ _ _ H2).
    cbn [mbind result_bind]. unfold GenericRemoteContainer_do_sort.
    rewrite (isinstance_false s Playlist) by (by rewrite Hcls).
    cbn [mbind result_bind]. rewrite !both_set_video by done.
    rewrite Hu1, Hu2, Ht1, Ht2. cbn [mbind result_bind].
    rewrite (Z.gtb_ltb u1 u2), (Z.gtb_ltb t1 t2).
    destruct (Z.ltb_spec u2 u1); cbn; [done|].
    destruct (Z.ltb_spec u1 u2); cbn.
    { by rewrite (proj2 (Z.eqb_neq u1 u2)) by lia. }
    rewrite (proj2 (Z.eqb_eq u1 u2)) by lia. cbn.
    destruct (Z.ltb_spec t1 t2); cbn; [done|].
    by destruct (Z.ltb_spec t2 t1). }
  destruct (remote_sort_children_ordered h self s D R)
    as (l' & Hsort & Hperm & Hsorted); [| | | |done|done|].
  - intros r1 r2 (v1 & u1 & t1 & H1 & Hc1 & Hu1 & Ht1)
      (v2 & u2 & t2 & H2 & Hc2 & Hu2 & Ht2).
    rewrite (Hlt _ _ _ _ _ _ _ _ H1 Hc1 Hu1 Ht1 H2 Hc2 Hu2 Ht2). eauto.
  - intros r1 r2 (v1 & u1 & t1 & H1 & Hc1 & Hu1 & Ht1)
      (v2 & u2 & t2 & H2 & Hc2 & Hu2 & Ht2).
    rewrite (Hlt _ _ _ _ _ _ _ _ H1 Hc1 Hu1 Ht1 H2 Hc2 Hu2 Ht2).
    intros [= Hn]. intros v1' v2' u1' u2' t1' t2' ? ? ? ? ? ?.
    simplify_eq. lia.
  - intros r1 r2 (v1 & u1 & t1 & H1 & Hc1 & Hu1 & Ht1)
      (v2 & u2 & t2 & H2 & Hc2 & Hu2 & Ht2).
    rewrite (Hlt _ _ _ _ _ _ _ _ H1 Hc1 Hu1 Ht1 H2 Hc2 Hu2 Ht2).
    intros [= Hn]. intros v2' v1' u2' u1' t2' t1' ? ? ? ? ? ?.
    simplify_eq. lia.
  - intros r1 r2 r3 _ (v2 & u2 & t2 & H2 & Hc2 & Hu2 & Ht2) _ H12 H23.
    intros v1 v3 u1 u3 t1 t3 H1 H3 Hu1 Hu3 Ht1 Ht3.
    specialize (H12 _ _ _ _ _ _ H1 H2 Hu1 Hu2 Ht1 Ht2).
    specialize (H23 _ _ _ _ _ _ H2 H3 Hu2 Hu3 Ht2 Ht3). lia.
  - exists l'. split; [done|]. split; [done|].
    intros i j r1 r2 v1 v2 u1 u2 t1 t2 Hi Hj Hij H1 H2 Hu1 Hu2 Ht1 Ht2.
    by apply (StronglySorted_lookup _ _ _ _ _ _ Hsorted Hi Hj Hij
                v1 v2 u1 u2 t1 t2).
Qed.

Lemma channel_sort_children_by_time_witness :
  ∃ l',
    GenericRemoteContainer_sort_children channel_heap 1%positive
    = Ok (<[1%positive :=
              with_child_list l'
                (a_container Channel 11 "chan" None
                   [2%positive; 3%positive; 4%positive] 3)]> channel_heap)
    ∧ l' ≡ₚ [2%positive; 3%positive; 4%positive]
    ∧ ∀ i j r1 r2 v1 v2 u1 u2 t1 t2,
        l' !! i = Some r1 → l' !! j = Some r2 → (i < j)%nat →
        channel_heap !! r1 = Some v1 → channel_heap !! r2 = Some v2 →
        upload_time v1 = Some u1 → upload_time v2 = Some u2 →
        receive_time v1 = Some t1 → receive_time v2 = Some t2 →
        u2 ≤ u1 ∧ (u1 = u2 → t1 ≤ t2).
Proof.
  apply (channel_sort_children_by_time channel_heap 1%positive
           (a_container Channel 11 "chan" None
              [2%positive; 3%positive; 4%positive] 3)).
  - reflexivity.
  - reflexivity.
  - repeat constructor; eexists _, _, _; (split; [reflexivity|]);
      repeat split; reflexivity.
Defined.

(** ** The comparison of a folder's children *)

Lemma str_lt_asym a b : str_lt a b = true → str_lt b a = false.
Proof.
  unfold str_lt, String.ltb. rewrite (String.compare_antisym b a).
  by destruct (String.compare a b).
Qed.

Lemma name_cmp_swap a b :
  (if str_lt b a then -1 else if str_lt a b then 1 else 0)
  = - (if str_lt a b then -1 else if str_lt b a then 1 else 0).
Proof.
  destruct (str_lt a b) eqn:Hab.
  - by rewrite (str_lt_asym _ _ Hab).
  - by destruct (str_lt b a).
Qed.

Lemma Folder_do_sort_swap self o1 o2 :
  Folder_do_sort self o2 o1 = - Folder_do_sort self o1 o2.
Proof.
  unfold Folder_do_sort, is_remote, isinstance.
  destruct (cls o1) eqn:Hc1, (cls o2) eqn:Hc2;
    repeat (case_bool_decide; try done); cbn [orb andb];
    try reflexivity; try apply name_cmp_swap.
  (* two videos *)
  destruct (upload_time o1) as [u1|], (upload_time o2) as [u2|];
    try reflexivity.
  rewrite (Z.gtb_ltb u1 u2), (Z.gtb_ltb u2 u1).
  destruct (Z.ltb_spec u2 u1), (Z.ltb_spec u1 u2); try lia; try reflexivity.
  destruct (receive_time o1) as [t1|], (receive_time o2) as [t2|];
    try reflexivity.
  rewrite (Z.gtb_ltb t1 t2), (Z.gtb_ltb t2 t1).
  destruct (priv_flag self), (Z.ltb_spec t2 t1), (Z.ltb_spec t1 t2);
    try lia; reflexivity.
Qed.

(** X15: [Folder.do_sort] is a sound comparison, for objects of any
    classes, names and times: it returns -1, 0 or 1, it returns 0 for an
    object compared with itself, and comparing two objects the other way
    round gives the opposite result. *)
Theorem Folder_do_sort_antisymmetric self o1 o2 :
  Folder_do_sort self o2 o1 = - Folder_do_sort self o1 o2
  ∧ Folder_do_sort self o1 o1 = 0
  ∧ (Folder_do_sort self o1 o2 = -1
     ∨ Folder_do_sort self o1 o2 = 0
     ∨ Folder_do_sort self o1 o2 = 1).
Proof.
  split; [apply Folder_do_sort_swap|]. split.
  - pose proof (Folder_do_sort_swap self o1 o1) as Hself. lia.
  - unfold Folder_do_sort. repeat case_match; auto.
Qed.

(** [Folder.do_sort] reads the class, the name and the times of the two
    objects and the [priv_flag] of the folder, and nothing else. *)
Lemma Folder_do_sort_reads self self' o1 o1' o2 o2' :
  priv_flag self' = priv_flag self →
  (cls o1' = cls o1 ∧ name o1' = name o1
   ∧ upload_time o1' = upload_time o1 ∧ receive_time o1' = receive_time o1) →
  (cls o2' = cls o2 ∧ name o2' = name o2
   ∧ upload_time o2' = upload_time o2 ∧ receive_time o2' = receive_time o2) →
  Folder_do_sort self' o1' o2' = Folder_do_sort self o1 o2.
Proof.
  intros Hp (Hc1 & Hn1 & Hu1 & Ht1) (Hc2 & Hn2 & Hu2 & Ht2).
  unfold Folder_do_sort, is_remote, isinstance.
  by rewrite Hp, Hc1, Hn1, Hu1, Ht1, Hc2, Hn2, Hu2, Ht2.
Qed.

Lemma ascii_compare_refl a : Ascii.compare a a = Eq.
Proof. unfold Ascii.compare. apply N.compare_refl. Qed.

Lemma ascii_compare_lt_trans a b c :
  Ascii.compare a b = Lt → Ascii.compare b c = Lt → Ascii.compare a c = Lt.
Proof. unfold Ascii.compare. rewrite !N.compare_lt_iff. lia. Qed.

Lemma string_compare_lt_trans a :
  ∀ b c, String.compare a b = Lt → String.compare b c = Lt →
         String.compare a c = Lt.
Proof.
  induction a as [|x a IH]; intros [|y b] [|z c]; simpl; try done.
  destruct (Ascii.compare x y) eqn:Hxy, (Ascii.compare y z) eqn:Hyz;
    try done.
  - apply Ascii.compare_eq_iff in Hxy, Hyz. subst.
    rewrite ascii_compare_refl. apply IH.
  - apply Ascii.compare_eq_iff in Hxy. subst. by rewrite Hyz.
  - apply Ascii.compare_eq_iff in Hyz. subst. by rewrite Hxy.
  - by rewrite (ascii_compare_lt_trans _ _ _ Hxy Hyz).
Qed.

(** Not being before is transitive. *)
Lemma str_lt_false_trans a b c :
  str_lt b a = false → str_lt c b = false → str_lt c a = false.
Proof.
  unfold str_lt, String.ltb. intros Hba Hcb.
  destruct (String.compare c a) eqn:Hca; [done| |done]. exfalso.
  destruct (String.compare c b) eqn:Hcb'; [|done|].
  - apply String.compare_eq_iff in Hcb'. subst. by rewrite Hca in Hba.
  - rewrite String.compare_antisym in Hcb'.
    destruct (String.compare b c) eqn:Hbc; try done.
    by rewrite (string_compare_lt_trans _ _ _ Hbc Hca) in Hba.
Qed.

Lemma name_cmp_le a b :
  (if str_lt a b then -1 else if str_lt b a then 1 else 0) ≤ 0
  ↔ str_lt b a = false.
Proof.
  destruct (str_lt a b) eqn:Hab.
  - rewrite (str_lt_asym _ _ Hab). split; [done|lia].
  - destruct (str_lt b a); split; (done || lia).
Qed.

Lemma name_cmp_trans a b c :
  (if str_lt a b then -1 else if str_lt b a then 1 else 0) ≤ 0 →
  (if str_lt b c then -1 else if str_lt c b then 1 else 0) ≤ 0 →
  (if str_lt a c then -1 else if str_lt c a then 1 else 0) ≤ 0.
Proof. rewrite !name_cmp_le. apply str_lt_false_trans. Qed.

(** On objects whose times can be compared, the order of [Folder.do_sort]
    is transitive: with antisymmetry, a strict weak order. *)
Lemma Folder_do_sort_trans self a b c :
  timed a → timed b → timed c →
  Folder_do_sort self a b ≤ 0 → Folder_do_sort self b c ≤ 0 →
  Folder_do_sort self a c ≤ 0.
Proof.
  unfold timed, Folder_do_sort, is_remote, isinstance.
  intros Ta Tb Tc.
  destruct (cls a) eqn:Ca, (cls b) eqn:Cb, (cls c) eqn:Cc;
    repeat (case_bool_decide; try done); cbn [orb andb];
    try (intros; lia); try apply name_cmp_trans.
  destruct (Ta eq_refl) as [[ua ->] [ta ->]].
  destruct (Tb eq_refl) as [[ub ->] [tb ->]].
  destruct (Tc eq_refl) as [[uc ->] [tc ->]].
  rewrite !Z.gtb_ltb.
  destruct (priv_flag self);
    repeat match goal with
    | |- context [?x <? ?y] => destruct (Z.ltb_spec x y)
    end; lia.
Qed.

(** X16: for a folder whose videos all have an upload and a receive time,
    so that [Folder.do_sort] is a strict weak order on the children and
    every stable sort returns the same list, [sort_children] returns, keeps
    the children, leaves them in an order in which [do_sort] never has a
    later child before an earlier one, and changes nothing when it is
    called again. *)
Theorem Folder_sort_children_idempotent (h : heap) self s :
  h !! self = Some s →
  Forall (λ r, ∃ o, h !! r = Some o ∧ timed o) (child_list s) →
  ∃ h' l',
    Folder_sort_children h self = Ok h'
    ∧ h' = <[self := with_child_list l' s]> h
    ∧ l' ≡ₚ child_list s
    ∧ (∀ i j r1 r2 o1 o2,
         l' !! i = Some r1 → l' !! j = Some r2 → (i < j)%nat →
         h !! r1 = Some o1 → h !! r2 = Some o2 →
         Folder_do_sort s o1 o2 ≤ 0)
    ∧ Folder_sort_children h' self = Ok h'.
Proof.
  intros Hs Hall.
  set (lt := cmp_to_key_lt
               (on_refs h (λ o1 o2, Ok (Some (Folder_do_sort s o1 o2))))).
  set (D := λ r : ref, ∃ o, h !! r = Some o ∧ timed o).
  set (R := λ r1 r2 : ref,
         ∀ o1 o2, h !! r1 = Some o1 → h !! r2 = Some o2 →
                  Folder_do_sort s o1 o2 ≤ 0).
  assert (Hlt : ∀ r1 r2 o1 o2, h !! r1 = Some o1 → h !! r2 = Some o2 →
            lt r1 r2 = Ok (Folder_do_sort s o1 o2 <? 0)).
  { intros r1 r2 o1 o2 H1 H2. unfold lt, cmp_to_key_lt, on_refs.
    by rewrite (deref_Some _ _ _ H1), (deref_Some _ _ _ H2). }
  destruct (sort_run_ordered lt D R) with (l := child_list s) (rp := @nil ref)
    as (l & Hl & Hperm & Hsorted).
  { intros r1 r2 (o1 & H1 & _) (o2 & H2 & _).
    rewrite (Hlt _ _ _ _ H1 H2). eauto. }
  { intros r1 r2 (o1 & H1 & _) (o2 & H2 & _).
    rewrite (Hlt _ _ _ _ H1 H2). intros [= Hcmp] o1' o2' H1' H2'.
    simplify_eq. lia. }
  { intros r1 r2 (o1 & H1 & _) (o2 & H2 & _).
    rewrite (Hlt _ _ _ _ H1 H2). intros [= Hcmp] o2' o1' H2' H1'.
    simplify_eq. rewrite (Folder_do_sort_swap s o1 o2). lia. }
  { intros r1 r2 r3 (o1 & H1 & T1) (o2 & H2 & T2) (o3 & H3 & T3) H12 H23.
    intros o1' o3' H1' H3'. simplify_eq.
    apply (Folder_do_sort_trans s o1 o2 o3); [done|done|done| |].
    - by apply H12.
    - by apply H23. }
  { done. } { constructor. } { constructor. }
  rewrite reverse_nil, app_nil_l in Hperm.
  set (s' := with_child_list l s).
  exists (<[self := s']> h), l.
  assert (Hfirst : Folder_sort_children h self = Ok (<[self := s']> h)).
  { unfold Folder_sort_children. rewrite (deref_Some _ _ _ Hs).
    cbn [mbind result_bind]. unfold list_sort. fold lt. by rewrite Hl. }
  split; [done|]. split; [done|]. split; [done|]. split.
  { intros i j r1 r2 o1 o2 Hi Hj Hij H1 H2.
    by apply (StronglySorted_lookup _ _ _ _ _ _ Hsorted Hi Hj Hij o1 o2). }
  (* the second call *)
  unfold Folder_sort_children. rewrite deref_insert_eq.
  cbn [mbind result_bind].
  change (child_list s') with l.
  set (lt' := cmp_to_key_lt
                (on_refs (<[self := s']> h)
                   (λ o1 o2, Ok (Some (Folder_do_sort s' o1 o2))))).
  assert (Hderef : ∀ x,
    deref (<[self := s']> h) x
    = (o ← deref h x; Ok (if decide (x = self) then s' else o))).
  { intros x. destruct (decide (x = self)) as [->|Hne].
    - by rewrite deref_insert_eq, (deref_Some _ _ _ Hs).
    - rewrite (deref_insert_ne _ self x) by done. by destruct (deref h x). }
  assert (Hkeys : ∀ x o,
    h !! x = Some o →
    let o' := if decide (x = self) then s' else o in
    cls o' = cls o ∧ name o' = name o
    ∧ upload_time o' = upload_time o ∧ receive_time o' = receive_time o).
  { intros x o Hx. cbn. destruct (decide (x = self)) as [->|]; [|done].
    rewrite Hs in Hx. by injection Hx as <-. }
  assert (Hext : ∀ x y, lt' x y = lt x y).
  { intros x y. unfold lt', lt, cmp_to_key_lt, on_refs.
    rewrite !Hderef.
    destruct (deref h x) as [ox|] eqn:Hx; [|done].
    destruct (deref h y) as [oy|] eqn:Hy; [|done].
    cbn [mbind result_bind]. apply deref_Ok in Hx, Hy.
    by rewrite (Folder_do_sort_reads s s' ox _ oy _ eq_refl
                  (Hkeys _ _ Hx) (Hkeys _ _ Hy)). }
  assert (Hasym : ∀ x y, lt x y = Ok true → lt y x = Ok false).
  { intros x y. unfold lt, cmp_to_key_lt, on_refs.
    destruct (deref h x) as [ox|]; [|done].
    destruct (deref h y) as [oy|]; [|done]. cbn [mbind result_bind].
    rewrite (Folder_do_sort_swap s ox oy). intros [= Hcmp]. f_equal. lia. }
  unfold list_sort. fold lt'.
  rewrite (sort_run_ext lt lt') by done.
  rewrite (list_sort_twice lt Hasym _ _ Hl). cbn [mbind result_bind].
  by rewrite insert_insert_eq.
Qed.

Lemma Folder_sort_children_idempotent_witness :
  ∃ h' l',
    Folder_sort_children strata_heap 1%positive = Ok h'
    ∧ h' = <[1%positive :=
               with_child_list l'
                 (a_container Folder 11 "top" None
                    [2%positive; 3%positive; 4%positive; 5%positive] 1)]>
             strata_heap
    ∧ l' ≡ₚ [2%positive; 3%positive; 4%positive; 5%positive]
    ∧ (∀ i j r1 r2 o1 o2,
         l' !! i = Some r1 → l' !! j = Some r2 → (i < j)%nat →
         strata_heap !! r1 = Some o1 → strata_heap !! r2 = Some o2 →
         Folder_do_sort
           (a_container Folder 11 "top" None
              [2%positive; 3%positive; 4%positive; 5%positive] 1) o1 o2 ≤ 0)
    ∧ Folder_sort_children h' 1%positive = Ok h'.
Proof.
  apply (Folder_sort_children_idempotent strata_heap 1%positive
           (a_container Folder 11 "top" None
              [2%positive; 3%positive; 4%positive; 5%positive] 1)).
  - reflexivity.
  - repeat constructor; eexists; (split; [reflexivity|]); intros Hv;
      first [discriminate Hv | split; eexists; reflexivity].
Defined.

(** X17: a folder that is not private orders two videos as a channel or
    playlist does: whenever [GenericRemoteContainer.do_sort] returns an
    integer for two videos that it does not compare by their playlist
    indices, [Folder.do_sort] returns the same integer. *)
Theorem Folder_do_sort_agrees_remote folder remote o1 o2 z :
  priv_flag folder = false →
  cls o1 = Video →
  cls o2 = Video →
  (cls remote = Playlist → index o1 = None ∨ index o2 = None) →
  GenericRemoteContainer_do_sort remote o1 o2 = Ok (Some z) →
  Folder_do_sort folder o1 o2 = z.
Proof.
  intros Hp Hc1 Hc2 Hidx.
  unfold GenericRemoteContainer_do_sort.
  rewrite !both_set_video by done.
  assert (Hby : (if isinstance remote Playlist
                 then Ok match index o1, index o2 with
                         | Some x1, Some x2 => Some (x1, x2)
                         | _, _ => None
                         end
                 else Ok None) = @Ok (option (Z * Z)) None).
  { unfold isinstance. case_bool_decide as Hpl; [|done].
    destruct (Hidx Hpl) as [-> | ->]; [done|]. by destruct (index o1). }
  rewrite Hby. cbn [mbind result_bind].
  unfold Folder_do_sort, is_remote.
  rewrite (bool_decide_eq_true_2 (cls o1 = cls o2)) by congruence.
  rewrite (isinstance_true _ _ Hc1), Hp. cbn [orb].
  destruct (upload_time o1) as [u1|], (upload_time o2) as [u2|];
    cbn [mbind result_bind]; try by intros [= <-].
  destruct (u1 >? u2); [by intros [= <-]|].
  destruct (u1 <? u2); [by intros [= <-]|].
  destruct (receive_time o1) as [t1|], (receive_time o2) as [t2|];
    cbn [mbind result_bind]; try done.
  destruct (t1 <? t2); [by intros [= <-]|].
  destruct (t1 >? t2); by intros [= <-].
Qed.

Lemma Folder_do_sort_agrees_remote_witness :
  Folder_do_sort (new_container Folder 9 "dir" None false false)
    (a_video 12 "a" 1%positive (Some 100) (Some 5) None None)
    (a_video 14 "c" 1%positive (Some 100) (Some 2) None None)
  = 1.
Proof.
  apply (Folder_do_sort_agrees_remote
           (new_container Folder 9 "dir" None false false)
           (a_container Channel 11 "chan" None
              [2%positive; 3%positive; 4%positive] 3)).
  - reflexivity.
  - reflexivity.
  - reflexivity.
  - discriminate.
  - reflexivity.
Defined.

(** ** The nested export *)

Lemma well_keyed_video c : well_keyed (video_mini_dict c).
Proof. constructor. intros k x Hk. by rewrite lookup_empty in Hk. Qed.

Lemma export_loop_keys (h : heap) rec iv l :
  Forall (λ c, is_Some (h !! c)) l →
  (∀ c oc, c ∈ l → h !! c = Some oc → cls oc ≠ Video →
     ∃ r, rec c = Ok r
          ∧ ∀ d, r = Some d → doc_dbid d = dbid oc ∧ well_keyed d) →
  ∀ db,
    (∀ k x, db !! k = Some x → doc_dbid x = k ∧ well_keyed x) →
    ∃ db',
      export_loop rec h iv l db = Ok db'
      ∧ ∀ k x, db' !! k = Some x → doc_dbid x = k ∧ well_keyed x.
Proof.
  induction l as [|c l IH]; intros Hall Hrec db Hdb; cbn [export_loop].
  - by exists db.
  - apply Forall_cons in Hall as [[oc Hoc] Hall].
    assert (Hrec' : ∀ c' oc', c' ∈ l → h !! c' = Some oc' → cls oc' ≠ Video →
              ∃ r, rec c' = Ok r
                   ∧ ∀ d, r = Some d → doc_dbid d = dbid oc' ∧ well_keyed d).
    { intros c' oc' Hc'. apply Hrec. by right. }
    rewrite (deref_Some _ _ _ Hoc). cbn [mbind result_bind].
    assert (Hins : ∀ d, doc_dbid d = dbid oc → well_keyed d →
              ∀ k x, <[dbid oc := d]> db !! k = Some x →
                     doc_dbid x = k ∧ well_keyed x).
    { intros d Hd Hwk k x. destruct (decide (dbid oc = k)) as [<-|Hne].
      - rewrite lookup_insert_eq. by intros [= <-].
      - rewrite lookup_insert_ne by done. apply Hdb. }
    destruct (decide (cls oc = Video)) as [Hv|Hv].
    + rewrite (isinstance_true _ _ Hv).
      destruct (iv && bool_decide (source oc ≠ None)); [|by apply IH].
      apply IH; [done|done|]. apply Hins; [done|apply well_keyed_video].
    + rewrite (isinstance_false _ _ Hv).
      destruct (Hrec c oc) as (r & -> & Hr); [left|done|done|].
      cbn [mbind result_bind]. destruct r as [d|]; [|by apply IH].
      apply IH; [done|done|]. by apply Hins; apply (Hr d).
Qed.

Lemma get_type_cls o :
  GenericMedia_get_type o
  = match cls o with
    | Video => "video" | Channel => "channel"
    | Playlist => "playlist" | Folder => "folder"
    end.
Proof.
  unfold GenericMedia_get_type, isinstance.
  destruct (cls o); repeat (case_bool_decide; try done).
Qed.

(** What [prepare_export] returns on a tree of bounded depth. *)
Lemma prepare_export_returns (h : heap) (iv ic ip : bool) (fuel : nat) :
  ∀ self s,
    bounded fuel h self = true →
    h !! self = Some s →
    ∃ r,
      GenericContainer_prepare_export fuel h self iv ic ip = Ok r
      ∧ (r = None ↔ passes_filter ic ip s = false)
      ∧ ∀ d, r = Some d →
             doc_dbid d = dbid s
             ∧ doc_type d = GenericMedia_get_type s
             ∧ well_keyed d
             ∧ ∃ db_dict,
                 export_loop
                   (λ c, GenericContainer_prepare_export (pred fuel) h c
                           iv ic ip)
                   h iv (child_list s) ∅ = Ok db_dict
                 ∧ doc_db_dict d = db_dict.
Proof.
  induction fuel as [|fuel IH]; intros self s Hb Hs; [done|].
  cbn [bounded] in Hb. rewrite Hs in Hb.
  cbn [GenericContainer_prepare_export pred].
  rewrite (deref_Some _ _ _ Hs). cbn [mbind result_bind].
  destruct (export_loop_keys h
              (λ c, GenericContainer_prepare_export fuel h c iv ic ip)
              iv (child_list s)) with (db := (∅ : gmap Z doc))
    as (db' & Hloop & Hkeys).
  { by eapply bounded_children. }
  { intros c oc Hc Hoc _.
    destruct (IH c oc) as (r & Hr & _ & Hd); [|done|].
    - rewrite forallb_forall in Hb. apply Hb. by apply list_elem_of_In.
    - exists r. split; [done|]. intros d Hrd.
      destruct (Hd d Hrd) as (? & _ & ? & _). done. }
  { intros k x Hk. by rewrite lookup_empty in Hk. }
  rewrite Hloop. cbn [mbind result_bind].
  unfold passes_filter. rewrite get_type_cls.
  destruct (cls s) eqn:Hcls.
  - exists None. split; [done|]. split; [done|]. by intros d.
  - destruct ic; cbn [negb].
    + eexists. split; [done|]. split; [done|]. intros d [= <-].
      split_and!; [done|done|by constructor|by exists db'].
    + exists None. split; [done|]. split; [done|]. by intros d.
  - destruct ip; cbn [negb].
    + eexists. split; [done|]. split; [done|]. intros d [= <-].
      split_and!; [done|done|by constructor|by exists db'].
    + exists None. split; [done|]. split; [done|]. by intros d.
  - destruct (fixed_flag s); cbn [negb].
    + exists None. split; [done|]. split; [done|]. by intros d.
    + eexists. split; [done|]. split; [done|]. intros d [= <-].
      split_and!; [done|done|by constructor|by exists db'].
Qed.

(** X18: on a tree of bounded depth the nested export always returns.  It
    returns [None] exactly for the objects that its filter excludes (a
    video, a channel or playlist whose kind is not included, a fixed
    folder); otherwise it returns a document with the id and the type of
    the object, in which every entry, at every depth, is stored under the
    id of the document it holds. *)
Theorem prepare_export_document (fuel : nat) (h : heap) self s
    (iv ic ip : bool) :
  bounded fuel h self = true →
  h !! self = Some s →
  ∃ r,
    GenericContainer_prepare_export fuel h self iv ic ip = Ok r
    ∧ (r = None ↔ passes_filter ic ip s = false)
    ∧ ∀ d, r = Some d →
           doc_dbid d = dbid s
           ∧ doc_type d = GenericMedia_get_type s
           ∧ well_keyed d.
Proof.
  intros Hb Hs.
  destruct (prepare_export_returns h iv ic ip fuel self s Hb Hs)
    as (r & Hr & Hnone & Hd).
  exists r. split; [done|]. split; [done|]. intros d Hrd.
  destruct (Hd d Hrd) as (? & ? & ? & _). done.
Qed.

Lemma prepare_export_document_witness :
  ∃ r,
    GenericContainer_prepare_export 3 export_heap 1%positive true true true
    = Ok r
    ∧ (r = None
       ↔ passes_filter true true
           (a_container Folder 1 "Root" None [2%positive; 3%positive] 1)
         = false)
    ∧ ∀ d, r = Some d →
           doc_dbid d = 1
           ∧ doc_type d
             = GenericMedia_get_type
                 (a_container Folder 1 "Root" None [2%positive; 3%positive] 1)
           ∧ well_keyed d.
Proof.
  apply (prepare_export_document 3 export_heap 1%positive
           (a_container Folder 1 "Root" None [2%positive; 3%positive] 1)
           true true true).
  - vm_compute. reflexivity.
  - reflexivity.
Defined.

Lemma export_loop_video (h : heap) rec l v ov :
  unique_dbid h →
  h !! v = Some ov → cls ov = Video → source ov ≠ None →
  ∀ db db',
    export_loop rec h true l db = Ok db' →
    v ∈ l ∨ db !! dbid ov = Some (video_mini_dict ov) →
    db' !! dbid ov = Some (video_mini_dict ov).
Proof.
  intros Huniq Hv Hcv Hsrc.
  induction l as [|c l IH]; intros db db'; cbn [export_loop].
  - intros [= <-]. by intros [?%not_elem_of_nil|].
  - intros Hloop Hin.
    apply bind_Ok in Hloop as (oc & Hoc & Hloop). apply deref_Ok in Hoc.
    assert (Hstep : ∀ d,
      (c = v → d = video_mini_dict ov) →
      v ∈ l ∨ <[dbid oc := d]> db !! dbid ov = Some (video_mini_dict ov)).
    { intros d Hd. destruct (decide (dbid oc = dbid ov)) as [Heq|Hne].
      - assert (c = v) as Hcv' by by apply (unique_dbid_eq h c v oc ov).
        right. rewrite Heq, lookup_insert_eq. by rewrite (Hd Hcv').
      - rewrite lookup_insert_ne by done.
        destruct Hin as [[->|Hin]%elem_of_cons|Hdb]; [|by left|by right].
        rewrite Hv in Hoc. by injection Hoc as <-. }
    assert (Hskip : c ≠ v →
      v ∈ l ∨ db !! dbid ov = Some (video_mini_dict ov)).
    { intros Hne. destruct Hin as [[->|Hin]%elem_of_cons|Hdb];
        [done|by left|by right]. }
    destruct (decide (cls oc = Video)) as [Hc|Hc].
    + rewrite (isinstance_true _ _ Hc) in Hloop. cbn [andb] in Hloop.
      case_bool_decide as Hknown.
      * apply (IH _ _ Hloop). apply Hstep. intros ->.
        rewrite Hv in Hoc. by injection Hoc as <-.
      * apply (IH _ _ Hloop). apply Hskip. intros ->.
        rewrite Hv in Hoc. by injection Hoc as <-.
    + rewrite (isinstance_false _ _ Hc) in Hloop.
      apply bind_Ok in Hloop as (r & _ & Hloop).
      assert (Hne : c ≠ v).
      { intros ->. rewrite Hv in Hoc. by injection Hoc as <-. }
      destruct r as [d|]; apply (IH _ _ Hloop); [|by apply Hskip].
      by apply Hstep.
Qed.

(** X19: the nested export of a container that passes the filter, with
    videos included, holds the document of each video among the children
    that has a known source, under the id of the video; this is so for a
    folder too, whose videos the flat export leaves out. *)
Theorem prepare_export_holds_videos (fuel : nat) (h : heap) self s
    (ic ip : bool) v ov :
  bounded fuel h self = true →
  unique_dbid h →
  h !! self = Some s →
  passes_filter ic ip s = true →
  v ∈ child_list s →
  h !! v = Some ov →
  cls ov = Video →
  source ov ≠ None →
  ∃ d,
    GenericContainer_prepare_export fuel h self true ic ip = Ok (Some d)
    ∧ doc_db_dict d !! dbid ov = Some (video_mini_dict ov).
Proof.
  intros Hb Huniq Hs Hpass Hin Hv Hcv Hsrc.
  destruct (prepare_export_returns h true ic ip fuel self s Hb Hs)
    as (r & Hr & Hnone & Hd).
  destruct r as [d|].
  2:{ rewrite (proj1 Hnone eq_refl) in Hpass. discriminate. }
  exists d. split; [done|].
  destruct (Hd d eq_refl) as (_ & _ & _ & db' & Hloop & ->).
  apply (export_loop_video h _ _ v ov Huniq Hv Hcv Hsrc _ _ Hloop).
  by left.
Qed.

Lemma prepare_export_holds_videos_witness :
  ∃ d,
    GenericContainer_prepare_export 3 export_heap 1%positive true true true
    = Ok (Some d)
    ∧ doc_db_dict d !! 2
      = Some (video_mini_dict
                (a_video 2 "b" 1%positive (Some 100) None None
                   (Some "http://tube/b"))).
Proof.
  refine (prepare_export_holds_videos 3 export_heap 1%positive
            (a_container Folder 1 "Root" None [2%positive; 3%positive] 1)
            true true 2%positive
            (a_video 2 "b" 1%positive (Some 100) None None
               (Some "http://tube/b"))
            _ _ eq_refl eq_refl _ eq_refl eq_refl _).
  - vm_compute. reflexivity.
  - apply (bool_decide_unpack _). vm_compute. exact I.
  - apply (bool_decide_unpack _). vm_compute. exact I.
  - discriminate.
Defined.

Lemma export_loop_video_free (h : heap) rec l :
  (∀ c d, rec c = Ok (Some d) → video_free d) →
  ∀ db db',
    export_loop rec h false l db = Ok db' →
    (∀ k x, db !! k = Some x → video_free x) →
    ∀ k x, db' !! k = Some x → video_free x.
Proof.
  intros Hrec. induction l as [|c l IH]; intros db db'; cbn [export_loop].
  - by intros [= <-].
  - intros Hloop Hdb.
    apply bind_Ok in Hloop as (oc & _ & Hloop).
    destruct (isinstance oc Video).
    + cbn [andb] in Hloop. by apply (IH _ _ Hloop).
    + apply bind_Ok in Hloop as (r & Hr & Hloop).
      destruct r as [d|]; apply (IH _ _ Hloop); [|done].
      intros k x. destruct (decide (dbid oc = k)) as [<-|Hne].
      * rewrite lookup_insert_eq. intros [= <-]. by apply (Hrec c).
      * rewrite lookup_insert_ne by done. apply Hdb.
Qed.

Lemma prepare_export_video_free (h : heap) (ic ip : bool) (fuel : nat) :
  ∀ self d,
    GenericContainer_prepare_export fuel h self false ic ip = Ok (Some d) →
    video_free d.
Proof.
  induction fuel as [|fuel IH]; intros self d; [done|].
  cbn [GenericContainer_prepare_export].
  intros Hexp. apply bind_Ok in Hexp as (s & _ & Hexp).
  assert (Hbody : ∀ (t : string) src,
    t ≠ "video" →
    (export_loop
       (λ c, GenericContainer_prepare_export fuel h c false ic ip)
       h false (child_list s) ∅
     ≫= λ db_dict,
          Ok (Some (Doc t (dbid s) (name s) (Some (nickname s)) src db_dict)))
    = Ok (Some d) →
    video_free d).
  { intros t src Ht Hb. apply bind_Ok in Hb as (db' & Hloop & [= <-]).
    constructor; [done|].
    apply (export_loop_video_free h _ _ IH _ _ Hloop).
    intros k x Hk. by rewrite lookup_empty in Hk. }
  destruct (cls s); [done|..].
  - destruct (negb ic); [done|]. by apply (Hbody "channel" (source s)).
  - destruct (negb ip); [done|]. by apply (Hbody "playlist" (source s)).
  - destruct (fixed_flag s); [done|]. by apply (Hbody "folder" None).
Qed.

(** X20: with [include_video_flag] off, the nested export of a container
    that passes the filter returns a document that holds no document of a
    video, at any depth. *)
Theorem prepare_export_without_videos (fuel : nat) (h : heap) self s
    (ic ip : bool) :
  bounded fuel h self = true →
  h !! self = Some s →
  passes_filter ic ip s = true →
  ∃ d,
    GenericContainer_prepare_export fuel h self false ic ip = Ok (Some d)
    ∧ video_free d.
Proof.
  intros Hb Hs Hpass.
  destruct (prepare_export_returns h false ic ip fuel self s Hb Hs)
    as (r & Hr & Hnone & _).
  destruct r as [d|].
  2:{ rewrite (proj1 Hnone eq_refl) in Hpass. discriminate. }
  exists d. split; [done|]. by eapply prepare_export_video_free.
Qed.

Lemma prepare_export_without_videos_witness :
  ∃ d,
    GenericContainer_prepare_export 3 export_heap 1%positive false true true
    = Ok (Some d)
    ∧ video_free d.
Proof.
  apply (prepare_export_without_videos 3 export_heap 1%positive
           (a_container Folder 1 "Root" None [2%positive; 3%positive] 1)
           true true).
  - vm_compute. reflexivity.
  - reflexivity.
  - reflexivity.
Defined.

Lemma export_loops_videos (h : heap) rec rec' iv l :
  Forall (is_video h) l →
  ∀ child_dict db_dict,
    export_loop rec h iv l child_dict = Ok (video_dict h iv l child_dict)
    ∧ flat_remote_loop rec' h iv l child_dict db_dict
      = Ok (video_dict h iv l child_dict, db_dict).
Proof.
  induction 1 as [|c l (oc & Hoc & Hc) _ IH]; intros child_dict db_dict;
    [done|].
  cbn [export_loop flat_remote_loop]. unfold video_dict. cbn [fold_left].
  rewrite (deref_Some _ _ _ Hoc), Hoc. cbn [mbind result_bind].
  rewrite (isinstance_true _ _ Hc). cbn [andb].
  destruct (iv && bool_decide (source oc ≠ None)); apply IH.
Qed.

(** X21: for a channel or playlist of an included kind whose children are
    all videos, the nested and the flat export agree: the document that
    [prepare_export] returns is the one that [prepare_flat_export] stores
    under the id of the container. *)
Theorem prepare_export_agrees_flat (fuel : nat) (h : heap) self s
    (iv ic ip : bool) (db_dict : gmap Z doc) :
  h !! self = Some s →
  exported ic ip s = true →
  Forall (is_video h) (child_list s) →
  ∃ d,
    GenericContainer_prepare_export (S fuel) h self iv ic ip = Ok (Some d)
    ∧ GenericContainer_prepare_flat_export (S fuel) h self db_dict iv ic ip
      = Ok (<[dbid s := d]> db_dict)
    ∧ d = flat_doc h iv s.
Proof.
  intros Hs Hexp Hall. exists (flat_doc h iv s).
  cbn [GenericContainer_prepare_export GenericContainer_prepare_flat_export].
  rewrite (deref_Some _ _ _ Hs). cbn [mbind result_bind].
  destruct (export_loops_videos h
              (λ c, GenericContainer_prepare_export fuel h c iv ic ip)
              (λ c db, GenericContainer_prepare_flat_export fuel h c db
                         iv ic ip)
              iv (child_list s) Hall ∅ db_dict) as [-> ->].
  cbn [mbind result_bind fst snd].
  unfold exported in Hexp. unfold flat_doc, container_mini_dict, isinstance.
  destruct (cls s); [done| | |done].
  - rewrite Hexp. cbn [negb]. by rewrite bool_decide_eq_true_2.
  - rewrite Hexp. cbn [negb]. by rewrite bool_decide_eq_false_2.
Qed.

Lemma prepare_export_agrees_flat_witness :
  ∃ d,
    GenericContainer_prepare_export 1 export_heap 3%positive true true true
    = Ok (Some d)
    ∧ GenericContainer_prepare_flat_export 1 export_heap 3%positive ∅
        true true true
      = Ok (<[3 := d]> ∅)
    ∧ d = flat_doc export_heap true
            (a_container Channel 3 "C1" (Some 1%positive)
               [4%positive; 5%positive] 2).
Proof.
  apply (prepare_export_agrees_flat 0 export_heap 3%positive
           (a_container Channel 3 "C1" (Some 1%positive)
              [4%positive; 5%positive] 2) true true true ∅).
  - reflexivity.
  - reflexivity.
  - repeat constructor; eexists; (split; [reflexivity|reflexivity]).
Defined.

(** ** Duplicate videos in a folder *)

Lemma duplicate_loop_spec (h : heap) src l :
  Forall (λ c, is_Some (h !! c)) l →
  ∃ b,
    duplicate_loop h src l = Ok b
    ∧ (b = true ↔ ∃ c v, c ∈ l ∧ h !! c = Some v ∧ cls v = Video
                         ∧ source v = Some src).
Proof.
  induction 1 as [|c l [oc Hoc] _ (b & Hb & Hiff)]; cbn [duplicate_loop].
  - exists false. split; [done|]. split; [done|].
    intros (c & v & Hc & _). by apply not_elem_of_nil in Hc.
  - rewrite (deref_Some _ _ _ Hoc). cbn [mbind result_bind].
    destruct (decide (cls oc = Video ∧ source oc = Some src)) as [[Hv Hsrc]|Hno].
    + rewrite (isinstance_true _ _ Hv).
      rewrite (bool_decide_eq_true_2 (source oc ≠ None)) by by rewrite Hsrc.
      rewrite (bool_decide_eq_true_2 (source oc = Some src)) by done.
      exists true. split; [done|]. split; [|done]. intros _.
      exists c, oc. split; [left|done].
    + assert (Hcond : isinstance oc Video && bool_decide (source oc ≠ None)
                      && bool_decide (source oc = Some src) = false).
      { unfold isinstance.
        destruct (decide (cls oc = Video)) as [Hv|Hv].
        - rewrite (bool_decide_eq_false_2 (source oc = Some src)).
          + by rewrite andb_false_r.
          + intros Hsrc. by apply Hno.
        - by rewrite (bool_decide_eq_false_2 (cls oc = Video)). }
      rewrite Hcond. exists b. split; [done|]. rewrite Hiff. split.
      * intros (c' & v & Hc' & Hv). exists c', v. split; [by right|done].
      * intros (c' & v & [->|Hc']%elem_of_cons & Hv' & Hcv & Hsv).
        -- rewrite Hoc in Hv'. injection Hv' as <-. by destruct Hno.
        -- by exists c', v.
Qed.

(** X22: [check_duplicate_video] returns [True] exactly when one of the
    folder's children is a video whose source is the one asked for;
    children that are no videos and videos without a known source never
    count. *)
Theorem check_duplicate_video_spec (h : heap) self s src :
  h !! self = Some s →
  Forall (λ c, is_Some (h !! c)) (child_list s) →
  ∃ b,
    Folder_check_duplicate_video h self src = Ok b
    ∧ (b = true ↔ ∃ c v, c ∈ child_list s ∧ h !! c = Some v ∧ cls v = Video
                         ∧ source v = Some src).
Proof.
  intros Hs Hall. unfold Folder_check_duplicate_video.
  rewrite (deref_Some _ _ _ Hs). cbn [mbind result_bind].
  by apply duplicate_loop_spec.
Qed.

Lemma check_duplicate_video_spec_witness :
  ∃ b,
    Folder_check_duplicate_video export_heap 1%positive "http://tube/b"
    = Ok b
    ∧ (b = true ↔ ∃ c v, c ∈ [2%positive; 3%positive]
                         ∧ export_heap !! c = Some v ∧ cls v = Video
                         ∧ source v = Some "http://tube/b").
Proof.
  apply (check_duplicate_video_spec export_heap 1%positive
           (a_container Folder 1 "Root" None [2%positive; 3%positive] 1)).
  - reflexivity.
  - apply (bool_decide_unpack _). vm_compute. exact I.
Defined.

(** ** Nicknames *)

(** X23: after [set_nickname] the nickname of a container follows its name
    again exactly when it was reset: [set_name] then changes the nickname
    too if [set_nickname] was given [None], the empty string or the name
    itself, and leaves the nickname that was set otherwise. *)
Theorem set_nickname_then_set_name (h : heap) self s nick n :
  h !! self = Some s →
  ∃ s',
    (h1 ← GenericMedia_set_nickname h self nick;
     GenericContainer_set_name h1 self n) = Ok (<[self := s']> h)
    ∧ name s' = n
    ∧ nickname s'
      = match nick with
        | None => n
        | Some k => if bool_decide (k = "" ∨ k = name s) then n else k
        end.
Proof.
  intros Hs. unfold GenericMedia_set_nickname, GenericContainer_set_name.
  rewrite (deref_Some _ _ _ Hs). cbn [mbind result_bind].
  destruct nick as [k|].
  - destruct (String.eqb_spec k "") as [->|Hk]; cbn [mbind result_bind];
      rewrite deref_insert_eq; cbn [mbind result_bind];
      rewrite insert_insert_eq; eexists; (split; [done|]); (split; [done|]).
    + cbn [nickname name with_nickname].
      rewrite (bool_decide_eq_true_2 (name s = name s)) by done.
      by rewrite bool_decide_eq_true_2 by by left.
    + cbn [nickname name with_nickname].
      destruct (decide (k = name s)) as [->|Hne].
      * rewrite (bool_decide_eq_true_2 (name s = name s)) by done.
        by rewrite bool_decide_eq_true_2 by by right.
      * rewrite (bool_decide_eq_false_2 (k = name s)) by done.
        by rewrite bool_decide_eq_false_2 by (by intros [?|?]).
  - cbn [mbind result_bind]. rewrite deref_insert_eq.
    cbn [mbind result_bind].
    rewrite insert_insert_eq. eexists. split; [done|]. split; [done|].
    cbn [nickname name with_nickname].
    by rewrite (bool_decide_eq_true_2 (name s = name s)).
Qed.

Lemma set_nickname_then_set_name_witness :
  ∃ s',
    (h1 ← GenericMedia_set_nickname rename_heap 1%positive (Some "tv");
     GenericContainer_set_name h1 1%positive "tube")
    = Ok (<[1%positive := s']> rename_heap)
    ∧ name s' = "tube"
    ∧ nickname s' = "tv".
Proof.
  apply (set_nickname_then_set_name rename_heap 1%positive
           (a_container Channel 10 "chan" None [2%positive] 1)
           (Some "tv") "tube").
  reflexivity.
Defined.

(** ** Adding and deleting children *)

Lemma list_remove_app_singleton (x : ref) (l : list ref) :
  x ∉ l → list_remove x (l ++ [x]) = l.
Proof.
  induction l as [|y l IH]; intros Hx; cbn.
  - by rewrite bool_decide_eq_true_2.
  - apply not_elem_of_cons in Hx as [Hxy Hx].
    rewrite bool_decide_eq_false_2 by done. by rewrite IH.
Qed.

(** X24: constructing a video in a container without sorting, and then
    deleting it from the container, leaves the container exactly as it
    was, child list and counters; the video stays in the store and still
    names the container as its parent. *)
Theorem Video_init_del_child_round_trip (h : heap) parent p d n :
  h !! parent = Some p →
  cls p ≠ Video →
  Forall (λ r, is_Some (h !! r)) (child_list p) →
  ∃ v h1,
    Video_init h d n parent true = Ok (v, h1)
    ∧ h !! v = None
    ∧ del_child h1 parent v = Ok (true, <[v := new_video d n parent]> h).
Proof.
  intros Hp Hc Hall.
  set (v := fresh (dom h)).
  assert (Hv : h !! v = None).
  { apply not_elem_of_dom. apply is_fresh. }
  assert (Hne : parent ≠ v) by congruence.
  assert (Hnotin : v ∉ child_list p).
  { intros Hin. rewrite Forall_forall in Hall.
    destruct (Hall _ Hin) as [o Ho]. congruence. }
  set (nv := new_video d n parent).
  set (h0 := <[v := nv]> h).
  set (p1 := with_child_list (child_list p ++ [v]) p).
  set (p2 := with_vid_count (vid_count p1 + 1) p1).
  assert (Hadd : add_child h0 parent v true = Ok (<[parent := p2]> h0)).
  { unfold add_child, h0. rewrite (deref_insert_ne _ v parent) by done.
    rewrite (deref_Some _ _ _ Hp). cbn [mbind result_bind].
    assert (Hremote :
      GenericRemoteContainer_add_child (<[v := nv]> h) parent v true
      = Ok (<[parent := p2]> (<[v := nv]> h))).
    { unfold GenericRemoteContainer_add_child.
      rewrite (deref_insert_ne _ v parent) by done.
      rewrite (deref_Some _ _ _ Hp), (deref_insert_eq _ v).
      cbn [mbind result_bind negb].
      rewrite (isinstance_true nv Video) by done. cbn [orb].
      cbn [mbind result_bind]. rewrite (deref_insert_ne _ parent v) by done.
      rewrite (deref_insert_eq _ v). cbn [mbind result_bind].
      rewrite (isinstance_true nv Video) by done.
      rewrite (deref_insert_eq _ parent). cbn [mbind result_bind].
      by rewrite insert_insert_eq. }
    assert (Hfolder :
      Folder_add_child (<[v := nv]> h) parent v true
      = Ok (<[parent := p2]> (<[v := nv]> h))).
    { unfold Folder_add_child.
      rewrite (deref_insert_ne _ v parent) by done.
      rewrite (deref_Some _ _ _ Hp). cbn [mbind result_bind].
      rewrite (bool_decide_eq_false_2 (v ∈ child_list p)) by done.
      cbn [negb mbind result_bind].
      rewrite (deref_insert_ne _ parent v) by done.
      rewrite (deref_insert_eq _ v). cbn [mbind result_bind].
      rewrite (isinstance_true nv Video) by done.
      rewrite (deref_insert_eq _ parent). cbn [mbind result_bind].
      by rewrite insert_insert_eq. }
    by destruct (cls p). }
  exists v, (<[parent := p2]> h0). split_and!.
  - unfold Video_init. fold v nv h0. by rewrite Hadd.
  - done.
  - unfold del_child, GenericContainer_del_child.
    rewrite (deref_insert_eq _ parent). cbn [mbind result_bind].
    rewrite (isinstance_false p2 Video) by done. cbn [mbind result_bind].
    change (child_list p2) with (child_list p ++ [v]).
    rewrite (bool_decide_eq_true_2 (v ∈ child_list p ++ [v]))
      by (apply elem_of_app; right; left).
    cbn [negb]. rewrite list_remove_app_singleton by done.
    rewrite insert_insert_eq. rewrite (deref_insert_ne _ parent v) by done.
    assert (deref h0 v = Ok nv) as -> by apply deref_insert_eq.
    cbn [mbind result_bind].
    rewrite (isinstance_true nv Video) by done.
    rewrite insert_insert_eq. do 2 f_equal.
    unfold h0. rewrite (insert_insert_ne _ parent v) by done. f_equal.
    apply insert_id. rewrite Hp. f_equal.
    unfold p2, p1. destruct p.
    unfold with_vid_count, with_counts, with_child_list. cbn. f_equal; lia.
Qed.

Lemma Video_init_del_child_round_trip_witness :
  ∃ v h1,
    Video_init readd_folder_heap 12 "b" 1%positive true = Ok (v, h1)
    ∧ readd_folder_heap !! v = None
    ∧ del_child h1 1%positive v
      = Ok (true, <[v := new_video 12 "b" 1%positive]> readd_folder_heap).
Proof.
  apply (Video_init_del_child_round_trip readd_folder_heap 1%positive
           (a_container Folder 10 "dir" None [2%positive] 1) 12 "b").
  - reflexivity.
  - discriminate.
  - apply (bool_decide_unpack _). vm_compute. exact I.
Defined.

(** X25: [Folder.add_child] never stores a child twice: for a folder whose
    children are in the store and listed once each, the call returns, and
    afterwards the children are the old ones and the object added, still
    listed once each, whether the object was a child already or not and
    whether or not the list is sorted. *)
Theorem Folder_add_child_NoDup (h : heap) self s child_obj no_sort_flag :
  h !! self = Some s →
  Forall (λ r, is_Some (h !! r)) (child_list s) →
  is_Some (h !! child_obj) →
  NoDup (child_list s) →
  ∃ h' s',
    Folder_add_child h self child_obj no_sort_flag = Ok h'
    ∧ h' !! self = Some s'
    ∧ NoDup (child_list s')
    ∧ ∀ x, x ∈ child_list s' ↔ x ∈ child_list s ∨ x = child_obj.
Proof.
  intros Hs Hall Hc Hnd. unfold Folder_add_child.
  rewrite (deref_Some _ _ _ Hs). cbn [mbind result_bind].
  case_bool_decide as Hin; cbn [negb].
  { exists h, s. split_and!; [done|done|done|].
    intros x. split; [by left|]. by intros [?| ->]. }
  set (s1 := with_child_list (child_list s ++ [child_obj]) s).
  set (h1 := <[self := s1]> h).
  assert (Hall1 : Forall (λ r, is_Some (h1 !! r)) (child_list s1)).
  { apply Forall_app. split.
    - eapply Forall_impl; [exact Hall|]. intros r Hr. unfold h1.
      destruct (decide (self = r)) as [<-|Hne].
      + by rewrite lookup_insert_eq.
      + by rewrite lookup_insert_ne.
    - constructor; [|constructor]. unfold h1.
      destruct (decide (self = child_obj)) as [<-|Hne].
      + by rewrite lookup_insert_eq.
      + by rewrite lookup_insert_ne. }
  (* the store after the sort, if there is one *)
  assert (Hsort : ∃ l2,
    (if negb no_sort_flag then Folder_sort_children h1 self else Ok h1)
    = Ok (<[self := with_child_list l2 s]> h)
    ∧ l2 ≡ₚ child_list s ++ [child_obj]).
  { destruct no_sort_flag; cbn [negb].
    - exists (child_list s ++ [child_obj]). done.
    - destruct (Folder_sort_children_sorted h1 self s1) as (l2 & -> & Hperm & _).
      + apply lookup_insert_eq.
      + done.
      + exists l2. split; [|done]. unfold h1. by rewrite insert_insert_eq. }
  destruct Hsort as (l2 & -> & Hperm). cbn [mbind result_bind].
  set (s2 := with_child_list l2 s).
  assert (Hnd2 : NoDup l2).
  { rewrite Hperm. apply NoDup_app. split_and!; [done| |apply NoDup_singleton].
    intros x Hx ->%list_elem_of_singleton. done. }
  assert (Hel : ∀ x, x ∈ l2 ↔ x ∈ child_list s ∨ x = child_obj).
  { intros x. rewrite Hperm, elem_of_app, list_elem_of_singleton. done. }
  assert (Hc2 : ∃ c, deref (<[self := s2]> h) child_obj = Ok c).
  { destruct (decide (self = child_obj)) as [<-|Hne].
    - exists s2. apply deref_insert_eq.
    - destruct Hc as [c Hc]. exists c. rewrite deref_insert_ne by done.
      by apply deref_Some. }
  destruct Hc2 as (c & ->). cbn [mbind result_bind].
  destruct (isinstance c Video).
  - rewrite deref_insert_eq. cbn [mbind result_bind].
    eexists _, _. split; [done|]. rewrite lookup_insert_eq.
    split; [done|]. done.
  - exists (<[self := s2]> h), s2. rewrite lookup_insert_eq. done.
Qed.

Lemma Folder_add_child_NoDup_witness :
  ∃ h' s',
    Folder_add_child readd_folder_heap 1%positive 2%positive false = Ok h'
    ∧ h' !! 1%positive = Some s'
    ∧ NoDup (child_list s')
    ∧ ∀ x, x ∈ child_list s' ↔ x ∈ [2%positive] ∨ x = 2%positive.
Proof.
  apply (Folder_add_child_NoDup readd_folder_heap 1%positive
           (a_container Folder 10 "dir" None [2%positive] 1)
           2%positive false).
  - reflexivity.
  - apply (bool_decide_unpack _). vm_compute. exact I.
  - by eexists.
  - apply NoDup_singleton.
Defined.

(** ** Matching names by their start or their stem *)

Lemma str_take_same_start n a b :
  str_take n a = str_take n b ↔ same_start n a b.
Proof.
  unfold same_start. revert a b. induction n as [|n IH]; intros a b.
  - split; [intros _ i Hi; lia|]. by destruct a, b.
  - destruct a as [|c a], b as [|c' b]; cbn [str_take].
    + done.
    + split; [done|]. intros Hget. specialize (Hget 0%nat). cbn in Hget.
      discriminate Hget. lia.
    + split; [done|]. intros Hget. specialize (Hget 0%nat). cbn in Hget.
      discriminate Hget. lia.
    + split.
      * intros [= -> Htake] [|i] Hi; [done|]. cbn.
        apply (proj1 (IH a b) Htake). lia.
      * intros Hget. f_equal.
        -- specialize (Hget 0%nat). cbn in Hget.
           assert (Some c = Some c') as [= ->] by (apply Hget; lia). done.
        -- apply IH. intros i Hi. apply (Hget (S i)). lia.
Qed.

Lemma str_length_app a b :
  String.length (a +:+ b) = (String.length a + String.length b)%nat.
Proof. induction a as [|c a IH]; simpl; [done|]. by rewrite IH. Qed.

Lemma str_take_split n s :
  ∃ x, s = str_take n s +:+ x
       ∧ String.length (str_take n s) = Nat.min n (String.length s).
Proof.
  revert s. induction n as [|n IH]; intros s.
  - exists s. by destruct s.
  - destruct s as [|c s]; cbn [str_take].
    + by exists "".
    + destruct (IH s) as (x & Hx & Hlen). exists x. split.
      * by rewrite Hx at 1.
      * simpl. by rewrite Hlen.
Qed.

Lemma str_take_app_length p x : str_take (String.length p) (p +:+ x) = p.
Proof.
  induction p as [|c p IH]; [by destruct x|].
  change (String c p +:+ x) with (String c (p +:+ x)).
  cbn [String.length str_take]. by rewrite IH.
Qed.

Lemma str_take_same_stem k a b :
  str_take (String.length a - k) a = str_take (String.length b - k) b
  ↔ same_stem k a b.
Proof.
  unfold same_stem. split.
  - intros Heq.
    destruct (str_take_split (String.length a - k) a) as (x & Hx & Hlx).
    destruct (str_take_split (String.length b - k) b) as (y & Hy & Hly).
    exists (str_take (String.length a - k) a), x, y.
    split; [done|]. split; [by rewrite Heq|].
    apply (f_equal String.length) in Hx, Hy.
    rewrite str_length_app in Hx, Hy. lia.
  - intros (p & x & y & -> & -> & Hx & Hy).
    rewrite !str_length_app in *.
    replace (String.length p + String.length x - k)%nat
      with (String.length p) by lia.
    replace (String.length p + String.length y - k)%nat
      with (String.length p) by lia.
    by rewrite !str_take_app_length.
Qed.

Lemma slice_to_nonneg (n : nat) s : slice_to (Z.of_nat n) s = str_take n s.
Proof.
  unfold slice_to. rewrite (proj2 (Z.leb_le 0 (Z.of_nat n))) by lia.
  by rewrite Nat2Z.id.
Qed.

Lemma slice_to_neg (k : nat) s :
  (0 < k)%nat →
  slice_to (Z.of_nat k * -1) s = str_take (String.length s - k) s.
Proof.
  intros Hk. unfold slice_to.
  rewrite (proj2 (Z.leb_gt 0 (Z.of_nat k * -1))) by lia.
  f_equal. lia.
Qed.

(** The loop of [find_matching_video] returns the first child that is a
    video and passes the test of the policy. *)
Lemma find_matching_loop_first (h : heap) method first ignore test_name l :
  Forall (λ r, is_Some (h !! r)) l →
  ∃ res,
    find_matching_loop h method first ignore test_name l = Ok res
    ∧ match res with
      | Some r =>
          ∃ i v,
            l !! i = Some r ∧ h !! r = Some v ∧ cls v = Video
            ∧ name_matches method first ignore (tidy_name (name v)) test_name
              = true
            ∧ ∀ j r' v',
                (j < i)%nat → l !! j = Some r' → h !! r' = Some v' →
                ¬ (cls v' = Video
                   ∧ name_matches method first ignore (tidy_name (name v'))
                       test_name = true)
      | None =>
          ∀ r v, r ∈ l → h !! r = Some v →
                 ¬ (cls v = Video
                    ∧ name_matches method first ignore (tidy_name (name v))
                        test_name = true)
      end.
Proof.
  induction l as [|r l IH]; intros Hall; cbn [find_matching_loop].
  - exists None. split; [done|]. by intros r v ?%not_elem_of_nil.
  - apply Forall_cons in Hall as [[c Hc] Hall].
    rewrite (deref_Some _ _ _ Hc). cbn [mbind result_bind].
    destruct (isinstance c Video
              && name_matches method first ignore (tidy_name (name c))
                   test_name) eqn:Htest.
    + apply andb_true_iff in Htest as [Hv Hn].
      apply bool_decide_eq_true_1 in Hv.
      exists (Some r). split; [done|]. exists 0%nat, c.
      repeat split; [done..|]. intros; lia.
    + assert (Hno : ¬ (cls c = Video
                ∧ name_matches method first ignore (tidy_name (name c))
                    test_name = true)).
      { intros [Hv Hn]. by rewrite (isinstance_true _ _ Hv), Hn in Htest. }
      destruct (IH Hall) as (res & -> & Hres). exists res. split; [done|].
      destruct res as [r1|].
      * destruct Hres as (i & v & Hi & Hv & Hcv & Hn & Hbefore).
        exists (S i), v. repeat split; [done..|].
        intros [|j] r' v' Hj Hr' Hv'.
        -- cbn in Hr'. injection Hr' as <-. rewrite Hc in Hv'.
           by injection Hv' as <-.
        -- apply (Hbefore j r' v'); [lia|done..].
      * intros r' v' [->|Hin]%elem_of_cons Hv'.
        -- rewrite Hc in Hv'. by injection Hv' as <-.
        -- by apply (Hres r' v').
Qed.

(** [find_matching_video] under a policy whose test amounts to the
    property [P] of the child. *)
Lemma find_matching_video_with (h : heap) self s app_obj n
    (P : media → Prop) :
  h !! self = Some s →
  Forall (λ r, is_Some (h !! r)) (child_list s) →
  (∀ v, name_matches (match_method app_obj) (match_first_chars app_obj)
          (match_ignore_chars app_obj * -1) (tidy_name (name v))
          (tidy_name n) = true ↔ P v) →
  ∃ res,
    GenericContainer_find_matching_video h self app_obj n = Ok res
    ∧ match res with
      | Some r => first_video_with h s P r
      | None => no_video_with h s P
      end.
Proof.
  intros Hs Hall HP. unfold GenericContainer_find_matching_video.
  rewrite (deref_Some _ _ _ Hs). cbn [mbind result_bind].
  destruct (find_matching_loop_first h (match_method app_obj)
              (match_first_chars app_obj) (match_ignore_chars app_obj * -1)
              (tidy_name n) _ Hall) as (res & -> & Hres).
  exists res. split; [done|].
  unfold first_video_with, no_video_with. destruct res as [r|].
  - destruct Hres as (i & v & Hi & Hv & Hcv & Hn & Hbefore).
    exists i, v. split_and!; [done|done|done|by apply HP|].
    intros j r' v' Hj Hr' Hv' [Hc' HP']. apply (Hbefore j r' v' Hj Hr' Hv').
    split; [done|]. by apply HP.
  - intros r v Hr Hv [Hc' HP']. apply (Hres r v Hr Hv).
    split; [done|]. by apply HP.
Qed.

(** X26: under the policy "match_first" with [n] characters,
    [find_matching_video] returns the first video among the children whose
    normalised name agrees with the normalised candidate on the first [n]
    characters, and [None] when no child is such a video. *)
Theorem find_matching_video_match_first (h : heap) self s app_obj wanted
    (n : nat) :
  h !! self = Some s →
  Forall (λ r, is_Some (h !! r)) (child_list s) →
  match_method app_obj = "match_first" →
  match_first_chars app_obj = Z.of_nat n →
  ∃ res,
    GenericContainer_find_matching_video h self app_obj wanted = Ok res
    ∧ match res with
      | Some r =>
          first_video_with h s
            (λ v, same_start n (normalise_name (name v))
                    (normalise_name wanted)) r
      | None =>
          no_video_with h s
            (λ v, same_start n (normalise_name (name v))
                    (normalise_name wanted))
      end.
Proof.
  intros Hs Hall Hm Hn. apply find_matching_video_with; [done|done|].
  intros v. rewrite Hm, Hn. unfold name_matches.
  cbn [String.eqb Ascii.eqb Bool.eqb andb orb].
  rewrite orb_false_r, !slice_to_nonneg, !tidy_name_normalise.
  rewrite <- str_take_same_start. apply String.eqb_eq.
Qed.

Lemma find_matching_video_match_first_witness :
  ∃ res,
    GenericContainer_find_matching_video names_heap 1%positive first_app
      "Foo: Bar, once more" = Ok res
    ∧ match res with
      | Some r =>
          first_video_with names_heap
            (a_container Channel 11 "chan" None
               [2%positive; 3%positive; 4%positive; 5%positive] 4)
            (λ v, same_start 7 (normalise_name (name v))
                    (normalise_name "Foo: Bar, once more")) r
      | None =>
          no_video_with names_heap
            (a_container Channel 11 "chan" None
               [2%positive; 3%positive; 4%positive; 5%positive] 4)
            (λ v, same_start 7 (normalise_name (name v))
                    (normalise_name "Foo: Bar, once more"))
      end.
Proof.
  apply (find_matching_video_match_first names_heap 1%positive
           (a_container Channel 11 "chan" None
              [2%positive; 3%positive; 4%positive; 5%positive] 4)
           first_app "Foo: Bar, once more" 7).
  - reflexivity.
  - apply (bool_decide_unpack _). vm_compute. exact I.
  - reflexivity.
  - reflexivity.
Defined.

(** X27: under the policy "ignore_last" with [k] characters, [k] not zero,
    [find_matching_video] returns the first video among the children whose
    normalised name is the normalised candidate once the last [k]
    characters of both are taken off, and [None] when no child is such a
    video. *)
Theorem find_matching_video_ignore_last (h : heap) self s app_obj wanted
    (k : nat) :
  h !! self = Some s →
  Forall (λ r, is_Some (h !! r)) (child_list s) →
  match_method app_obj = "ignore_last" →
  match_ignore_chars app_obj = Z.of_nat k →
  (0 < k)%nat →
  ∃ res,
    GenericContainer_find_matching_video h self app_obj wanted = Ok res
    ∧ match res with
      | Some r =>
          first_video_with h s
            (λ v, same_stem k (normalise_name (name v))
                    (normalise_name wanted)) r
      | None =>
          no_video_with h s
            (λ v, same_stem k (normalise_name (name v))
                    (normalise_name wanted))
      end.
Proof.
  intros Hs Hall Hm Hn Hk. apply find_matching_video_with; [done|done|].
  intros v. rewrite Hm, Hn. unfold name_matches.
  cbn [String.eqb Ascii.eqb Bool.eqb andb orb].
  rewrite !slice_to_neg, !tidy_name_normalise by done.
  rewrite <- str_take_same_stem. apply String.eqb_eq.
Qed.

Lemma find_matching_video_ignore_last_witness :
  ∃ res,
    GenericContainer_find_matching_video names_heap 1%positive ignore_app
      "Foo Bar Bat" = Ok res
    ∧ match res with
      | Some r =>
          first_video_with names_heap
            (a_container Channel 11 "chan" None
               [2%positive; 3%positive; 4%positive; 5%positive] 4)
            (λ v, same_stem 4 (normalise_name (name v))
                    (normalise_name "Foo Bar Bat")) r
      | None =>
          no_video_with names_heap
            (a_container Channel 11 "chan" None
               [2%positive; 3%positive; 4%positive; 5%positive] 4)
            (λ v, same_stem 4 (normalise_name (name v))
                    (normalise_name "Foo Bar Bat"))
      end.
Proof.
  apply (find_matching_video_ignore_last names_heap 1%positive
           (a_container Channel 11 "chan" None
              [2%positive; 3%positive; 4%positive; 5%positive] 4)
           ignore_app "Foo Bar Bat" 4).
  - reflexivity.
  - apply (bool_decide_unpack _). vm_compute. exact I.
  - reflexivity.
  - reflexivity.
  - lia.
Defined.

(** X28: under the policy "ignore_last" with no characters to ignore, the
    names are not compared at all: [find_matching_video] returns the first
    video among the children whatever name is asked for, and [None] only
    when no child is a video. *)
Theorem find_matching_video_ignore_none (h : heap) self s app_obj wanted :
  h !! self = Some s →
  Forall (λ r, is_Some (h !! r)) (child_list s) →
  match_method app_obj = "ignore_last" →
  match_ignore_chars app_obj = 0 →
  ∃ res,
    GenericContainer_find_matching_video h self app_obj wanted = Ok res
    ∧ match res with
      | Some r => first_video_with h s (λ _, True) r
      | None => no_video_with h s (λ _, True)
      end.
Proof.
  intros Hs Hall Hm Hn. apply find_matching_video_with; [done|done|].
  intros v. rewrite Hm, Hn. unfold name_matches.
  cbn [String.eqb Ascii.eqb Bool.eqb andb orb].
  change (0 * -1) with (Z.of_nat 0). rewrite !slice_to_nonneg.
  cbn [str_take]. done.
Qed.

Lemma find_matching_video_ignore_none_witness :
  ∃ res,
    GenericContainer_find_matching_video names_heap 1%positive
      ignore_none_app "something else" = Ok res
    ∧ match res with
      | Some r =>
          first_video_with names_heap
            (a_container Channel 11 "chan" None
               [2%positive; 3%positive; 4%positive; 5%positive] 4)
            (λ _, True) r
      | None =>
          no_video_with names_heap
            (a_container Channel 11 "chan" None
               [2%positive; 3%positive; 4%positive; 5%positive] 4)
            (λ _, True)
      end.
Proof.
  apply (find_matching_video_ignore_none names_heap 1%positive
           (a_container Channel 11 "chan" None
              [2%positive; 3%positive; 4%positive; 5%positive] 4)
           ignore_none_app "something else").
  - reflexivity.
  - apply (bool_decide_unpack _). vm_compute. exact I.
  - reflexivity.
  - reflexivity.
Defined.

(** ** The children of a channel or playlist *)



